(** * Kindle Manga Optimizer (main.py)

    A shallow embedding of the chapter discovery, natural ordering, volume
    planning, sequential export and enhancement pipeline of [main.py], of
    the editing of the chapter list, the choice of the source folder, and
    the panning and magnifier of the preview, followed by the properties of
    these components.

    Conventions of the embedding:
    - a Python [str] is a [string] (its UTF-8 bytes; comparing byte strings
      lexicographically agrees with comparing code points);
    - a Python [int] is a [Z], a list index or length a [nat];
    - a [tk.DoubleVar] value (a finite double) is a [Q]; it is only ever
      stored or handed on to the imaging library;
    - [pathlib.Path] is the list of its components;
    - a raised exception is [None] (or an explicit error value) and
      [try/except] is a [match] on it. *)

From Stdlib Require Import String Ascii DecimalString DecimalNat.
From Stdlib Require Import List ZArith QArith Lia Bool Arith.
From Stdlib Require Import Permutation Sorted.
Import ListNotations.
Local Open Scope Z_scope.

(* ================================================================== *)
(** * Part I: the program *)
(* ================================================================== *)

(** ** Paths *)

Definition Path := list string.

(** [p.name] *)
Definition path_name (p : Path) : string := last p EmptyString.

(** [p / n] *)
Definition path_join (p : Path) (n : string) : Path := (p ++ [n])%list.

(** ** Python strings

    Case mapping and character classes are modelled for ASCII and for the
    Latin-1 letters (two UTF-8 bytes starting with [0xC3]) that occur in the
    program's own literals; other scripts are left as they are. *)

Definition code (c : ascii) : N := N_of_ascii c.

Definition is_upper_ascii (c : ascii) : bool :=
  (65 <=? code c)%N && (code c <=? 90)%N.

(** Second byte of an upper-case letter U+00C0..U+00DE (not the sign U+00D7). *)
Definition is_upper_latin1 (c : ascii) : bool :=
  (128 <=? code c)%N && (code c <=? 158)%N && negb (code c =? 151)%N.

Definition shift32 (c : ascii) : ascii := ascii_of_N (code c + 32).

Definition lower_char (c : ascii) : ascii :=
  if is_upper_ascii c then shift32 c else c.

(** [s.lower()] *)
Fixpoint lower (s : string) : string :=
  match s with
  | EmptyString => EmptyString
  | String c rest =>
      if (code c =? 195)%N then
        match rest with
        | String d rest' =>
            if is_upper_latin1 d then String c (String (shift32 d) (lower rest'))
            else String c (String (lower_char d) (lower rest'))
        | EmptyString => String c EmptyString
        end
      else String (lower_char c) (lower rest)
  end.

(** [c.isspace()] on ASCII: TAB..CR, FS..US and the space. *)
Definition is_space (c : ascii) : bool :=
  ((9 <=? code c)%N && (code c <=? 13)%N)
  || ((28 <=? code c)%N && (code c <=? 32)%N).

(** ASCII decimal digits. *)
Definition is_digit (c : ascii) : bool :=
  (48 <=? code c)%N && (code c <=? 57)%N.

Fixpoint lstrip (s : string) : string :=
  match s with
  | String c rest => if is_space c then lstrip rest else s
  | EmptyString => EmptyString
  end.

Fixpoint rstrip (s : string) : string :=
  match s with
  | EmptyString => EmptyString
  | String c rest =>
      match rstrip rest with
      | EmptyString => if is_space c then EmptyString else String c EmptyString
      | r => String c r
      end
  end.

(** [s.strip()] *)
Definition strip (s : string) : string := rstrip (lstrip s).

(** [s.startswith(p)] *)
Definition startswith (s p : string) : bool := prefix p s.

(** [s.rfind(".")], scanning from index [i] with the last hit so far. *)
Fixpoint rfind_dot_from (s : string) (i : nat) (acc : option nat) : option nat :=
  match s with
  | EmptyString => acc
  | String c rest =>
      rfind_dot_from rest (S i) (if (code c =? 46)%N then Some i else acc)
  end.

(** [PurePath.suffix]: the last dot-separated part of the name, with its
    dot, unless the name starts or ends with that dot. *)
Definition path_suffix (p : Path) : string :=
  let nm := path_name p in
  match rfind_dot_from nm 0 None with
  | Some i =>
      if (0 <? i)%nat && (i <? String.length nm - 1)%nat
      then substring i (String.length nm - i) nm
      else EmptyString
  | None => EmptyString
  end.

(** Decimal value of a digit character. *)
Definition digit_val (c : ascii) : option Z :=
  if is_digit c then Some (Z.of_N (code c) - 48) else None.

(** Digits of an integer literal, single underscores allowed between
    digits; [prev] tells whether the previous character was a digit. *)
Fixpoint int_digits (s : string) (acc : Z) (prev : bool) : option Z :=
  match s with
  | EmptyString => if prev then Some acc else None
  | String c rest =>
      match digit_val c with
      | Some d => int_digits rest (10 * acc + d) true
      | None =>
          if (code c =? 95)%N && prev then int_digits rest acc false else None
      end
  end.

(** [int(s)] for a string argument; [None] is [ValueError]. *)
Definition py_int (s : string) : option Z :=
  match strip s with
  | String c rest =>
      if (code c =? 45)%N then option_map Z.opp (int_digits rest 0 false)
      else if (code c =? 43)%N then int_digits rest 0 false
      else int_digits (String c rest) 0 false
  | EmptyString => None
  end.

(** ** Regular expressions: the fragment of [re] used by the profiles

    A backtracking matcher with Python's priorities (left alternative first,
    greedy repetition longest first, lazy repetition shortest first).  The
    continuation receives the rest of the subject and the text captured by
    group 1 so far.  A match object is represented by what [m.group(1)]
    returns. *)

Inductive regex :=
| RChar (p : ascii -> bool)
| RSeq (r1 r2 : regex)
| RAlt (r1 r2 : regex)
| RStar (greedy : bool) (p : ascii -> bool)
| RGroup (r : regex)
| REnd
| REmpty.

Definition Match := option string.

Fixpoint star_greedy (p : ascii -> bool) (s : string) (cap : option string)
  (k : string -> option string -> option Match) : option Match :=
  match s with
  | String c rest =>
      if p c then
        match star_greedy p rest cap k with
        | Some m => Some m
        | None => k s cap
        end
      else k s cap
  | EmptyString => k s cap
  end.

Fixpoint star_lazy (p : ascii -> bool) (s : string) (cap : option string)
  (k : string -> option string -> option Match) : option Match :=
  match k s cap with
  | Some m => Some m
  | None =>
      match s with
      | String c rest => if p c then star_lazy p rest cap k else None
      | EmptyString => None
      end
  end.

Fixpoint rmatch (r : regex) (s : string) (cap : option string)
  (k : string -> option string -> option Match) : option Match :=
  match r with
  | RChar p =>
      match s with
      | String c rest => if p c then k rest cap else None
      | EmptyString => None
      end
  | RSeq r1 r2 => rmatch r1 s cap (fun s' cap' => rmatch r2 s' cap' k)
  | RAlt r1 r2 =>
      match rmatch r1 s cap k with
      | Some m => Some m
      | None => rmatch r2 s cap k
      end
  | RStar true p => star_greedy p s cap k
  | RStar false p => star_lazy p s cap k
  | RGroup r1 =>
      rmatch r1 s cap
        (fun s' _ =>
           k s' (Some (substring 0 (String.length s - String.length s') s)))
  | REnd =>
      match s with
      | EmptyString => k s cap
      | String c EmptyString => if (code c =? 10)%N then k s cap else None
      | _ => None
      end
  | REmpty => k s cap
  end.

(** [pattern.search(s)]: the match at the leftmost position that has one. *)
Fixpoint re_search (r : regex) (s : string) : option Match :=
  match rmatch r s None (fun _ cap => Some cap) with
  | Some m => Some m
  | None =>
      match s with
      | String _ rest => re_search r rest
      | EmptyString => None
      end
  end.

(** A literal character under [re.I]. *)
Definition ci (c : ascii) : ascii -> bool :=
  fun x => (code (lower_char x) =? code (lower_char c))%N.

(** A literal string under [re.I] (ASCII letters fold; other bytes are
    compared as they are). *)
Fixpoint rlit (s : string) : regex :=
  match s with
  | EmptyString => REmpty
  | String c EmptyString => RChar (ci c)
  | String c rest => RSeq (RChar (ci c)) (rlit rest)
  end.

(** [p+] *)
Definition rplus (p : ascii -> bool) : regex := RSeq (RChar p) (RStar true p).

(** [(?:jpg|jpeg|png|webp)] *)
Definition rx_image_ext : regex :=
  RAlt (rlit "jpg") (RAlt (rlit "jpeg") (RAlt (rlit "png") (rlit "webp"))).

(** [(?:cap[ií]tulo|chapter|ch)[^\d]*(\d+)] with [re.I] *)
Definition rx_tmo_chapter : regex :=
  RSeq (RAlt (RSeq (rlit "cap")
                   (RSeq (RAlt (rlit "i") (RAlt (rlit "í") (rlit "Í")))
                         (rlit "tulo")))
             (RAlt (rlit "chapter") (rlit "ch")))
       (RSeq (RStar true (fun c => negb (is_digit c)))
             (RGroup (rplus is_digit))).

(** [(\d+)\.(?:jpg|jpeg|png|webp)$] with [re.I] *)
Definition rx_tmo_image : regex :=
  RSeq (RGroup (rplus is_digit)) (RSeq (rlit ".") (RSeq rx_image_ext REnd)).

(** [chapter\s*0*?(\d+)$] with [re.I] *)
Definition rx_inmanga_chapter : regex :=
  RSeq (rlit "chapter")
       (RSeq (RStar true is_space)
             (RSeq (RStar false (ci "0"))
                   (RSeq (RGroup (rplus is_digit)) REnd))).

(** [0*?(\d+)\.(?:jpg|jpeg|png|webp)$] with [re.I] *)
Definition rx_inmanga_image : regex :=
  RSeq (RStar false (ci "0"))
       (RSeq (RGroup (rplus is_digit))
             (RSeq (rlit ".") (RSeq rx_image_ext REnd))).

(** ** Profiles *)

(** A compiled pattern, through its [search] method. *)
Definition Pattern := string -> option Match.

Record SourceProfile := mkSourceProfile {
  key : string;
  label : string;
  chapter_dir_regex : option Pattern;
  image_file_regex : option Pattern;
  expects_subfolders : bool
}.

(** The tuples [(0, n)] and [(1, s)] returned by the sort-key methods. *)
Inductive SortKey :=
| KNum (n : Z)
| KStr (s : string).

(** [try: return (0, int(m.group(1))) except: pass]: [None] when either
    [group(1)] is [None] or [int] raises. *)
Definition int_of_group (m : Match) : option Z :=
  match m with
  | Some s => py_int s
  | None => None
  end.

Definition sort_key_with (rx : option Pattern) (p : Path) : SortKey :=
  match rx with
  | Some pat =>
      match pat (path_name p) with
      | Some m =>
          match int_of_group m with
          | Some n => KNum n
          | None => KStr (lower (path_name p))
          end
      | None => KStr (lower (path_name p))
      end
  | None => KStr (lower (path_name p))
  end.

Definition sort_chapter_key (self : SourceProfile) (p : Path) : SortKey :=
  sort_key_with (chapter_dir_regex self) p.

Definition sort_image_key (self : SourceProfile) (f : Path) : SortKey :=
  sort_key_with (image_file_regex self) f.

Definition PROFILE_TMO : SourceProfile :=
  mkSourceProfile "TMO" "TMO (mixto)"
    (Some (re_search rx_tmo_chapter)) (Some (re_search rx_tmo_image)) true.

Definition PROFILE_INMANGA : SourceProfile :=
  mkSourceProfile "INMANGA" "INMANGA (Chapter XX / 001.jpg)"
    (Some (re_search rx_inmanga_chapter)) (Some (re_search rx_inmanga_image))
    true.

(** [PROFILES[k]]; [None] is [KeyError]. *)
Definition PROFILES (k : string) : option SourceProfile :=
  if (k =? key PROFILE_TMO)%string then Some PROFILE_TMO
  else if (k =? key PROFILE_INMANGA)%string then Some PROFILE_INMANGA
  else None.

(** ** Sorting by key

    Tuple comparison: the tags [0] and [1] decide between a numeric and a
    fallback key; equal tags compare the payloads, integers by value and
    strings lexicographically. *)

Definition key_ltb (a b : SortKey) : bool :=
  match a, b with
  | KNum x, KNum y => x <? y
  | KNum _, KStr _ => true
  | KStr _, KNum _ => false
  | KStr x, KStr y => String.ltb x y
  end.


(** [list.sort(key=f)] is a stable sort that only uses [<] on keys; a stable
    insertion sort computes the same list. *)
Fixpoint insert_by {A} (f : A -> SortKey) (x : A) (l : list A) : list A :=
  match l with
  | [] => [x]
  | y :: l' => if key_ltb (f y) (f x) then y :: insert_by f x l' else x :: l
  end.

Definition sort_by {A} (f : A -> SortKey) (l : list A) : list A :=
  fold_right (insert_by f) [] l.

(** ** Models ([Chapter]) *)

Record Chapter := mkChapter {
  name : string;
  dir : Path;
  images : list Path;
  enabled : bool
}.

(** [Chapter(name=..., dir=..., images=...)]: [enabled] defaults to [True]. *)
Definition new_Chapter (n : string) (d : Path) (imgs : list Path) : Chapter :=
  mkChapter n d imgs true.

(** The [pages] property: [len(self.images)]. *)
Definition pages (c : Chapter) : Z := Z.of_nat (List.length (images c)).

(** ** The application object ([self]) *)

Record App := mkApp {
  target_width : Z;
  jpg_quality : Z;
  contrast_boost : Q;
  sharpness_boost : Q;
  noise_reduction : bool;
  auto_contrast : bool;
  to_grayscale : bool;
  adaptive_threshold : bool;
  preset_name : string;
  eink_dither : bool;
  process_subfolders : bool;
  group_size : Z;
  profile_key : string;
  clean_ebooks_before : bool;
  clean_temp_before : bool;
  start_volume : Z;
  series_title : string;
  has_ximgproc : bool;
  base_path : Path;
  chapters : list Chapter;
  selected_folder : option Path
}.

(** ** Python built-ins used by the planner *)

(** [range(i, stop, step)] for a positive [step], unfolded with fuel. *)
Fixpoint range_from (fuel i stop step : nat) : list nat :=
  match fuel with
  | O => []
  | S fuel' =>
      if (i <? stop)%nat then i :: range_from fuel' (i + step) stop step
      else []
  end.

(** [range(start, stop, step)], [step >= 1]: [stop - start] steps suffice. *)
Definition py_range (start stop step : nat) : list nat :=
  range_from (stop - start) start stop step.

(** [l[i:j]] for [0 <= i <= j]; the slice is clamped to the list. *)
Definition slice {A} (l : list A) (i j : nat) : list A :=
  firstn (j - i) (skipn i l).

(** [enumerate(l)] *)
Definition enumerate {A} (l : list A) : list (nat * A) :=
  combine (seq 0 (List.length l)) l.

(** [sum(...)] over integers *)
Definition py_sum (l : list Z) : Z := fold_left Z.add l 0.

(** ** Planning *)

Definition build_plan (self : App) : list (list Chapter) :=
  let enabled_chs := filter enabled (chapters self) in
  let g := Z.to_nat (Z.max 1 (group_size self)) in
  map (fun i => slice enabled_chs i (i + g))
      (py_range 0 (List.length enabled_chs) g).

(** One top-level row of the plan tree: "Volumen NN (vNN)", its page count
    and its chapter rows. *)
Record PlanRow := mkPlanRow {
  vnum : Z;
  vol_pages : Z;
  vol_chapters : list Chapter
}.

Record PlanView := mkPlanView {
  rows : list PlanRow;
  total_vols : Z;
  total_pages : Z
}.

Definition update_plan_view (self : App) : PlanView :=
  let plan := build_plan self in
  let tv := Z.of_nat (List.length plan) in
  let tp := py_sum (map pages (concat plan)) in
  let start_v := Z.max 1 (start_volume self) in
  mkPlanView
    (map (fun '(idx, vol) =>
            mkPlanRow (start_v + Z.of_nat idx) (py_sum (map pages vol)) vol)
         (enumerate plan))
    tv tp.

(** ** The file system seen by the scanner

    A directory entry is a path together with what is found there: a regular
    file, a directory (which [iterdir] can list or not), or something that is
    neither. *)

#[local] Set Warnings "-register-all".

Inductive Node :=
| File
| Dir (readable : bool) (entries : list (string * Node))
| Other.

Definition Entry := (Path * Node)%type.

Inductive exn :=
| PermissionError (p : Path)
| NotADirectoryError (p : Path)
| KeyError (k : string).

Definition is_dir (e : Entry) : bool :=
  match snd e with
  | Dir _ _ => true
  | _ => false
  end.

Definition is_file (e : Entry) : bool :=
  match snd e with
  | File => true
  | _ => false
  end.

(** [p.iterdir()], consumed at once by the list comprehension. *)
Definition iterdir (e : Entry) : exn + list Entry :=
  match snd e with
  | Dir true es => inr (map (fun '(n, c) => (path_join (fst e) n, c)) es)
  | Dir false _ => inl (PermissionError (fst e))
  | _ => inl (NotADirectoryError (fst e))
  end.

Definition formats : list string := [".jpg"; ".jpeg"; ".png"; ".webp"]%string.

(** [f.is_file() and f.suffix.lower() in formats] *)
Definition is_image_file (f : Entry) : bool :=
  is_file f && existsb (String.eqb (lower (path_suffix (fst f)))) formats.

(** [[f for f in d.iterdir() if ...]] followed by [files.sort(key=...)]. *)
Definition image_files (profile : SourceProfile) (es : list Entry) : list Path :=
  sort_by (sort_image_key profile) (map fst (filter is_image_file es)).

(** ** Scanning *)

Definition set_chapters (self : App) (chs : list Chapter) : App :=
  mkApp (target_width self) (jpg_quality self) (contrast_boost self)
        (sharpness_boost self) (noise_reduction self) (auto_contrast self)
        (to_grayscale self) (adaptive_threshold self) (preset_name self)
        (eink_dither self) (process_subfolders self) (group_size self)
        (profile_key self) (clean_ebooks_before self) (clean_temp_before self)
        (start_volume self) (series_title self) (has_ximgproc self)
        (base_path self) chs (selected_folder self).

(** The loop [for sub in subdirs]: chapters are appended to [self.chapters]
    one by one; an exception leaves the loop with what was appended so far. *)
Fixpoint scan_subdirs (profile : SourceProfile) (subdirs : list Entry)
  (acc : list Chapter) : list Chapter * option exn :=
  match subdirs with
  | [] => (acc, None)
  | sub :: rest =>
      match iterdir sub with
      | inr es =>
          let files := image_files profile es in
          match files with
          | [] => scan_subdirs profile rest acc
          | _ :: _ =>
              scan_subdirs profile rest
                (acc ++ [new_Chapter (path_name (fst sub)) (fst sub) files])
          end
      | inl e => (acc, Some e)
      end
  end.

(** [scan_images], given the node found at [self.selected_folder]; the
    result is [self] afterwards and the exception that escaped, if any. *)
Definition scan_images (self : App) (root : Node) : App * option exn :=
  let self0 := set_chapters self [] in
  match selected_folder self with
  | None => (self0, None)
  | Some folder =>
      match PROFILES (profile_key self) with
      | None => (self0, Some (KeyError (profile_key self)))
      | Some profile =>
          if expects_subfolders profile && process_subfolders self then
            match iterdir (folder, root) with
            | inl e => (self0, Some e)
            | inr es =>
                let subdirs :=
                  sort_by (fun d => sort_chapter_key profile (fst d))
                          (filter is_dir es) in
                let '(chs, r) := scan_subdirs profile subdirs [] in
                (set_chapters self chs, r)
            end
          else
            match iterdir (folder, root) with
            | inl e => (self0, Some e)
            | inr es =>
                match image_files profile es with
                | [] => (self0, None)
                | files =>
                    (set_chapters self
                       [new_Chapter (path_name folder) folder files], None)
                end
            end
      end
  end.

(** ** Images

    A decoded image is its array of pixels, row by row: three 8-bit channels
    per pixel for a colour image ([np.uint8] of shape (H, W, 3), in RGB order
    for PIL and BGR order for OpenCV), one value per pixel for a gray image. *)

Definition pixel := (Z * Z * Z)%type.
Definition image := list (list pixel).
Definition gray_image := list (list Z).

Definition white : pixel := (255, 255, 255).

Definition swap_rb (p : pixel) : pixel :=
  let '(a, b, c) := p in (c, b, a).

(** [cv2.cvtColor(np.array(img), cv2.COLOR_RGB2BGR)] *)
Definition _to_cv (img : image) : image := map (map swap_rb) img.

(** [Image.fromarray(cv2.cvtColor(mat, cv2.COLOR_BGR2RGB))] *)
Definition _from_cv (mat : image) : image := map (map swap_rb) mat.

(** [cv2.COLOR_BGR2GRAY] on 8-bit data: fixed-point luma with 15 fractional
    bits, rounded to nearest. *)
Definition gray_of_bgr (p : pixel) : Z :=
  let '(b, g, r) := p in
  Z.shiftr (b * 3735 + g * 19235 + r * 9798 + 16384) 15.

Definition cvtColor_BGR2GRAY (mat : image) : gray_image :=
  map (map gray_of_bgr) mat.

(** [cv2.COLOR_GRAY2BGR]; also [Image.fromarray(gray).convert("RGB")]. *)
Definition cvtColor_GRAY2BGR (g : gray_image) : image :=
  map (map (fun v => (v, v, v))) g.

(** *** Otsu's threshold ([cv2.THRESH_OTSU])

    The sweep of OpenCV's 8-bit routine: [q1] and [s1] accumulate the number
    and the sum of the pixels up to level [i]; a level with an empty class is
    skipped; the first level with the strictly largest between-class variance
    wins.  The variance is kept as an exact fraction where OpenCV uses
    doubles. *)

(** The 256 levels of an 8-bit image. *)
Definition gray_levels : list Z := map Z.of_nat (seq 0 256).

Definition histogram (g : gray_image) : list Z :=
  map (fun i => Z.of_nat (count_occ Z.eq_dec (concat g) i)) gray_levels.

Record otsu_state := mkOtsu {
  q1 : Z;
  s1 : Z;
  max_num : Z;
  max_den : Z;
  max_val : Z
}.

Definition otsu_step (N S : Z) (st : otsu_state) (ih : Z * Z) : otsu_state :=
  let '(i, h_i) := ih in
  let q1' := q1 st + h_i in
  let s1' := s1 st + i * h_i in
  let q2 := N - q1' in
  if (q1' =? 0) || (q2 =? 0) then
    mkOtsu q1' s1' (max_num st) (max_den st) (max_val st)
  else
    let d := s1' * q2 - (S - s1') * q1' in
    let num := d * d in
    let den := q1' * q2 in
    if num * max_den st >? max_num st * den then mkOtsu q1' s1' num den i
    else mkOtsu q1' s1' (max_num st) (max_den st) (max_val st).

Definition otsu_sweep (levels : list (Z * Z)) : otsu_state :=
  let N := py_sum (map snd levels) in
  let S := py_sum (map (fun '(i, h_i) => i * h_i) levels) in
  fold_left (otsu_step N S) levels (mkOtsu 0 0 0 1 0).

Definition getThreshVal_Otsu (g : gray_image) : Z :=
  max_val (otsu_sweep (combine gray_levels (histogram g))).

(** [cv2.threshold(gray, 0, 255, THRESH_BINARY_INV + THRESH_OTSU)[1]] *)
Definition threshold_inv_otsu (g : gray_image) : gray_image :=
  let t := getThreshVal_Otsu g in
  map (map (fun v => if v >? t then 0 else 255)) g.

(** *** Bounding rectangle of the external contours

    The external contours of a binary image are the outer borders of its
    connected regions of non-zero pixels, so the bounding rectangle of all
    contour points is the bounding rectangle of the non-zero pixels; there is
    no contour exactly when no pixel is non-zero. *)

Definition nonzero (v : Z) : bool := negb (v =? 0).

(** Pointwise "or" of two rows of flags, as long as the longer one. *)
Fixpoint orb_vec (a b : list bool) : list bool :=
  match a, b with
  | [], _ => b
  | _, [] => a
  | x :: a', y :: b' => (x || y) :: orb_vec a' b'
  end.

(** Which rows, and which columns, hold a pixel selected by [p]. *)
Definition row_any {A} (p : A -> bool) (m : list (list A)) : list bool :=
  map (existsb p) m.

Definition col_any {A} (p : A -> bool) (m : list (list A)) : list bool :=
  fold_right (fun row acc => orb_vec (map p row) acc) [] m.

(** Number of leading flags that are not set. *)
Fixpoint lead (v : list bool) : nat :=
  match v with
  | false :: v' => S (lead v')
  | _ => 0%nat
  end.

(** Position of the first flag set, and the length from there to the last
    one set. *)
Definition span (v : list bool) : option (nat * nat) :=
  if existsb (fun b => b) v
  then Some (lead v, (List.length v - lead (rev v) - lead v)%nat)
  else None.

(** The rectangle [(x, y, w, h)] around the pixels selected by [p]. *)
Definition bounding_rect {A} (p : A -> bool) (m : list (list A))
  : option (nat * nat * nat * nat) :=
  match span (col_any p m), span (row_any p m) with
  | Some (x, w), Some (y, h) => Some (x, y, w, h)
  | _, _ => None
  end.

(** [cv2.boundingRect(np.vstack(contours))] as [(x, y, w, h)], [None] when
    [cv2.findContours(thr, RETR_EXTERNAL, CHAIN_APPROX_SIMPLE)] is empty. *)
Definition contours_boundingRect (thr : gray_image)
  : option (nat * nat * nat * nat) :=
  bounding_rect nonzero thr.

(** *** Array helpers *)

(** [np.full((h, w, 3), 255, dtype=np.uint8)] *)
Definition np_full (h w : nat) : image := repeat (repeat white w) h.

(** [a[i:i+len(new)] = new] on one row. *)
Definition set_slice {A} (l : list A) (i : nat) (new : list A) : list A :=
  (firstn i l ++ new ++ skipn (i + List.length new) l)%list.

(** [canvas[y:y+h, x:x+w] = block] for a block of [h] rows of [w] pixels. *)
Definition set_block (canvas : image) (y x : nat) (block : image) : image :=
  (firstn y canvas
   ++ map (fun '(crow, brow) => set_slice crow x brow)
          (combine (slice canvas y (y + List.length block)) block)
   ++ skipn (y + List.length block) canvas)%list.

(** [mat[y:y+h, x:x+w]] *)
Definition crop (mat : image) (x y w h : nat) : image :=
  map (fun row => slice row x (x + w)) (slice mat y (y + h)).

(** [mat.shape[:2]] *)
Definition shape2 (mat : image) : nat * nat :=
  (List.length mat, List.length (hd [] mat)).

(** *** Trim and pad *)

Definition _auto_trim_and_pad (img_cv : image) (pad_px : nat) : image :=
  let gray := cvtColor_BGR2GRAY img_cv in
  let thr := threshold_inv_otsu gray in
  match contours_boundingRect thr with
  | None => img_cv
  | Some (x, y, w, h) =>
      let cropped := crop img_cv x y w h in
      let '(h_, w_) := shape2 cropped in
      let canvas := np_full (h_ + 2 * pad_px) (w_ + 2 * pad_px) in
      set_block canvas pad_px pad_px cropped
  end.

(** ** Exceptions *)

Definition bind {A B} (m : option A) (k : A -> option B) : option B :=
  match m with
  | Some a => k a
  | None => None
  end.

Notation "x <- m ;; k" := (bind m (fun x => k))
  (at level 61, m at next level, right associativity).

(** [try: x = body except Exception: pass] leaves [x] as it was. *)
Definition try_or {A} (body : option A) (old : A) : A :=
  match body with
  | Some a => a
  | None => old
  end.

(** ** The imaging libraries (PIL and OpenCV)

    The transforms of Pillow and OpenCV that the program calls, with the
    arguments the program passes; [None] stands for a raised exception. *)

Definition img_width (img : image) : Z := Z.of_nat (List.length (hd [] img)).
Definition img_height (img : image) : Z := Z.of_nat (List.length img).

Class ImagingLib := {
  (** [img.resize((w, h), Image.Resampling.LANCZOS)] *)
  Image_resize : image -> Z * Z -> option image;
  Image_resize_size : forall img w h img',
      Image_resize img (w, h) = Some img' ->
      img_width img' = w /\ img_height img' = h;
  (** [ImageOps.grayscale(img)] *)
  ImageOps_grayscale : image -> option gray_image;
  (** [ImageOps.autocontrast(img)] *)
  ImageOps_autocontrast : image -> option image;
  (** [ImageEnhance.Contrast(img).enhance(f)] *)
  Contrast_enhance : image -> Q -> option image;
  (** [ImageEnhance.Sharpness(img).enhance(f)] *)
  Sharpness_enhance : image -> Q -> option image;
  (** [img.convert("P", palette=Image.ADAPTIVE, colors=256,
      dither=Image.FLOYDSTEINBERG).convert("RGB")] *)
  convert_P_RGB : image -> option image;
  (** [cv2.bilateralFilter(mat, d, sigmaColor, sigmaSpace)] *)
  cv2_bilateralFilter : image -> Z -> Z -> Z -> option image;
  (** [cv2.adaptiveThreshold(gray, 255, ADAPTIVE_THRESH_GAUSSIAN_C,
      THRESH_BINARY, blockSize, C)] *)
  cv2_adaptiveThreshold : gray_image -> Z -> Z -> option gray_image;
  (** [cv2.createCLAHE(clipLimit, (tile, tile)).apply(gray)] *)
  cv2_CLAHE_apply : Q -> Z -> gray_image -> option gray_image;
  (** [cv2.GaussianBlur(mat, (0, 0), sigma)] *)
  cv2_GaussianBlur : image -> Q -> option image;
  (** [cv2.addWeighted(a, alpha, b, beta, 0)] *)
  cv2_addWeighted : image -> Q -> image -> Q -> option image;
  (** [cv2.fastNlMeansDenoisingColored(mat, None, h, h, 7, 21)] *)
  cv2_fastNlMeansDenoisingColored : image -> Z -> option image;
  (** [cv2.ximgproc.niBlackThreshold(gray, maxValue=255,
      type=THRESH_BINARY, blockSize, k)] *)
  cv2_niBlackThreshold : gray_image -> Z -> Q -> option gray_image
}.

(** ** Image helpers *)

Section Pipeline.
Context `{ImagingLib}.

Definition _unsharp_mask (img_cv : image) (radius amount : Q) : option image :=
  blur <- cv2_GaussianBlur img_cv radius ;;
  cv2_addWeighted img_cv (1 + amount)%Q blur (- amount)%Q.

Definition _clahe_gray (img_cv : image) (clip : Q) (tile : Z) : option image :=
  let gray := cvtColor_BGR2GRAY img_cv in
  g2 <- cv2_CLAHE_apply clip tile gray ;;
  Some (cvtColor_GRAY2BGR g2).

Definition _nl_means (img_cv : image) (strength : Z) : option image :=
  match cv2_fastNlMeansDenoisingColored img_cv strength with
  | Some m => Some m
  | None => cv2_bilateralFilter img_cv 9 75 75
  end.

Definition _sauvola_like (self : App) (img_cv : image) : option image :=
  let gray := cvtColor_BGR2GRAY img_cv in
  bin_ <- (if has_ximgproc self then cv2_niBlackThreshold gray 35 (2 # 10)
           else cv2_adaptiveThreshold gray 35 10) ;;
  Some (cvtColor_GRAY2BGR bin_).

Definition _apply_eink_dither (pil_img_rgb : image) : option image :=
  convert_P_RGB pil_img_rgb.

(** ** The main preset pipeline *)

Definition enhance_image_preset (self : App) (img : image) (preset : string)
  : option image :=
  img <- (if to_grayscale self
          then g <- ImageOps_grayscale img ;; Some (cvtColor_GRAY2BGR g)
          else Some img) ;;
  img <- (if auto_contrast self then ImageOps_autocontrast img else Some img) ;;
  let img :=
    if noise_reduction self
    then try_or (cv_tmp <- cv2_bilateralFilter (_to_cv img) 9 75 75 ;;
                 Some (_from_cv cv_tmp)) img
    else img in
  let img :=
    if adaptive_threshold self
    then try_or (thr <- cv2_adaptiveThreshold
                          (cvtColor_BGR2GRAY (_to_cv img)) 35 10 ;;
                 Some (cvtColor_GRAY2BGR thr)) img
    else img in
  let img_cv := _to_cv img in
  let p := lower (strip preset) in
  img_cv <-
    (if startswith p "manga limpio" then
       m <- _clahe_gray img_cv 2 8 ;; _unsharp_mask m 1 (6 # 10)
     else if startswith p "manga antiguo" then
       m <- _clahe_gray img_cv (26 # 10) 8 ;; _unsharp_mask m 1 (5 # 10)
     else if startswith p "escaneo con artefactos" then
       m <- _nl_means img_cv 6 ;; _unsharp_mask m (12 # 10) (6 # 10)
     else if startswith p "texto pequeño" then
       _sauvola_like self img_cv
     else if startswith p "sólo recorte" then
       Some img_cv
     else Some img_cv) ;;
  let img_cv := _auto_trim_and_pad img_cv 16 in
  let img := _from_cv img_cv in
  img <- Contrast_enhance img (contrast_boost self) ;;
  img <- Sharpness_enhance img (sharpness_boost self) ;;
  if eink_dither self then _apply_eink_dither img else Some img.

Definition enhance_image (self : App) (img : image) : option image :=
  enhance_image_preset self img (preset_name self).

End Pipeline.

(** ** Page processing *)

(** [f"{n:0{width}d}"] *)
Definition str_of_nat (n : nat) : string :=
  NilZero.string_of_uint (Nat.to_uint n).

Fixpoint zeros (k : nat) : string :=
  match k with
  | O => EmptyString
  | S k' => String "0" (zeros k')
  end.

Definition zfill (width : nat) (s : string) : string :=
  (zeros (width - String.length s) ++ s)%string.

Definition fmt_d (width : nat) (n : Z) : string :=
  if n <? 0
  then (String "-" (zfill (width - 1) (str_of_nat (Z.to_nat (- n)))))
  else zfill width (str_of_nat (Z.to_nat n)).

(** [int(a / b)] for integers [a], [b]: the true quotient, truncated towards
    zero; [None] is [ZeroDivisionError].  (The quotient is a double in
    Python; the truncation is exact while [|a|] stays below [2^53].) *)
Definition int_truediv (a b : Z) : option Z :=
  if b =? 0 then None else Some (Z.quot a b).

(** What the run meets outside the program: decoding and saving of files,
    the look at the cancel flag from which it reads as set (the flag is only
    cleared when a run starts), and the outcome of packaging a volume
    folder. *)
Record World := mkWorld {
  Image_open : Path -> option image;
  Image_save_ok : Path -> bool;
  cancel_from : option nat;
  packager_ok : Path -> bool
}.

(** [self.cancel_event.is_set()] at the [n]-th look of the run. *)
Definition cancel_is_set (w : World) (n : nat) : bool :=
  match cancel_from w with
  | Some c => (c <=? n)%nat
  | None => false
  end.

Inductive message :=
| MsgSelectFolder
| MsgNoChapters
| MsgStart (total : Z) (series : string)
| MsgCancelled
| MsgCancelledAfterExport
| MsgImageError (file : string)
| MsgVolumeFailed (vnum : Z)
| MsgDone (created : Z).

(** What the run does, in order. *)
Inductive event :=
| Log (m : message)
| Rmtree (p : Path)
| Mkdir (p : Path)
| SaveJpeg (out : Path) (img : image) (quality : Z)
| RunPackager (folder : Path) (out_name : string) (series : string) (vnum : Z).

Section ExportRun.
Context `{ImagingLib} (world : World).

(** The resizing step of [process_single_image_seq]. *)
Definition resize_to_target (self : App) (img : image) : option image :=
  if img_width img >? target_width self then
    h <- int_truediv (img_height img * target_width self) (img_width img) ;;
    Image_resize img (target_width self, h)
  else Some img.

(** Returns the written path, or [None] after logging the error; the event
    is the file written or the message logged. *)
Definition process_single_image_seq (self : App) (path dest : Path)
  (seq_num : Z) : option Path * list event :=
  let attempt :=
    img <- Image_open world path ;;
    img <- resize_to_target self img ;;
    img <- enhance_image self img ;;
    let out := path_join dest (fmt_d 5 seq_num ++ ".jpg")%string in
    if Image_save_ok world out then Some (out, img) else None in
  match attempt with
  | Some (out, img) => (Some out, [SaveJpeg out img (jpg_quality self)])
  | None => (None, [Log (MsgImageError (path_name path))])
  end.

(** ** The export run

    The loops thread the sequence counter [seq], the number [clock] of looks
    at the cancel flag so far, and the events. *)

(** [for img in ch.images: if cancel: break; process(...); seq += 1] *)
Fixpoint export_images (self : App) (imgs : list Path) (vol_tmp : Path)
  (seq : Z) (clock : nat) : Z * nat * list event :=
  match imgs with
  | [] => (seq, clock, [])
  | img :: rest =>
      if cancel_is_set world clock then (seq, S clock, [])
      else
        let evs := snd (process_single_image_seq self img vol_tmp seq) in
        let '(seq', clock', evs') :=
          export_images self rest vol_tmp (seq + 1) (S clock) in
        (seq', clock', (evs ++ evs')%list)
  end.

(** [for ch in vol: (images of ch); if cancel: break] *)
Fixpoint export_chapters (self : App) (vol : list Chapter) (vol_tmp : Path)
  (seq : Z) (clock : nat) : Z * nat * list event :=
  match vol with
  | [] => (seq, clock, [])
  | ch :: rest =>
      let '(seq1, clock1, evs) :=
        export_images self (images ch) vol_tmp seq clock in
      if cancel_is_set world clock1 then (seq1, S clock1, evs)
      else
        let '(seq2, clock2, evs') :=
          export_chapters self rest vol_tmp seq1 (S clock1) in
        (seq2, clock2, (evs ++ evs')%list)
  end.

(** [for idx, vol in enumerate(plan)]; returns the events and [created]. *)
Fixpoint export_volumes (self : App) (series : string) (temp_dir : Path)
  (start_v : Z) (vols : list (nat * list Chapter)) (clock : nat) (created : Z)
  : list event * Z :=
  match vols with
  | [] => ([], created)
  | (idx, vol) :: rest =>
      if cancel_is_set world clock then ([Log MsgCancelled], created)
      else
        let vnum := start_v + Z.of_nat idx in
        let vol_tmp := path_join temp_dir ("vol_" ++ fmt_d 2 vnum)%string in
        let '(_, clock1, evs) :=
          export_chapters self vol vol_tmp 1 (S clock) in
        let pre := ([Rmtree vol_tmp; Mkdir vol_tmp] ++ evs)%list in
        if cancel_is_set world clock1
        then ((pre ++ [Log MsgCancelledAfterExport])%list, created)
        else
          let out_name := (series ++ " - v" ++ fmt_d 2 vnum)%string in
          let ok := packager_ok world vol_tmp in
          let '(evs', created') :=
            export_volumes self series temp_dir start_v rest (S clock1)
                           (if ok then created + 1 else created) in
          ((pre ++ [RunPackager vol_tmp out_name series vnum]
                ++ (if ok then [] else [Log (MsgVolumeFailed vnum)])
                ++ evs')%list,
           created')
  end.

Definition _process_plan_worker (self : App) : list event :=
  match selected_folder self with
  | None => [Log MsgSelectFolder]
  | Some folder =>
      let plan := build_plan self in
      match plan with
      | [] => [Log MsgNoChapters]
      | _ :: _ =>
          let temp_dir := path_join (base_path self) "temp" in
          let ebooks_dir := path_join (base_path self) "ebooks" in
          let series :=
            match strip (series_title self) with
            | EmptyString => path_name folder
            | s => s
            end in
          let total_vols := Z.of_nat (List.length plan) in
          let start_v := Z.max 1 (start_volume self) in
          let '(evs, created) :=
            export_volumes self series temp_dir start_v (enumerate plan)
                           0%nat 0 in
          ((if clean_temp_before self then [Rmtree temp_dir] else [])
           ++ [Mkdir temp_dir]
           ++ (if clean_ebooks_before self then [Rmtree ebooks_dir] else [])
           ++ [Mkdir ebooks_dir]
           ++ [Log (MsgStart total_vols series)]
           ++ evs
           ++ [Log (MsgDone created)])%list
      end
  end.

End ExportRun.

(** ** Vocabulary of the statements *)

(** The stages of the enhancement pipeline, as the design lists them. *)
Inductive Stage :=
| GrayscaleExpand
| Autocontrast
| BasicSmoothing
| LegacyBinarize
| Equalize (clip : Q) (tile : Z)
| Sharpen (radius amount : Q)
| Denoise (strength : Z)
| LocalBinarize
| Trim
| ContrastScale (f : Q)
| SharpnessScale (f : Q)
| Dither.

(** The preset branches, keyed by the prefix that selects them. *)
Definition preset_table : list (string * list Stage) :=
  [("manga limpio"%string, [Equalize 2 8; Sharpen 1 (6 # 10)]);
   ("manga antiguo"%string, [Equalize (26 # 10) 8; Sharpen 1 (5 # 10)]);
   ("escaneo con artefactos"%string, [Denoise 6; Sharpen (12 # 10) (6 # 10)]);
   ("texto pequeño"%string, [LocalBinarize]);
   ("sólo recorte"%string, [])].

(** Case-insensitive prefix match on the identifier, surrounding blanks
    stripped. *)
Definition matches_preset (preset prefix : string) : bool :=
  startswith (lower (strip preset)) prefix.

(** The identifiers the preset selector offers. *)
Definition preset_identifiers : list string :=
  ["Manga limpio (rápido)"; "Manga antiguo / bajo contraste";
   "Escaneo con artefactos JPEG"; "Texto pequeño B/N (letra clara)";
   "Sólo recorte y márgenes"]%string.

Definition preset_branch (preset : string) : list Stage :=
  match find (fun e => matches_preset preset (fst e)) preset_table with
  | Some e => snd e
  | None => []
  end.

Definition prepass (self : App) : list Stage :=
  ((if to_grayscale self then [GrayscaleExpand] else [])
   ++ (if auto_contrast self then [Autocontrast] else [])
   ++ (if noise_reduction self then [BasicSmoothing] else [])
   ++ (if adaptive_threshold self then [LegacyBinarize] else []))%list.

Definition pipeline_stages (self : App) (preset : string) : list Stage :=
  (prepass self
   ++ preset_branch preset
   ++ [Trim; ContrastScale (contrast_boost self);
       SharpnessScale (sharpness_boost self)]
   ++ (if eink_dither self then [Dither] else []))%list.

Section Stages.
Context `{ImagingLib}.

(** A transform of the OpenCV array, seen from the PIL image. *)
Definition on_cv (f : image -> option image) (img : image) : option image :=
  m <- f (_to_cv img) ;; Some (_from_cv m).

Definition run_stage (self : App) (s : Stage) (img : image) : option image :=
  match s with
  | GrayscaleExpand =>
      g <- ImageOps_grayscale img ;; Some (cvtColor_GRAY2BGR g)
  | Autocontrast => ImageOps_autocontrast img
  | BasicSmoothing =>
      Some (try_or (on_cv (fun m => cv2_bilateralFilter m 9 75 75) img) img)
  | LegacyBinarize =>
      Some (try_or (thr <- cv2_adaptiveThreshold
                             (cvtColor_BGR2GRAY (_to_cv img)) 35 10 ;;
                    Some (cvtColor_GRAY2BGR thr)) img)
  | Equalize clip tile => on_cv (fun m => _clahe_gray m clip tile) img
  | Sharpen radius amount => on_cv (fun m => _unsharp_mask m radius amount) img
  | Denoise strength => on_cv (fun m => _nl_means m strength) img
  | LocalBinarize => on_cv (_sauvola_like self) img
  | Trim => on_cv (fun m => Some (_auto_trim_and_pad m 16)) img
  | ContrastScale f => Contrast_enhance img f
  | SharpnessScale f => Sharpness_enhance img f
  | Dither => _apply_eink_dither img
  end.

Fixpoint run_stages (self : App) (l : list Stage) (img : image)
  : option image :=
  match l with
  | [] => Some img
  | s :: rest => img' <- run_stage self s img ;; run_stages self rest img'
  end.

End Stages.



(** Sequence numbers [s, s+1, ...] given to the pages of a volume. *)
Fixpoint numbered (s : Z) (l : list Path) : list (Z * Path) :=
  match l with
  | [] => []
  | p :: rest => (s, p) :: numbered (s + 1) rest
  end.

(** All the pages of a volume, chapter after chapter. *)
Definition volume_images (vol : list Chapter) : list Path :=
  flat_map images vol.

(** The files an event list writes. *)
Fixpoint saved_paths (evs : list event) : list Path :=
  match evs with
  | [] => []
  | SaveJpeg out _ _ :: rest => out :: saved_paths rest
  | _ :: rest => saved_paths rest
  end.

(** Reading a zero-padded decimal file stem back. *)
Definition decode_nat (s : string) : option nat :=
  option_map Nat.of_uint (NilEmpty.uint_of_string s).

(** The file a page with sequence number [n] is written to. *)
Definition page_file (vol_tmp : Path) (n : Z) : Path :=
  path_join vol_tmp (fmt_d 5 n ++ ".jpg")%string.

(** The pixels the trim stage counts as content: at most the threshold. *)
Definition content (t : Z) (px : pixel) : bool := gray_of_bgr px <=? t.

(** The Otsu threshold of a colour image. *)
Definition otsu_of (img : image) : Z :=
  getThreshVal_Otsu (cvtColor_BGR2GRAY img).

(** The bounding rectangle the trim stage finds in an image. *)
Definition trim_rect (img : image) : option (nat * nat * nat * nat) :=
  contours_boundingRect (threshold_inv_otsu (cvtColor_BGR2GRAY img)).

(** A block of rows of width [w] with a white margin of [p] pixels around. *)
Definition pad_white (p w : nat) (c : image) : image :=
  (repeat (repeat white (w + 2 * p)) p
   ++ map (fun row => repeat white p ++ row ++ repeat white p) c
   ++ repeat (repeat white (w + 2 * p)) p)%list.

(** A gray pixel of level [v]. *)
Definition gray_px (v : Z) : pixel := (v, v, v).

(** A row of width [W]: white, with level [va] on columns [x .. x+w-1], and
    level [vb] on the [bw] columns from [bx] inside it. *)
Definition shaded_row (W x w bx bw : nat) (va vb : Z) : list pixel :=
  (repeat white x ++ repeat (gray_px va) (bx - x) ++ repeat (gray_px vb) bw
   ++ repeat (gray_px va) (x + w - bx - bw) ++ repeat white (W - x - w))%list.

(** A white page of 100 by 100 pixels with a light panel (level 240) of 36
    by 36 pixels at column 30, row 40, and a black mark of 2 by 2 pixels
    inside the panel at column 45, row 55. *)
Definition shaded_page : image :=
  (repeat (repeat white 100) 40
   ++ repeat (shaded_row 100 30 36 45 0 240 0) 15
   ++ repeat (shaded_row 100 30 36 45 2 240 0) 2
   ++ repeat (shaded_row 100 30 36 45 0 240 0) 19
   ++ repeat (repeat white 100) 24)%list.

(** A black mark of 2 by 1 pixels on a white page of 5 by 4 pixels. *)
Definition marked_page : image :=
  [repeat white 5; [white; white; (0, 0, 0); (0, 0, 0); white];
   repeat white 5; repeat white 5].

(** The events of one attempt at a page with its sequence number: the file
    written, or the error logged. *)
Definition attempt `{ImagingLib} (world : World) (self : App) (vol_tmp : Path)
  (np : Z * Path) : list event :=
  snd (process_single_image_seq world self (snd np) vol_tmp (fst np)).

(** Events that touch the file system. *)
Definition is_fs_effect (e : event) : bool :=
  match e with
  | Log _ => false
  | _ => true
  end.

(** The chapter a subdirectory gives rise to. *)
Definition chapter_of (profile : SourceProfile) (sub : Entry) : Chapter :=
  match iterdir sub with
  | inr es =>
      new_Chapter (path_name (fst sub)) (fst sub) (image_files profile es)
  | inl _ => new_Chapter (path_name (fst sub)) (fst sub) []
  end.

Definition has_images (profile : SourceProfile) (sub : Entry) : bool :=
  match images (chapter_of profile sub) with
  | [] => false
  | _ :: _ => true
  end.

Definition listable (e : Entry) : bool :=
  match iterdir e with
  | inr _ => true
  | inl _ => false
  end.

(** The entries in front of the first one that cannot be listed. *)
Fixpoint listable_prefix (l : list Entry) : list Entry :=
  match l with
  | [] => []
  | e :: rest => if listable e then e :: listable_prefix rest else []
  end.

(** The error of the first entry that cannot be listed. *)
Fixpoint first_error (l : list Entry) : option exn :=
  match l with
  | [] => None
  | e :: rest =>
      match iterdir e with
      | inl x => Some x
      | inr _ => first_error rest
      end
  end.

(** The application as [__init__] leaves it. *)
Definition initial_app : App :=
  mkApp 1200 84 (115 # 100) (12 # 10) true true false false
        "Manga limpio (rápido)" false true 10 "INMANGA" true true 1
        "" false ["."%string] [] None.



(** A source folder with a chapter of two pages, an empty chapter directory,
    a stray file and a chapter of one page. *)
Definition small_root : Node :=
  Dir true [("Chapter 10"%string,
               Dir true [("002.JPG"%string, File); ("001.jpg"%string, File);
                         ("notes.txt"%string, File);
                         ("extra.png"%string, Dir true [])]);
            ("Chapter 3"%string, Dir true [("readme.md"%string, File)]);
            ("cover.jpg"%string, File);
            ("Chapter 2"%string, Dir true [("001.webp"%string, File)])].

(** An application with the given target width, group size, start volume,
    source folder and chapters, and the initial settings otherwise. *)
Definition app_with (tw g s : Z) (folder : option Path) (chs : list Chapter)
  : App :=
  mkApp tw 84 (115 # 100) (12 # 10) true true false false
        "Manga limpio (rápido)" false true g "INMANGA" true true s
        "" false ["."%string] chs folder.

(** Five chapters of one page each, the third one disabled. *)
Definition five_chapters : list Chapter :=
  map (fun '(n, en) =>
         mkChapter n ["manga"%string; n] [["manga"%string; n; "001.jpg"%string]] en)
      [("Chapter 1", true); ("Chapter 2", true); ("Chapter 3", false);
       ("Chapter 4", true); ("Chapter 5", true)]%string.

(** A stand-in for the imaging libraries, for evaluating the program on
    small inputs: nearest-neighbour resizing, luma conversion, and the
    identity for the filters. *)
Definition resample (img : image) (w h : nat) : image :=
  map (fun y =>
         map (fun x =>
                nth (x * List.length (hd [] img) / w)
                    (nth (y * List.length img / h) img []) white)
             (seq 0 w))
      (seq 0 h).

Definition toy_resize (img : image) (size : Z * Z) : option image :=
  let '(w, h) := size in
  if (1 <=? w) && (1 <=? h)
  then Some (resample img (Z.to_nat w) (Z.to_nat h))
  else None.

Definition toy_lib : ImagingLib.
Proof.
  refine {| Image_resize := toy_resize;
            ImageOps_grayscale := fun img => Some (cvtColor_BGR2GRAY (_to_cv img));
            ImageOps_autocontrast := fun img => Some img;
            Contrast_enhance := fun img _ => Some img;
            Sharpness_enhance := fun img _ => Some img;
            convert_P_RGB := fun img => Some img;
            cv2_bilateralFilter := fun m _ _ _ => Some m;
            cv2_adaptiveThreshold := fun g _ _ => Some g;
            cv2_CLAHE_apply := fun _ _ g => Some g;
            cv2_GaussianBlur := fun m _ => Some m;
            cv2_addWeighted := fun a _ _ _ => Some a;
            cv2_fastNlMeansDenoisingColored := fun m _ => Some m;
            cv2_niBlackThreshold := fun g _ _ => Some g |}.
  intros img w h img' E. unfold toy_resize in E.
  destruct ((1 <=? w) && (1 <=? h)) eqn:B; [|discriminate].
  apply andb_true_iff in B. destruct B as [Bw Bh].
  apply Z.leb_le in Bw, Bh. injection E as <-.
  unfold img_width, img_height, resample.
  destruct (Z.to_nat h) as [|h'] eqn:Eh; [lia|].
  rewrite length_map, length_seq. simpl.
  rewrite length_map, length_seq. lia.
Defined.

(** A page of four by two pixels: a dark pixel on a white ground. *)
Definition tiny_page : image :=
  [[white; white; white; white]; [white; (0, 0, 0); white; white]].

(** Three page files of one chapter; the second one cannot be decoded. *)
Definition three_pages : list Path :=
  [["manga"; "Chapter 1"; "001.jpg"]; ["manga"; "Chapter 1"; "002.jpg"];
   ["manga"; "Chapter 1"; "003.jpg"]]%string.

Definition damaged_world : World :=
  mkWorld (fun p => if (path_name p =? "002.jpg")%string then None
                    else Some tiny_page)
          (fun _ => true) None (fun _ => true).


(** [ceil(n / g)] for [g >= 1]. *)
Definition ceil_div (n g : Z) : Z := (n + g - 1) / g.




(** The integers [s, s+1, ..., s+len-1]. *)
Definition Z_range (s : Z) (len : nat) : list Z :=
  map (fun k => s + Z.of_nat k) (seq 0 len).

(** ** Editing the chapter list *)

(** [l[i] = x] for an index in range; the program only assigns where it has
    just read, so no assignment is out of range. *)
Fixpoint list_set {A} (l : list A) (i : nat) (x : A) : list A :=
  match l, i with
  | [], _ => []
  | _ :: l', O => x :: l'
  | y :: l', S i' => y :: list_set l' i' x
  end.

(** [move_chapter], given the tuple [curselection()] of the list box;
    returns [self] and the selection afterwards, [None] is [IndexError]. *)
Definition move_chapter (self : App) (idxs : list nat) (delta : Z)
  : option (App * list nat) :=
  match idxs with
  | [] => Some (self, idxs)
  | i :: _ =>
      let j := Z.of_nat i + delta in
      if (0 <=? j) && (j <? Z.of_nat (List.length (chapters self))) then
        cj <- nth_error (chapters self) (Z.to_nat j) ;;
        ci <- nth_error (chapters self) i ;;
        Some (set_chapters self
                (list_set (list_set (chapters self) i cj) (Z.to_nat j) ci),
              [Z.to_nat j])
      else Some (self, idxs)
  end.

(** [ch.enabled = b] *)
Definition set_enabled (c : Chapter) (b : bool) : Chapter :=
  mkChapter (name c) (dir c) (images c) b.

Definition toggle_chapter (self : App) (idxs : list nat)
  : option (App * list nat) :=
  match idxs with
  | [] => Some (self, idxs)
  | i :: _ =>
      ci <- nth_error (chapters self) i ;;
      Some (set_chapters self
              (list_set (chapters self) i (set_enabled ci (negb (enabled ci)))),
            [i])
  end.

(** ** Choosing the source folder *)



(** [rescan_if_ready], the command of the subfolder check box. *)
Definition rescan_if_ready (self : App) (root : Node) : App * option exn :=
  match selected_folder self with
  | Some _ => scan_images self root
  | None => (self, None)
  end.



(** A chapter as a scan leaves it: included, with at least one page. *)
Definition fresh_chapter (c : Chapter) : Prop :=
  enabled c = true /\ images c <> [].

(** The initial application with subfolder mode switched off and the folder
    [manga] chosen. *)
Definition flat_app : App :=
  mkApp 1200 84 (115 # 100) (12 # 10) true true false false
        "Manga limpio (rápido)" false false 10 "INMANGA" true true 1
        "" false ["."%string] [] (Some ["manga"%string]).

(** Two pages, a subdirectory with a page of its own, and a text file. *)
Definition flat_entries : list (string * Node) :=
  [("002.JPG"%string, File);
   ("sub"%string, Dir true [("9.jpg"%string, File)]);
   ("001.jpg"%string, File); ("notes.txt"%string, File)].

(** ** Vocabulary of the run *)

(** The staging folder of volume [vnum]. *)
Definition vol_dir (temp_dir : Path) (vnum : Z) : Path :=
  path_join temp_dir ("vol_" ++ fmt_d 2 vnum)%string.

(** The name volume [vnum] of a series is packaged under. *)
Definition vol_name (series : string) (vnum : Z) : string :=
  (series ++ " - v" ++ fmt_d 2 vnum)%string.

(** The series name of a run: the title, or the folder's name for a blank
    title. *)
Definition series_of (self : App) (folder : Path) : string :=
  match strip (series_title self) with
  | EmptyString => path_name folder
  | s => s
  end.

(** The directories a run prepares before the first volume. *)
Definition run_setup (self : App) : list event :=
  let temp_dir := path_join (base_path self) "temp" in
  let ebooks_dir := path_join (base_path self) "ebooks" in
  ((if clean_temp_before self then [Rmtree temp_dir] else [])
   ++ [Mkdir temp_dir]
   ++ (if clean_ebooks_before self then [Rmtree ebooks_dir] else [])
   ++ [Mkdir ebooks_dir])%list.

(** The events of a volume that is exported and packaged without
    interruption. *)
Definition volume_events `{ImagingLib} (world : World) (self : App)
  (series : string) (temp_dir : Path) (start_v : Z) (iv : nat * list Chapter)
  : list event :=
  let vnum := start_v + Z.of_nat (fst iv) in
  let vol_tmp := vol_dir temp_dir vnum in
  ([Rmtree vol_tmp; Mkdir vol_tmp]
   ++ flat_map (attempt world self vol_tmp)
               (numbered 1 (volume_images (snd iv)))
   ++ [RunPackager vol_tmp (vol_name series vnum) series vnum]
   ++ (if packager_ok world vol_tmp then []
       else [Log (MsgVolumeFailed vnum)]))%list.

(** The number of volumes the packager succeeds on. *)
Definition packaged (world : World) (temp_dir : Path) (start_v : Z)
  (vols : list (nat * list Chapter)) : Z :=
  Z.of_nat
    (List.length
       (filter (fun iv =>
                  packager_ok world (vol_dir temp_dir (start_v + Z.of_nat (fst iv))))
               vols)).

(** Pages attempted and volumes handed to the packager. *)
Definition is_work (e : event) : bool :=
  match e with
  | SaveJpeg _ _ _ => true
  | Log (MsgImageError _) => true
  | RunPackager _ _ _ _ => true
  | _ => false
  end.

Definition work_done (evs : list event) : nat :=
  List.length (filter is_work evs).

(** The calls of the packager in an event list. *)
Fixpoint packager_runs (evs : list event) : list (Path * string * string * Z) :=
  match evs with
  | [] => []
  | RunPackager f o s v :: rest => (f, o, s, v) :: packager_runs rest
  | _ :: rest => packager_runs rest
  end.

(** The call of the packager for a volume of the plan. *)
Definition packager_call (series : string) (temp_dir : Path) (start_v : Z)
  (iv : nat * list Chapter) : Path * string * string * Z :=
  let vnum := start_v + Z.of_nat (fst iv) in
  (vol_dir temp_dir vnum, vol_name series vnum, series, vnum).

(** Where an event of a run of [self] may touch the file system, for volume
    numbers from [lo] up to [hi], excluded. *)
Definition confined (self : App) (lo hi : Z) (e : event) : Prop :=
  let temp_dir := path_join (base_path self) "temp" in
  let ebooks_dir := path_join (base_path self) "ebooks" in
  match e with
  | Log _ => True
  | Rmtree p | Mkdir p =>
      p = temp_dir \/ p = ebooks_dir \/
      exists vnum, lo <= vnum < hi /\ p = vol_dir temp_dir vnum
  | SaveJpeg out _ q =>
      q = jpg_quality self /\
      exists vnum n, lo <= vnum < hi /\ 1 <= n /\
                     out = page_file (vol_dir temp_dir vnum) n
  | RunPackager f o s v =>
      lo <= v < hi /\ f = vol_dir temp_dir v /\ o = vol_name s v
  end.

(** A world in which the user cancels before the run's third look at the
    flag. *)
Definition cancelling_world : World :=
  mkWorld (fun _ => Some tiny_page) (fun _ => true) (Some 2%nat) (fun _ => true).

(** ** Pages without contrast *)

(** A page whose pixels all have gray level [v]. *)
Definition flat_page (v : Z) (img : image) : Prop :=
  Forall (Forall (fun px => gray_of_bgr px = v)) img.

(** A page of [h] rows of [w] pixels of one colour. *)
Definition uniform_page (h w : nat) (px : pixel) : image :=
  repeat (repeat px w) h.

(** ** Numbered names *)

(** Every character of a string satisfies [p]. *)
Fixpoint all_chars (p : ascii -> bool) (s : string) : bool :=
  match s with
  | EmptyString => true
  | String c rest => p c && all_chars p rest
  end.

(** [s] spells the literal [lit], up to the case of ASCII letters. *)
Fixpoint ci_eq (lit s : string) : bool :=
  match lit, s with
  | EmptyString, EmptyString => true
  | String c lit', String x s' => ci c x && ci_eq lit' s'
  | _, _ => false
  end.

(** The extensions the image patterns accept. *)
Definition image_exts : list string := ["jpg"; "jpeg"; "png"; "webp"]%string.

(** A file or directory name ending in the decimal number [n], written with
    [k] extra leading zeros. *)
Definition padded (k n : nat) : string := (zeros k ++ str_of_nat n)%string.

(** The repetition of [p] cannot go on into [rest]. *)
Definition stops (p : ascii -> bool) (rest : string) : Prop :=
  match rest with
  | EmptyString => True
  | String c _ => p c = false
  end.

(** ** Preview: panning and the magnifier *)

(** The part of [self] the pan handlers read and write; a mouse event is
    its position [(x, y)] on the canvas. *)
Record Preview := mkPreview {
  zoom : Q;
  fit_mode : string;
  _offset : Z * Z;
  _pan_start : option (Z * Z)
}.

Definition _fit_view (self : Preview) : Preview :=
  mkPreview 1 "Encajar (sin cortes)" (0, 0) (_pan_start self).

Definition _pan_start_evt (self : Preview) (event : Z * Z) : Preview :=
  if negb (fit_mode self =? "Zoom manual")%string then self
  else mkPreview (zoom self) (fit_mode self) (_offset self) (Some event).

Definition _pan_drag_evt (self : Preview) (event : Z * Z) : Preview :=
  if negb (fit_mode self =? "Zoom manual")%string then self
  else
    match _pan_start self with
    | None => self
    | Some start =>
        let dx := fst event - fst start in
        let dy := snd event - snd start in
        mkPreview (zoom self) (fit_mode self)
                  (fst (_offset self) + dx, snd (_offset self) + dy)
                  (Some event)
    end.

(** The crop box [(x1, y1, x2, y2)] of [_on_mouse_move] for an image of
    [iw] by [ih] pixels, the pixel [(cx, cy)] under the cursor and the side
    [q = int(L / (s * Z))] asked for. *)
Definition magnifier_box (iw ih cx cy q : Z) : Z * Z * Z * Z :=
  let crop_w := Z.max 8 q in
  let crop_h := crop_w in
  let x1 := Z.max 0 (cx - crop_w / 2) in
  let y1 := Z.max 0 (cy - crop_h / 2) in
  let x2 := Z.min iw (x1 + crop_w) in
  let y2 := Z.min ih (y1 + crop_h) in
  let x1 := if x2 - x1 <? crop_w then Z.max 0 (x2 - crop_w) else x1 in
  let y1 := if y2 - y1 <? crop_h then Z.max 0 (y2 - crop_h) else y1 in
  (x1, y1, x2, y2).

(** A press at [p0] followed by drags through the given positions. *)
Definition pan_gesture (self : Preview) (p0 : Z * Z) (drags : list (Z * Z))
  : Preview :=
  fold_left _pan_drag_evt drags (_pan_start_evt self p0).

(** The preview in manual zoom, moved by [(5, -3)]. *)
Definition manual_preview : Preview :=
  mkPreview (3 # 2) "Zoom manual" (5, -3) None.

(** ** Settings of the pre-pass *)

(** [self.noise_reduction.set(b)] and [self.adaptive_threshold.set(b)] *)
Definition set_noise_reduction (self : App) (b : bool) : App :=
  mkApp (target_width self) (jpg_quality self) (contrast_boost self)
        (sharpness_boost self) b (auto_contrast self)
        (to_grayscale self) (adaptive_threshold self) (preset_name self)
        (eink_dither self) (process_subfolders self) (group_size self)
        (profile_key self) (clean_ebooks_before self) (clean_temp_before self)
        (start_volume self) (series_title self) (has_ximgproc self)
        (base_path self) (chapters self) (selected_folder self).

Definition set_adaptive_threshold (self : App) (b : bool) : App :=
  mkApp (target_width self) (jpg_quality self) (contrast_boost self)
        (sharpness_boost self) (noise_reduction self) (auto_contrast self)
        (to_grayscale self) b (preset_name self)
        (eink_dither self) (process_subfolders self) (group_size self)
        (profile_key self) (clean_ebooks_before self) (clean_temp_before self)
        (start_volume self) (series_title self) (has_ximgproc self)
        (base_path self) (chapters self) (selected_folder self).

(** The stand-in library with an OpenCV whose bilateral filter and adaptive
    threshold raise. *)
Definition no_filter_lib : ImagingLib :=
  {| Image_resize := @Image_resize toy_lib;
     Image_resize_size := @Image_resize_size toy_lib;
     ImageOps_grayscale := @ImageOps_grayscale toy_lib;
     ImageOps_autocontrast := @ImageOps_autocontrast toy_lib;
     Contrast_enhance := @Contrast_enhance toy_lib;
     Sharpness_enhance := @Sharpness_enhance toy_lib;
     convert_P_RGB := @convert_P_RGB toy_lib;
     cv2_bilateralFilter := fun _ _ _ _ => None;
     cv2_adaptiveThreshold := fun _ _ _ => None;
     cv2_CLAHE_apply := @cv2_CLAHE_apply toy_lib;
     cv2_GaussianBlur := @cv2_GaussianBlur toy_lib;
     cv2_addWeighted := @cv2_addWeighted toy_lib;
     cv2_fastNlMeansDenoisingColored := @cv2_fastNlMeansDenoisingColored toy_lib;
     cv2_niBlackThreshold := @cv2_niBlackThreshold toy_lib |}.

(* ================================================================== *)
(** * Part II: properties *)
(* ================================================================== *)

(** ** Volume planner *)

Lemma range_from_spec (fuel i stop step : nat) :
  (1 <= step)%nat -> (stop - i <= fuel)%nat ->
  range_from fuel i stop step =
  map (fun k => (i + k * step)%nat) (seq 0 ((stop - i + step - 1) / step)).
Proof.
  intros Hs. revert i.
  induction fuel as [|fuel IH]; intros i Hf; simpl.
  - replace (stop - i)%nat with 0%nat by lia. simpl.
    rewrite Nat.div_small by lia. reflexivity.
  - destruct (Nat.ltb_spec i stop) as [Hlt|Hge].
    + rewrite IH by lia.
      assert (E : ((stop - i + step - 1) / step =
                   S ((stop - (i + step) + step - 1) / step))%nat).
      { destruct (Nat.le_gt_cases step (stop - i)) as [Hle|Hgt].
        - replace (stop - i + step - 1)%nat
            with ((stop - (i + step) + step - 1) + 1 * step)%nat by lia.
          rewrite Nat.div_add by lia. lia.
        - replace (stop - (i + step))%nat with 0%nat by lia. simpl.
          rewrite (Nat.div_small (step - 1)) by lia.
          symmetry. apply Nat.div_unique with (r := (stop - i - 1)%nat); lia. }
      rewrite E. simpl. rewrite Nat.add_0_r. f_equal.
      rewrite <- seq_shift, map_map. apply map_ext. intros k. simpl. lia.
    + replace (stop - i)%nat with 0%nat by lia. simpl.
      rewrite Nat.div_small by lia. reflexivity.
Qed.

Lemma chunks_concat {A} (l : list A) (g m : nat) :
  concat (map (fun k => firstn g (skipn (k * g) l)) (seq 0 m)) =
  firstn (m * g) l.
Proof.
  induction m as [|m IH].
  - reflexivity.
  - rewrite seq_S, map_app, concat_app, IH. simpl.
    rewrite app_nil_r.
    rewrite <- (firstn_skipn (m * g) (firstn (g + m * g) l)).
    rewrite firstn_firstn, Nat.min_l by lia.
    f_equal. rewrite skipn_firstn_comm. f_equal. lia.
Qed.

Lemma build_plan_chunks (self : App) :
  let en := filter enabled (chapters self) in
  let g := Z.to_nat (Z.max 1 (group_size self)) in
  build_plan self =
  map (fun k => firstn g (skipn (k * g) en))
      (seq 0 ((List.length en + g - 1) / g)).
Proof.
  intros en g. unfold build_plan, py_range. fold en. fold g.
  assert (Hg : (1 <= g)%nat) by (unfold g; lia).
  rewrite range_from_spec by lia.
  rewrite Nat.sub_0_r, map_map. apply map_ext. intros k.
  unfold slice. simpl. f_equal. lia.
Qed.

Lemma ceil_div_nat (n g : nat) :
  (1 <= g)%nat ->
  Z.of_nat ((n + g - 1) / g) = ceil_div (Z.of_nat n) (Z.of_nat g).
Proof.
  intros Hg. unfold ceil_div. rewrite Nat2Z.inj_div. f_equal. lia.
Qed.

Lemma ceil_div_cover (n g : nat) :
  (1 <= g)%nat -> (n <= (n + g - 1) / g * g)%nat.
Proof.
  intros Hg.
  pose proof (Nat.div_mod_eq (n + g - 1) g) as E.
  pose proof (Nat.mod_upper_bound (n + g - 1) g) as B. nia.
Qed.

Lemma ceil_div_tight (n g k : nat) :
  (1 <= g)%nat -> (k < (n + g - 1) / g)%nat -> (k * g < n)%nat.
Proof.
  intros Hg Hk.
  pose proof (Nat.div_mod_eq (n + g - 1) g) as E.
  pose proof (Nat.mod_upper_bound (n + g - 1) g) as B. nia.
Qed.

Lemma py_sum_from (l : list Z) (a : Z) :
  fold_left Z.add l a = a + py_sum l.
Proof.
  unfold py_sum. revert a. induction l as [|x l IH]; intros a; simpl.
  - lia.
  - rewrite IH, (IH x). lia.
Qed.

Lemma py_sum_nil_pages (l : list Chapter) :
  l = [] -> py_sum (map pages l) = 0.
Proof. intros ->. reflexivity. Qed.

Lemma enumerate_map_snd {A} (l : list A) : map snd (enumerate l) = l.
Proof.
  unfold enumerate. generalize 0%nat.
  induction l as [|x l IH]; intros s; simpl; [reflexivity|].
  now rewrite IH.
Qed.

Lemma enumerate_map_fst {A} (l : list A) :
  map fst (enumerate l) = seq 0 (List.length l).
Proof.
  unfold enumerate. generalize 0%nat.
  induction l as [|x l IH]; intros s; simpl; [reflexivity|].
  now rewrite IH.
Qed.

Lemma nth_map_seq {A} (f : nat -> A) (m k : nat) (d : A) :
  (k < m)%nat -> nth k (map f (seq 0 m)) d = f k.
Proof.
  intros Hk.
  rewrite (nth_indep _ d (f 0%nat)) by (rewrite length_map, length_seq; exact Hk).
  rewrite (map_nth f), seq_nth by exact Hk. reflexivity.
Qed.

(** C1. For group size [G >= 1] and start volume [S >= 1], with [N] enabled
    chapters (in their relative order), [build_plan] yields [ceil(N/G)]
    volumes; volume [k] is the [k]-th run of [G] consecutive enabled
    chapters, every volume but the last has exactly [G] chapters and none is
    empty; concatenating the volumes gives back the enabled chapters, so each
    one lies in exactly one volume; the plan view numbers the volumes
    [S, S+1, ..., S+ceil(N/G)-1] in partition order; and with [N = 0] the
    plan is empty, with zero volumes and zero pages. *)
Theorem build_plan_partition (self : App) :
  1 <= group_size self -> 1 <= start_volume self ->
  let G := group_size self in
  let S0 := start_volume self in
  let en := filter enabled (chapters self) in
  let N := Z.of_nat (List.length en) in
  let plan := build_plan self in
  let view := update_plan_view self in
  Z.of_nat (List.length plan) = ceil_div N G /\
  (forall k, (k < List.length plan)%nat ->
     nth k plan [] = firstn (Z.to_nat G) (skipn (k * Z.to_nat G) en)) /\
  (forall k, (k + 1 < List.length plan)%nat ->
     Z.of_nat (List.length (nth k plan [])) = G) /\
  Forall (fun v => 1 <= Z.of_nat (List.length v) <= G) plan /\
  concat plan = en /\
  map vol_chapters (rows view) = plan /\
  map vnum (rows view) = Z_range S0 (Z.to_nat (ceil_div N G)) /\
  total_vols view = ceil_div N G /\
  (N = 0 -> plan = [] /\ rows view = [] /\
            total_vols view = 0 /\ total_pages view = 0).
Proof.
  intros HG HS G S0 en N plan view.
  pose (g := Z.to_nat (Z.max 1 (group_size self))).
  assert (Hg : (1 <= g)%nat) by (unfold g; lia).
  assert (Eg : Z.to_nat G = g) by (unfold g, G; f_equal; lia).
  assert (EG : Z.of_nat g = G) by (unfold g, G; lia).
  pose (m := ((List.length en + g - 1) / g)%nat).
  assert (Eplan : plan = map (fun k => firstn g (skipn (k * g) en)) (seq 0 m))
    by apply build_plan_chunks.
  assert (Elen : List.length plan = m)
    by (rewrite Eplan, length_map, length_seq; reflexivity).
  assert (Em : Z.of_nat m = ceil_div N G)
    by (unfold m, N; rewrite <- EG; apply ceil_div_nat; exact Hg).
  assert (Enth : forall k, (k < m)%nat ->
            nth k plan [] = firstn g (skipn (k * g) en)).
  { intros k Hk. rewrite Eplan.
    apply (nth_map_seq (fun k => firstn g (skipn (k * g) en))). exact Hk. }
  assert (Eview : rows view =
            map (fun '(idx, vol) =>
                   mkPlanRow (Z.max 1 (start_volume self) + Z.of_nat idx)
                             (py_sum (map pages vol)) vol)
                (enumerate plan)) by reflexivity.
  repeat split.
  - rewrite Elen. exact Em.
  - intros k Hk. rewrite Eg. apply Enth. lia.
  - intros k Hk. rewrite Enth by lia.
    rewrite length_firstn, length_skipn.
    assert ((k + 1) * g < List.length en)%nat
      by (apply ceil_div_tight; [exact Hg | fold m; lia]).
    lia.
  - rewrite Eplan. apply Forall_forall. intros v Hv.
    apply in_map_iff in Hv. destruct Hv as (k & <- & Hk).
    apply in_seq in Hk.
    assert (k * g < List.length en)%nat
      by (apply ceil_div_tight; [exact Hg | fold m; lia]).
    rewrite length_firstn, length_skipn. lia.
  - rewrite Eplan, chunks_concat. apply firstn_all2.
    apply ceil_div_cover. exact Hg.
  - rewrite Eview, map_map.
    rewrite <- (enumerate_map_snd plan) at 2.
    apply map_ext. intros [idx vol]. reflexivity.
  - rewrite Eview, map_map. unfold Z_range.
    rewrite <- Em, Nat2Z.id, <- Elen, <- enumerate_map_fst, map_map.
    apply map_ext. intros [idx vol]. simpl. unfold S0. lia.
  - unfold view, update_plan_view. simpl. fold plan. rewrite Elen. exact Em.
  - assert (m = 0%nat) by (unfold ceil_div in Em; rewrite H in Em;
      rewrite Z.div_small in Em by lia; lia).
    rewrite Eplan, H0. reflexivity.
  - assert (m = 0%nat) by (unfold ceil_div in Em; rewrite H in Em;
      rewrite Z.div_small in Em by lia; lia).
    rewrite Eview, Eplan, H0. reflexivity.
  - unfold view, update_plan_view. simpl. fold plan. rewrite Elen, Em, H.
    unfold ceil_div. apply Z.div_small. lia.
  - assert (m = 0%nat) by (unfold ceil_div in Em; rewrite H in Em;
      rewrite Z.div_small in Em by lia; lia).
    unfold view, update_plan_view. simpl. fold plan.
    rewrite Eplan, H0. reflexivity.
Qed.

(** C1 on five chapters, one of them disabled, in groups of three from
    volume 7: two volumes, numbered 7 and 8. *)
Lemma build_plan_partition_witness :
  map vnum (rows (update_plan_view (app_with 1200 3 7 None five_chapters))) =
  Z_range 7
    (Z.to_nat
       (ceil_div
          (Z.of_nat (List.length (filter enabled five_chapters))) 3)) /\
  map vnum (rows (update_plan_view (app_with 1200 3 7 None five_chapters))) =
  [7; 8].
Proof.
  split; [|vm_compute; reflexivity].
  apply (build_plan_partition (app_with 1200 3 7 None five_chapters));
    simpl; lia.
Defined.

(** ** Natural ordering *)








Section SortBy.
Context {A : Type} (f : A -> SortKey).





End SortBy.

Lemma sort_key_with_num (rx : option Pattern) (p : Path)
      (pat : Pattern) (s : string) (n : Z) :
  rx = Some pat -> pat (path_name p) = Some (Some s) -> py_int s = Some n ->
  sort_key_with rx p = KNum n.
Proof.
  intros -> Hm Hi. unfold sort_key_with. rewrite Hm. simpl. rewrite Hi.
  reflexivity.
Qed.





(** ** Source scanner *)

Lemma scan_subdirs_spec (profile : SourceProfile) (subdirs : list Entry) :
  forall acc,
    scan_subdirs profile subdirs acc =
    ((acc ++ map (chapter_of profile)
                 (filter (has_images profile) (listable_prefix subdirs)))%list,
     first_error subdirs).
Proof.
  induction subdirs as [|sub rest IH]; intros acc; simpl.
  - now rewrite app_nil_r.
  - destruct (iterdir sub) as [e|es] eqn:E.
    + assert (Hl : listable sub = false)
        by (unfold listable; rewrite E; reflexivity).
      rewrite Hl. simpl. now rewrite app_nil_r.
    + assert (Hl : listable sub = true)
        by (unfold listable; rewrite E; reflexivity).
      assert (Hc : chapter_of profile sub =
                   new_Chapter (path_name (fst sub)) (fst sub)
                               (image_files profile es))
        by (unfold chapter_of; rewrite E; reflexivity).
      rewrite Hl. simpl.
      destruct (image_files profile es) as [|f fs] eqn:F.
      * assert (Hi : has_images profile sub = false)
          by (unfold has_images; rewrite Hc; reflexivity).
        rewrite Hi. apply IH.
      * assert (Hi : has_images profile sub = true)
          by (unfold has_images; rewrite Hc; reflexivity).
        rewrite Hi. simpl. rewrite IH, Hc, <- app_assoc. reflexivity.
Qed.











(** ** Enhancement pipeline *)

Lemma swap_rb_involutive (p : pixel) : swap_rb (swap_rb p) = p.
Proof. destruct p as [[a b] c]. reflexivity. Qed.

Lemma to_cv_from_cv (m : image) : _to_cv (_from_cv m) = m.
Proof.
  unfold _to_cv, _from_cv. rewrite map_map.
  rewrite <- (map_id m) at 2. apply map_ext. intros row.
  rewrite map_map. rewrite <- (map_id row) at 2. apply map_ext.
  apply swap_rb_involutive.
Qed.

Lemma bind_assoc {A B C} (m : option A) (f : A -> option B) (g : B -> option C) :
  bind (bind m f) g = bind m (fun a => bind (f a) g).
Proof. destruct m; reflexivity. Qed.

Lemma prefix_comparable (a b p : string) :
  prefix a p = true -> prefix b p = true ->
  prefix a b = true \/ prefix b a = true.
Proof.
  revert a b. induction p as [|c p IH]; intros [|x a] [|y b]; simpl; auto.
  - discriminate.
  - destruct (ascii_dec x c) as [->|]; [|discriminate].
    destruct (ascii_dec y c) as [->|]; [|discriminate].
    destruct (ascii_dec c c) as [_|N]; [|now elim N]. apply IH.
Qed.

Section PipelineFacts.
Context `{ImagingLib}.

Lemma run_stages_app (self : App) (l1 l2 : list Stage) (img : image) :
  run_stages self (l1 ++ l2) img =
  bind (run_stages self l1 img) (run_stages self l2).
Proof.
  revert img. induction l1 as [|s l1 IH]; intros img; simpl.
  - reflexivity.
  - rewrite bind_assoc. destruct (run_stage self s img); simpl; [apply IH|reflexivity].
Qed.

Lemma on_cv_then (f : image -> option image) (g : image -> option image)
      (img : image) :
  bind (on_cv f img) (fun i => g (_to_cv i)) = bind (f (_to_cv img)) g.
Proof.
  unfold on_cv. destruct (f (_to_cv img)); simpl; [|reflexivity].
  now rewrite to_cv_from_cv.
Qed.

Ltac step_binds :=
  repeat (rewrite ?to_cv_from_cv;
          match goal with
          | |- context [bind ?m _] =>
              lazymatch m with
              | bind _ _ => fail
              | Some _ => fail
              | _ => destruct m; cbn [bind]
              end
          end);
  rewrite ?to_cv_from_cv; try reflexivity.

Lemma branch_eq (self : App) (img : image) (preset : string) :
  (let img_cv := _to_cv img in
   let p := lower (strip preset) in
   if startswith p "manga limpio" then
     bind (_clahe_gray img_cv 2 8) (fun m => _unsharp_mask m 1 (6 # 10))
   else if startswith p "manga antiguo" then
     bind (_clahe_gray img_cv (26 # 10) 8) (fun m => _unsharp_mask m 1 (5 # 10))
   else if startswith p "escaneo con artefactos" then
     bind (_nl_means img_cv 6) (fun m => _unsharp_mask m (12 # 10) (6 # 10))
   else if startswith p "texto pequeño" then
     _sauvola_like self img_cv
   else if startswith p "sólo recorte" then
     Some img_cv
   else Some img_cv) =
  bind (run_stages self (preset_branch preset) img) (fun i => Some (_to_cv i)).
Proof.
  unfold preset_branch, preset_table, matches_preset. cbn [find fst snd].
  cbv zeta.
  repeat match goal with
         | |- context [if startswith ?a ?b then _ else _] =>
             destruct (startswith a b)
         end;
    cbn [find fst snd run_stages run_stage]; unfold on_cv; step_binds.
Qed.

Lemma run_stages_opt (self : App) (b : bool) (s : Stage) (img : image) :
  run_stages self (if b then [s] else []) img =
  if b then run_stage self s img else Some img.
Proof.
  destruct b; simpl; [destruct (run_stage self s img)|]; reflexivity.
Qed.

Lemma prepass_eq (self : App) (img : image) :
  bind (if to_grayscale self
        then bind (ImageOps_grayscale img) (fun g => Some (cvtColor_GRAY2BGR g))
        else Some img)
    (fun img =>
  bind (if auto_contrast self then ImageOps_autocontrast img else Some img)
    (fun img =>
  let img :=
    if noise_reduction self
    then try_or (bind (cv2_bilateralFilter (_to_cv img) 9 75 75)
                      (fun cv_tmp => Some (_from_cv cv_tmp))) img
    else img in
  let img :=
    if adaptive_threshold self
    then try_or (bind (cv2_adaptiveThreshold
                         (cvtColor_BGR2GRAY (_to_cv img)) 35 10)
                      (fun thr => Some (cvtColor_GRAY2BGR thr))) img
    else img in
  Some img)) = run_stages self (prepass self) img.
Proof.
  unfold prepass. rewrite run_stages_app, run_stages_opt.
  destruct (to_grayscale self); cbn [run_stage];
    [destruct (ImageOps_grayscale img)|]; cbn [bind]; try reflexivity;
    (rewrite run_stages_app, run_stages_opt;
     destruct (auto_contrast self); cbn [run_stage];
     [destruct (ImageOps_autocontrast _)|]; cbn [bind]; try reflexivity;
     rewrite run_stages_app, !run_stages_opt;
     destruct (noise_reduction self), (adaptive_threshold self); reflexivity).
Qed.

Lemma enhance_image_preset_stages (self : App) (img : image) (preset : string) :
  enhance_image_preset self img preset =
  run_stages self (pipeline_stages self preset) img.
Proof.
  unfold pipeline_stages. rewrite run_stages_app, <- prepass_eq.
  unfold enhance_image_preset. rewrite !bind_assoc.
  destruct (if to_grayscale self then _ else _) as [img1|]; cbn [bind];
    [|reflexivity].
  rewrite ?bind_assoc.
  destruct (if auto_contrast self then _ else _) as [img2|]; cbn [bind];
    [|reflexivity].
  cbv zeta.
  set (img3 := if noise_reduction self then _ else img2).
  set (img4 := if adaptive_threshold self then _ else img3).
  pose proof (branch_eq self img4 preset) as B. cbv zeta in B. rewrite B.
  rewrite run_stages_app.
  destruct (run_stages self (preset_branch preset) img4) as [img5|];
    cbn [bind]; [|reflexivity].
  rewrite run_stages_app.
  cbn [run_stages run_stage app]. unfold on_cv. cbn [bind].
  destruct (Contrast_enhance _ _); cbn [bind]; [|reflexivity].
  destruct (Sharpness_enhance _ _); cbn [bind]; [|reflexivity].
  destruct (eink_dither self); cbn [run_stages run_stage bind]; [|reflexivity].
  destruct (_apply_eink_dither _); reflexivity.
Qed.

End PipelineFacts.

Lemma preset_prefixes_exclusive (preset : string) (e1 e2 : string * list Stage) :
  In e1 preset_table -> In e2 preset_table ->
  matches_preset preset (fst e1) = true ->
  matches_preset preset (fst e2) = true -> e1 = e2.
Proof.
  intros H1 H2 M1 M2. unfold matches_preset, startswith in *.
  destruct (prefix_comparable _ _ _ M1 M2) as [P|P];
    simpl in H1, H2;
    repeat (destruct H1 as [<-|H1]); try contradiction;
    repeat (destruct H2 as [<-|H2]); try contradiction;
    try reflexivity; vm_compute in P; discriminate.
Qed.

Lemma preset_branch_matched (preset : string) (e : string * list Stage) :
  In e preset_table -> matches_preset preset (fst e) = true ->
  preset_branch preset = snd e.
Proof.
  intros Hin Hm. unfold preset_branch.
  destruct (find _ preset_table) as [e'|] eqn:F.
  - apply find_some in F. destruct F as [Hin' Hm'].
    now rewrite (preset_prefixes_exclusive preset e' e Hin' Hin Hm' Hm).
  - apply (find_none _ _ F) in Hin. simpl in Hin. congruence.
Qed.

Lemma preset_branch_unmatched (preset : string) :
  (forall e, In e preset_table -> matches_preset preset (fst e) = false) ->
  preset_branch preset = [].
Proof.
  intros Hno. unfold preset_branch.
  destruct (find _ preset_table) as [e'|] eqn:F; [|reflexivity].
  apply find_some in F. destruct F as [Hin' Hm'].
  rewrite (Hno e' Hin') in Hm'. discriminate.
Qed.

(** C5. The pipeline runs its stages in one fixed order: the enabled
    pre-pass stages (grayscale-then-expand, autocontrast, basic smoothing,
    legacy binarize, in this order), then the stages of the one preset branch
    whose prefix matches the lower-cased identifier (none when no prefix
    matches; no identifier matches two prefixes), then the trim, the contrast
    scaling, the sharpness scaling, and last the dithering if it is switched
    on.  The identifier is stripped of surrounding blanks before it is
    matched; this changes nothing for an identifier without such blanks, as
    are all those the preset selector offers. *)
Theorem enhance_image_preset_stage_order `{ImagingLib} :
  (forall self img preset,
      enhance_image_preset self img preset =
      run_stages self
        (prepass self ++ preset_branch preset
         ++ [Trim; ContrastScale (contrast_boost self);
             SharpnessScale (sharpness_boost self)]
         ++ (if eink_dither self then [Dither] else [])) img) /\
  (forall preset e,
      In e preset_table -> matches_preset preset (fst e) = true ->
      preset_branch preset = snd e) /\
  (forall preset,
      (forall e, In e preset_table -> matches_preset preset (fst e) = false) ->
      preset_branch preset = []) /\
  (forall preset e1 e2,
      In e1 preset_table -> In e2 preset_table ->
      matches_preset preset (fst e1) = true ->
      matches_preset preset (fst e2) = true -> e1 = e2) /\
  preset_branch "MANGA LIMPIO (RÁPIDO)" = [Equalize 2 8; Sharpen 1 (6 # 10)] /\
  preset_branch "Texto pequeño B/N (letra clara)" = [LocalBinarize] /\
  preset_branch "TEXTO PEQUEÑO" = [LocalBinarize] /\
  preset_branch "Sólo recorte y márgenes" = [] /\
  preset_branch "otro preset" = [] /\
  (forall preset prefix,
      strip preset = preset ->
      matches_preset preset prefix = startswith (lower preset) prefix) /\
  Forall (fun s => strip s = s) preset_identifiers /\
  map preset_branch preset_identifiers = map snd preset_table.
Proof.
  split; [|split; [|split; [|split]]].
  - apply enhance_image_preset_stages.
  - apply preset_branch_matched.
  - apply preset_branch_unmatched.
  - apply preset_prefixes_exclusive.
  - repeat split; try (vm_compute; reflexivity).
    + intros preset prefix E. unfold matches_preset. now rewrite E.
    + repeat constructor.
Qed.

(** C5 at the initial preset, with the stand-in library. *)
Lemma enhance_image_preset_stage_order_witness :
  preset_branch "Manga limpio (rápido)" = [Equalize 2 8; Sharpen 1 (6 # 10)].
Proof.
  destruct (@enhance_image_preset_stage_order toy_lib) as (_ & Hm & _).
  apply (Hm "Manga limpio (rápido)"%string
            ("manga limpio"%string, [Equalize 2 8; Sharpen 1 (6 # 10)])).
  - simpl. left. reflexivity.
  - vm_compute. reflexivity.
Defined.



(** ** Page processing *)

(** C10. Before the pipeline runs, a page is resized only if it is wider
    than the target width; it is then resized to the target width and to the
    height [H * T / W] truncated to an integer, which is not larger than the
    original; a page not wider than the target is passed on untouched. *)
Theorem resize_only_when_wider `{ImagingLib} (self : App) (img : image) :
  0 <= target_width self ->
  (img_width img <= target_width self -> resize_to_target self img = Some img) /\
  (target_width self < img_width img ->
   let h := Z.quot (img_height img * target_width self) (img_width img) in
   resize_to_target self img = Image_resize img (target_width self, h) /\
   h * img_width img <= img_height img * target_width self
     < (h + 1) * img_width img /\
   forall img', resize_to_target self img = Some img' ->
     img_width img' = target_width self /\ img_height img' = h /\
     img_width img' < img_width img /\ img_height img' <= img_height img).
Proof.
  intros HT. unfold resize_to_target. split.
  - intros Hle. destruct (Z.gtb_spec (img_width img) (target_width self)); [lia|].
    reflexivity.
  - intros Hlt.
    set (h := Z.quot (img_height img * target_width self) (img_width img)).
    destruct (Z.gtb_spec (img_width img) (target_width self)); [|lia].
    unfold int_truediv.
    destruct (Z.eqb_spec (img_width img) 0) as [E0|N0]; [lia|]. cbn [bind].
    fold h.
    assert (HH : 0 <= img_height img) by (unfold img_height; lia).
    assert (Hq : h = img_height img * target_width self / img_width img)
      by (unfold h; apply Z.quot_div_nonneg; nia).
    assert (Hb : h * img_width img <= img_height img * target_width self
                 < (h + 1) * img_width img).
    { pose proof (Z.div_mod (img_height img * target_width self)
                            (img_width img) N0) as Ed.
      pose proof (Z.mod_pos_bound (img_height img * target_width self)
                                  (img_width img)) as Em.
      rewrite Hq. nia. }
    split; [reflexivity|]. split; [exact Hb|].
    intros img' E. apply Image_resize_size in E. destruct E as [Ew Eh].
    rewrite Ew, Eh. repeat split; try lia. nia.
Qed.

(** C10 on a page of four by two pixels and a target width of two. *)
Lemma resize_only_when_wider_witness :
  @resize_to_target toy_lib (app_with 2 10 1 None []) tiny_page =
  @Image_resize toy_lib tiny_page (2, 1).
Proof.
  apply (@resize_only_when_wider toy_lib (app_with 2 10 1 None []) tiny_page);
    vm_compute; [discriminate | reflexivity].
Defined.

(** ** Sequential export *)

Lemma decode_str_of_nat (n : nat) : decode_nat (str_of_nat n) = Some n.
Proof.
  unfold decode_nat, str_of_nat, NilZero.string_of_uint.
  pose proof (DecimalNat.Unsigned.of_to n) as E.
  destruct (Nat.to_uint n) eqn:D;
    try (rewrite NilEmpty.usu; simpl; now rewrite E).
  simpl in *. now subst.
Qed.

Lemma decode_zeros (k : nat) (s : string) :
  decode_nat (zeros k ++ s) = decode_nat s.
Proof.
  induction k as [|k IH]; simpl; [reflexivity|].
  rewrite <- IH. unfold decode_nat. simpl.
  destruct (NilEmpty.uint_of_string (zeros k ++ s)); reflexivity.
Qed.

Lemma fmt_d_inj (w : nat) (a b : Z) :
  0 <= a -> 0 <= b -> fmt_d w a = fmt_d w b -> a = b.
Proof.
  intros Ha Hb. unfold fmt_d.
  destruct (Z.ltb_spec a 0); [lia|]. destruct (Z.ltb_spec b 0); [lia|].
  unfold zfill. intros E.
  apply (f_equal decode_nat) in E.
  rewrite !decode_zeros, !decode_str_of_nat in E. injection E. lia.
Qed.

Lemma string_length_append (s t : string) :
  String.length (s ++ t) = (String.length s + String.length t)%nat.
Proof. induction s; simpl; congruence. Qed.




Lemma numbered_app (s : Z) (l1 l2 : list Path) :
  numbered s (l1 ++ l2) =
  (numbered s l1 ++ numbered (s + Z.of_nat (List.length l1)) l2)%list.
Proof.
  revert s. induction l1 as [|p l1 IH]; intros s; simpl.
  - now rewrite Z.add_0_r.
  - rewrite IH. do 3 f_equal. lia.
Qed.

Lemma cancel_is_set_mono (w : World) (n m : nat) :
  (n <= m)%nat -> cancel_is_set w n = true -> cancel_is_set w m = true.
Proof.
  unfold cancel_is_set. destruct (cancel_from w) as [c|]; [|discriminate].
  rewrite !Nat.leb_le. lia.
Qed.

Lemma cancel_is_set_never (w : World) (n : nat) :
  cancel_from w = None -> cancel_is_set w n = false.
Proof. unfold cancel_is_set. now intros ->. Qed.

Section ExportFacts.
Context `{ImagingLib} (world : World) (self : App) (vol_tmp : Path).




Lemma export_images_spec (imgs : list Path) :
  forall seq clock,
  exists k clock',
    (k <= List.length imgs)%nat /\ (clock <= clock')%nat /\
    export_images world self imgs vol_tmp seq clock =
      (seq + Z.of_nat k, clock',
       flat_map (attempt world self vol_tmp) (numbered seq (firstn k imgs))) /\
    ((k < List.length imgs)%nat ->
     (1 <= clock')%nat /\ cancel_is_set world (clock' - 1) = true) /\
    (cancel_from world = None -> k = List.length imgs).
Proof.
  induction imgs as [|p imgs IH]; intros seq clock; simpl.
  - exists 0%nat, clock. simpl. rewrite Z.add_0_r.
    split; [lia|]. split; [lia|]. split; [reflexivity|]. split; [lia|reflexivity].
  - destruct (cancel_is_set world clock) eqn:C.
    + exists 0%nat, (S clock). simpl. rewrite Z.add_0_r.
      split; [lia|]. split; [lia|]. split; [reflexivity|]. split.
      * intros _. split; [lia|]. now rewrite Nat.sub_0_r.
      * intros N. rewrite cancel_is_set_never in C by exact N. discriminate.
    + destruct (IH (seq + 1) (S clock)) as (k & clock' & Hk & Hc & E & Hb & Hn).
      exists (S k), clock'. rewrite E.
      split; [simpl; lia|]. split; [lia|]. split; [|split].
      * replace (seq + Z.of_nat (S k)) with (seq + 1 + Z.of_nat k) by lia.
        reflexivity.
      * intros Hlt. apply Hb. simpl in Hlt. lia.
      * intros N. rewrite (Hn N). reflexivity.
Qed.

Lemma export_chapters_spec (vol : list Chapter) :
  forall seq clock,
  exists k clock',
    (k <= List.length (volume_images vol))%nat /\
    export_chapters world self vol vol_tmp seq clock =
      (seq + Z.of_nat k, clock',
       flat_map (attempt world self vol_tmp) (numbered seq (firstn k (volume_images vol)))) /\
    (cancel_from world = None -> k = List.length (volume_images vol)).
Proof.
  induction vol as [|ch vol IH]; intros seq clock.
  - exists 0%nat, clock. simpl. rewrite Z.add_0_r.
    split; [lia|]. split; reflexivity.
  - unfold volume_images. simpl. fold (volume_images vol).
    destruct (export_images_spec (images ch) seq clock)
      as (k1 & clock1 & Hk1 & Hc1 & E1 & Hb1 & Hn1).
    rewrite E1.
    destruct (cancel_is_set world clock1) eqn:C.
    + exists k1, (S clock1). rewrite length_app.
      split; [lia|]. split.
      * now rewrite firstn_app, (proj2 (Nat.sub_0_le _ _) Hk1), firstn_O, app_nil_r.
      * intros N. rewrite cancel_is_set_never in C by exact N. discriminate.
    + assert (Ek1 : k1 = List.length (images ch)).
      { destruct (Nat.eq_dec k1 (List.length (images ch))) as [e|ne]; [exact e|].
        destruct Hb1 as [Hge Hset]; [lia|].
        rewrite (cancel_is_set_mono world (clock1 - 1) clock1) in C;
          [discriminate | lia | exact Hset]. }
      subst k1.
      destruct (IH (seq + Z.of_nat (List.length (images ch))) (S clock1))
        as (k2 & clock2 & Hk2 & E2 & Hn2).
      rewrite E2. exists (List.length (images ch) + k2)%nat, clock2.
      rewrite length_app. split; [lia|]. split.
      * rewrite firstn_app, !(firstn_all2 (images ch)) by lia.
        replace (List.length (images ch) + k2 - List.length (images ch))%nat
          with k2 by lia.
        rewrite numbered_app, flat_map_app.
        f_equal. f_equal. lia.
      * intros N. rewrite (Hn2 N). lia.
Qed.

End ExportFacts.





(** ** Fatal preconditions *)

Lemma build_plan_nil (self : App) :
  build_plan self = [] <-> filter enabled (chapters self) = [].
Proof.
  rewrite build_plan_chunks.
  set (en := filter enabled (chapters self)).
  set (g := Z.to_nat (Z.max 1 (group_size self))).
  assert (Hg : (1 <= g)%nat) by (unfold g; lia).
  split.
  - intros E. apply (f_equal (@List.length _)) in E.
    rewrite length_map, length_seq in E. simpl in E.
    apply Nat.div_small_iff in E; [|lia].
    destruct en; [reflexivity|simpl in E; lia].
  - intros ->. simpl. rewrite Nat.div_small by lia. reflexivity.
Qed.

(** C8. Without a selected source folder, or with no enabled chapter (an
    empty plan), the export run only reports the problem: nothing is removed,
    created or written.  In every other case the run does touch the file
    system, starting with the temporary directory. *)
Theorem worker_fatal_preconditions `{ImagingLib} (world : World) (self : App) :
  (selected_folder self = None ->
   _process_plan_worker world self = [Log MsgSelectFolder]) /\
  (selected_folder self <> None -> filter enabled (chapters self) = [] ->
   _process_plan_worker world self = [Log MsgNoChapters]) /\
  (build_plan self = [] <-> filter enabled (chapters self) = []) /\
  (selected_folder self = None \/ build_plan self = [] ->
   filter is_fs_effect (_process_plan_worker world self) = []) /\
  (selected_folder self <> None -> build_plan self <> [] ->
   In (Mkdir (path_join (base_path self) "temp"))
      (_process_plan_worker world self)).
Proof.
  split; [|split; [|split; [|split]]].
  - intros E. unfold _process_plan_worker. now rewrite E.
  - intros Hf Hc. unfold _process_plan_worker.
    destruct (selected_folder self); [|now elim Hf].
    apply build_plan_nil in Hc. now rewrite Hc.
  - apply build_plan_nil.
  - intros [E|E]; unfold _process_plan_worker.
    + now rewrite E.
    + destruct (selected_folder self); [|reflexivity]. now rewrite E.
  - intros Hf Hp. unfold _process_plan_worker.
    destruct (selected_folder self) as [folder|]; [|now elim Hf].
    destruct (build_plan self) as [|v plan]; [now elim Hp|].
    destruct (export_volumes _ _ _ _ _ _ _ _) as [evs created].
    apply in_or_app. right. left. reflexivity.
Qed.

(** C8 on the initial application, which has no folder selected. *)
Lemma worker_fatal_preconditions_witness :
  @_process_plan_worker toy_lib damaged_world initial_app =
  [Log MsgSelectFolder].
Proof.
  apply (@worker_fatal_preconditions toy_lib damaged_world initial_app).
  reflexivity.
Defined.

(** ** Content-bound trim *)

(** *** Rows of flags *)

Lemma orb_vec_nil_r (a : list bool) : orb_vec a [] = a.
Proof. destruct a; reflexivity. Qed.

Lemma orb_vec_assoc (a b c : list bool) :
  orb_vec (orb_vec a b) c = orb_vec a (orb_vec b c).
Proof.
  revert b c. induction a as [|x a IH]; intros [|y b] [|z c]; simpl;
    try reflexivity.
  now rewrite IH, orb_assoc.
Qed.

Lemma orb_vec_false_l (n : nat) (b : list bool) :
  List.length b = n -> orb_vec (repeat false n) b = b.
Proof.
  revert b. induction n as [|n IH]; intros [|y b] E; simpl in *;
    try discriminate; try reflexivity.
  rewrite IH by lia. reflexivity.
Qed.

Lemma orb_vec_false_r (n : nat) (a : list bool) :
  List.length a = n -> orb_vec a (repeat false n) = a.
Proof.
  revert a. induction n as [|n IH]; intros [|x a] E; simpl in *;
    try discriminate; try reflexivity.
  rewrite IH by lia. now rewrite orb_false_r.
Qed.

Lemma orb_vec_length (a b : list bool) :
  List.length (orb_vec a b) = Nat.max (List.length a) (List.length b).
Proof.
  revert b. induction a as [|x a IH]; intros [|y b]; simpl; try reflexivity.
  now rewrite IH.
Qed.

Lemma orb_vec_skipn (k : nat) (a b : list bool) :
  skipn k (orb_vec a b) = orb_vec (skipn k a) (skipn k b).
Proof.
  revert a b. induction k as [|k IH]; intros [|x a] [|y b]; simpl;
    try reflexivity.
  - now rewrite orb_vec_nil_r.
  - apply IH.
Qed.

Lemma orb_vec_firstn (k : nat) (a b : list bool) :
  firstn k (orb_vec a b) = orb_vec (firstn k a) (firstn k b).
Proof.
  revert a b. induction k as [|k IH]; intros [|x a] [|y b]; simpl;
    try reflexivity.
  now rewrite IH.
Qed.

Lemma orb_vec_app (a1 a2 b1 b2 : list bool) :
  List.length a1 = List.length b1 ->
  orb_vec (a1 ++ a2) (b1 ++ b2) = (orb_vec a1 b1 ++ orb_vec a2 b2)%list.
Proof.
  revert b1. induction a1 as [|x a1 IH]; intros [|y b1] E; simpl in *;
    try discriminate; try reflexivity.
  rewrite IH by lia. reflexivity.
Qed.

Lemma nth_orb_vec (j : nat) (a b : list bool) :
  nth j (orb_vec a b) false = nth j a false || nth j b false.
Proof.
  revert a b. induction j as [|j IH]; intros [|x a] [|y b]; simpl;
    try reflexivity; try (now rewrite orb_false_r).
  apply IH.
Qed.

(** *** Leading flags and spans *)

Lemma lead_repeat_app (n : nat) (v : list bool) :
  lead (repeat false n ++ v) = (n + lead v)%nat.
Proof. induction n as [|n IH]; simpl; [reflexivity|now rewrite IH]. Qed.

Lemma lead_split (v : list bool) :
  v = (repeat false (lead v) ++ skipn (lead v) v)%list.
Proof.
  induction v as [|[|] v IH]; simpl; try reflexivity.
  now rewrite <- IH.
Qed.

Lemma lead_rest (v : list bool) :
  existsb (fun b => b) v = true ->
  exists v', skipn (lead v) v = true :: v'.
Proof.
  induction v as [|[|] v IH]; simpl; intros E.
  - discriminate.
  - now exists v.
  - apply IH, E.
Qed.

Lemma lead_app_true (l m : list bool) :
  existsb (fun b => b) l = true -> lead (l ++ m) = lead l.
Proof.
  induction l as [|[|] l IH]; simpl; intros E.
  - discriminate.
  - reflexivity.
  - now rewrite IH.
Qed.

Lemma existsb_repeat_false (n : nat) :
  existsb (fun b : bool => b) (repeat false n) = false.
Proof. induction n; simpl; auto. Qed.

Lemma last_true_rev (core : list bool) :
  last core false = true -> exists c', rev core = true :: c'.
Proof.
  intros E. destruct core as [|x core] using rev_ind; [discriminate|].
  rewrite last_last in E. subst. rewrite rev_app_distr. simpl. now eexists.
Qed.

Lemma hd_true (core : list bool) :
  hd false core = true -> exists c', core = true :: c'.
Proof. destruct core as [|[|] c]; simpl; try discriminate. now eexists. Qed.

Lemma span_build (a b : nat) (core : list bool) :
  hd false core = true -> last core false = true ->
  span (repeat false a ++ core ++ repeat false b) = Some (a, List.length core).
Proof.
  intros Hh Hl. unfold span.
  destruct (hd_true core Hh) as (c1 & E1).
  destruct (last_true_rev core Hl) as (c2 & E2).
  assert (Ex : existsb (fun b => b) (repeat false a ++ core ++ repeat false b)
               = true).
  { rewrite !existsb_app, E1. simpl. now rewrite orb_true_r. }
  rewrite Ex.
  assert (La : lead (repeat false a ++ core ++ repeat false b) = a)
    by (rewrite lead_repeat_app, E1; simpl; lia).
  assert (Lb : lead (rev (repeat false a ++ core ++ repeat false b)) = b).
  { rewrite !rev_app_distr, !rev_repeat, <- app_assoc, lead_repeat_app, E2.
    simpl. lia. }
  rewrite La, Lb, !length_app, !repeat_length. do 2 f_equal. lia.
Qed.

Lemma span_decomp (v : list bool) (a len : nat) :
  span v = Some (a, len) ->
  exists core,
    v = (repeat false a ++ core ++ repeat false (List.length v - a - len))%list /\
    List.length core = len /\ hd false core = true /\ last core false = true.
Proof.
  unfold span. destruct (existsb (fun b => b) v) eqn:Ex; [|discriminate].
  intros E. injection E as Ea El.
  destruct (lead_rest v Ex) as (v1 & E1).
  pose proof (lead_split v) as Sv. rewrite E1 in Sv.
  (* the trailing part *)
  assert (Er : rev v = (rev (true :: v1) ++ repeat false (lead v))%list).
  { rewrite Sv at 1. now rewrite rev_app_distr, rev_repeat. }
  assert (Ex1 : existsb (fun b => b) (rev (true :: v1)) = true).
  { simpl. rewrite existsb_app. simpl. now rewrite orb_true_r. }
  assert (Eb : lead (rev v) = lead (rev (true :: v1))).
  { rewrite Er. now apply lead_app_true. }
  destruct (lead_rest _ Ex1) as (w & Ew).
  pose proof (lead_split (rev (true :: v1))) as Sr. rewrite Ew in Sr.
  set (b := lead (rev (true :: v1))) in *.
  assert (Ev1 : true :: v1 = (rev (true :: w) ++ repeat false b)%list).
  { rewrite <- (rev_involutive (true :: v1)), Sr, rev_app_distr, rev_repeat.
    reflexivity. }
  exists (rev (true :: w)).
  assert (Lv : List.length v = (lead v + (List.length (rev (true :: w)) + b))%nat).
  { rewrite Sv at 1. rewrite length_app, repeat_length, Ev1, length_app,
      repeat_length. reflexivity. }
  assert (Lc : List.length (rev (true :: w)) = len).
  { rewrite <- El, Eb. fold b. lia. }
  split; [|split; [exact Lc|split]].
  - rewrite <- Ea. replace (List.length v - lead v - len)%nat with b by lia.
    rewrite <- Ev1. exact Sv.
  - destruct (rev (true :: w)) as [|x c] eqn:Ec.
    + simpl in Ev1. destruct b; discriminate.
    + simpl in Ev1. injection Ev1 as <- _. reflexivity.
  - simpl. now rewrite last_last.
Qed.

Lemma existsb_id_nth (u : list bool) :
  existsb (fun b => b) u = true <-> exists j, nth j u false = true.
Proof.
  induction u as [|[|] u IH]; simpl.
  - split; [discriminate|]. intros [[|j] E]; discriminate.
  - split; [|intros _; reflexivity]. intros _. now exists 0%nat.
  - rewrite IH. split.
    + intros [j E]. now exists (S j).
    + intros [[|j] E]; [discriminate|now exists j].
Qed.

Lemma existsb_window (u : list bool) (x w : nat) :
  (forall j, nth j u false = true -> (x <= j < x + w)%nat) ->
  existsb (fun b => b) (firstn w (skipn x u)) = existsb (fun b => b) u.
Proof.
  intros Hw. apply eq_true_iff_eq. rewrite !existsb_id_nth. split.
  - intros [j E]. rewrite nth_firstn in E.
    destruct (j <? w)%nat; [|discriminate].
    rewrite nth_skipn in E. exists (x + j)%nat. exact E.
  - intros [j E]. destruct (Hw j E) as [H1 H2].
    exists (j - x)%nat. rewrite nth_firstn.
    destruct (Nat.ltb_spec (j - x) w); [|lia].
    rewrite nth_skipn. now replace (x + (j - x))%nat with j by lia.
Qed.

Lemma true_in_core (a b j : nat) (core : list bool) :
  nth j (repeat false a ++ core ++ repeat false b) false = true ->
  (a <= j < a + List.length core)%nat.
Proof.
  intros E.
  destruct (Nat.lt_ge_cases j a) as [Hlt|Hge].
  - rewrite app_nth1 in E by (rewrite repeat_length; exact Hlt).
    rewrite nth_repeat_lt in E by exact Hlt. discriminate.
  - rewrite app_nth2, repeat_length in E by (rewrite repeat_length; exact Hge).
    destruct (Nat.lt_ge_cases (j - a) (List.length core)) as [Hc|Hc]; [lia|].
    rewrite app_nth2 in E by exact Hc.
    rewrite nth_repeat in E. discriminate.
Qed.

Section Occupancy.
Context {A : Type} (p : A -> bool).

Lemma existsb_as_flags (row : list A) :
  existsb p row = existsb (fun b => b) (map p row).
Proof. induction row as [|a row IH]; simpl; [reflexivity|now rewrite IH]. Qed.

Lemma blank_row_flags (row : list A) :
  existsb p row = false -> map p row = repeat false (List.length row).
Proof.
  induction row as [|a row IH]; simpl; [reflexivity|].
  intros E. apply orb_false_iff in E. destruct E as [-> E].
  now rewrite IH.
Qed.

Lemma col_any_app (m1 m2 : list (list A)) :
  col_any p (m1 ++ m2) = orb_vec (col_any p m1) (col_any p m2).
Proof.
  induction m1 as [|row m1 IH]; simpl; [reflexivity|].
  fold (col_any p (m1 ++ m2)). fold (col_any p m1).
  now rewrite IH, orb_vec_assoc.
Qed.

Lemma col_any_length (W : nat) (m : list (list A)) :
  Forall (fun row => List.length row = W) m -> m <> [] ->
  List.length (col_any p m) = W.
Proof.
  induction 1 as [|row m Hrow Hm IH]; intros Hne; [now elim Hne|].
  simpl. fold (col_any p m). rewrite orb_vec_length, length_map, Hrow.
  destruct m as [|row' m']; [simpl; lia|].
  rewrite IH by discriminate. lia.
Qed.

Lemma col_any_blank (W : nat) (m : list (list A)) :
  Forall (fun row => List.length row = W) m ->
  Forall (fun row => existsb p row = false) m ->
  col_any p m = [] \/ col_any p m = repeat false W.
Proof.
  induction 1 as [|row m Hrow Hm IH]; intros Hb; [now left|].
  inversion Hb as [|? ? Hb1 Hb2]; subst. right. simpl. fold (col_any p m).
  rewrite (blank_row_flags row Hb1).
  destruct (IH Hb2) as [->| ->].
  - now rewrite orb_vec_nil_r.
  - now rewrite orb_vec_false_l by apply repeat_length.
Qed.

Lemma col_any_drop_blank (W : nat) (top mid bot : list (list A)) :
  Forall (fun row => List.length row = W) top ->
  Forall (fun row => List.length row = W) mid ->
  Forall (fun row => List.length row = W) bot ->
  Forall (fun row => existsb p row = false) top ->
  Forall (fun row => existsb p row = false) bot ->
  mid <> [] ->
  col_any p (top ++ mid ++ bot) = col_any p mid.
Proof.
  intros Rt Rm Rb Bt Bb Hne.
  pose proof (col_any_length W mid Rm Hne) as Lm.
  rewrite !col_any_app.
  destruct (col_any_blank W bot Rb Bb) as [->| ->];
    destruct (col_any_blank W top Rt Bt) as [->| ->];
    rewrite ?orb_vec_nil_r, ?(orb_vec_false_r W) by exact Lm;
    rewrite ?(orb_vec_false_l W) by exact Lm; reflexivity.
Qed.

Lemma col_any_cols (x w : nat) (m : list (list A)) :
  col_any p (map (fun row => firstn w (skipn x row)) m) =
  firstn w (skipn x (col_any p m)).
Proof.
  induction m as [|row m IH]; simpl.
  - now rewrite skipn_nil, firstn_nil.
  - fold (col_any p m). fold (col_any p (map (fun row => firstn w (skipn x row)) m)).
    now rewrite IH, orb_vec_skipn, orb_vec_firstn, skipn_map, firstn_map.
Qed.

Lemma col_any_nth (m : list (list A)) (row : list A) (j : nat) :
  In row m -> nth j (map p row) false = true ->
  nth j (col_any p m) false = true.
Proof.
  induction m as [|r m IH]; simpl; [easy|]. fold (col_any p m).
  intros [->|Hin] E; rewrite nth_orb_vec.
  - now rewrite E.
  - rewrite (IH Hin E). apply orb_true_r.
Qed.

End Occupancy.

(** *** Otsu's threshold stays below 255 *)

Lemma otsu_fold_q1 (N S : Z) (l : list (Z * Z)) (st : otsu_state) :
  q1 (fold_left (otsu_step N S) l st) = q1 st + py_sum (map snd l).
Proof.
  revert st. induction l as [|[i h] l IH]; intros st.
  - unfold py_sum. simpl. lia.
  - cbn [fold_left map snd]. rewrite IH.
    unfold py_sum at 2. cbn [fold_left]. rewrite py_sum_from.
    assert (E : q1 (otsu_step N S st (i, h)) = q1 st + h).
    { unfold otsu_step.
      destruct ((q1 st + h =? 0) || (N - (q1 st + h) =? 0)); [reflexivity|].
      destruct (_ >? _); reflexivity. }
    rewrite E. lia.
Qed.

Lemma otsu_fold_bound (N S B : Z) (l : list (Z * Z)) (st : otsu_state) :
  Forall (fun ih => fst ih <= B) l -> max_val st <= B ->
  max_val (fold_left (otsu_step N S) l st) <= B.
Proof.
  intros Hl. revert st. induction Hl as [|[i h] l Hi Hl IH]; intros st Hst.
  - exact Hst.
  - cbn [fold_left]. apply IH. unfold otsu_step.
    destruct ((q1 st + h =? 0) || (N - (q1 st + h) =? 0)); [exact Hst|].
    destruct (_ >? _); [exact Hi|exact Hst].
Qed.

Lemma combine_map_self {A B} (f : A -> B) (l : list A) :
  combine l (map f l) = map (fun i => (i, f i)) l.
Proof. induction l as [|a l IH]; simpl; [reflexivity|now rewrite IH]. Qed.

Lemma py_sum_app (l1 l2 : list Z) : py_sum (l1 ++ l2) = py_sum l1 + py_sum l2.
Proof.
  unfold py_sum at 1. rewrite fold_left_app, py_sum_from.
  fold (py_sum l1). lia.
Qed.

Lemma otsu_fold_last (N S : Z) (l0 : list (Z * Z)) (i h : Z) (st : otsu_state) :
  N = q1 st + py_sum (map snd l0) + h ->
  max_val (fold_left (otsu_step N S) (l0 ++ [(i, h)]) st) =
  max_val (fold_left (otsu_step N S) l0 st).
Proof.
  intros EN. rewrite fold_left_app. cbn [fold_left].
  pose proof (otsu_fold_q1 N S l0 st) as Hq.
  remember (fold_left (otsu_step N S) l0 st) as st0 eqn:E0. clear E0.
  unfold otsu_step.
  replace (N - (q1 st0 + h)) with 0 by lia.
  rewrite Z.eqb_refl, orb_true_r. reflexivity.
Qed.

Lemma getThreshVal_Otsu_bound (g : gray_image) : getThreshVal_Otsu g <= 254.
Proof.
  unfold getThreshVal_Otsu, histogram.
  rewrite combine_map_self. unfold gray_levels.
  change 256%nat with (S 255). rewrite seq_S, !map_app. cbn [map Nat.add].
  remember (map (fun i : Z => (i, Z.of_nat (count_occ Z.eq_dec (concat g) i)))
                (map Z.of_nat (seq 0 255))) as l0 eqn:El0.
  unfold otsu_sweep. rewrite otsu_fold_last.
  - apply otsu_fold_bound; [|simpl; lia].
    rewrite El0, Forall_map, Forall_map. apply Forall_forall.
    intros k Hk. apply in_seq in Hk. simpl. lia.
  - rewrite map_app, py_sum_app. cbn [q1 map snd]. unfold py_sum at 2.
    cbn [fold_left]. lia.
Qed.

(** *** Cropping and padding *)

Lemma crop_eq (mat : image) (x y w h : nat) :
  crop mat x y w h =
  map (fun row => firstn w (skipn x row)) (firstn h (skipn y mat)).
Proof.
  unfold crop, slice. replace (y + h - y)%nat with h by lia.
  apply map_ext. intros row. now replace (x + w - x)%nat with w by lia.
Qed.

Lemma firstn_repeat {A} (a : A) (n m : nat) :
  firstn n (repeat a m) = repeat a (Nat.min n m).
Proof.
  revert m. induction n as [|n IH]; intros [|m]; simpl; try reflexivity.
  now rewrite IH.
Qed.

Lemma skipn_repeat {A} (a : A) (n m : nat) :
  skipn n (repeat a m) = repeat a (m - n).
Proof.
  revert m. induction n as [|n IH]; intros [|m]; simpl; try reflexivity.
  apply IH.
Qed.

Lemma map_combine_repeat {A B C} (f : A * B -> C) (a : A) (l : list B) :
  map f (combine (repeat a (List.length l)) l) = map (fun b => f (a, b)) l.
Proof. induction l as [|b l IH]; simpl; [reflexivity|now rewrite IH]. Qed.

Lemma set_block_pad (P w : nat) (c : image) :
  Forall (fun row => List.length row = w) c ->
  set_block (np_full (List.length c + 2 * P) (w + 2 * P)) P P c =
  pad_white P w c.
Proof.
  intros Hc. unfold set_block, np_full, pad_white, slice.
  rewrite firstn_repeat, !skipn_repeat, firstn_repeat.
  assert (E1 : Nat.min P (List.length c + 2 * P) = P) by lia.
  assert (E2 : Nat.min (P + List.length c - P) (List.length c + 2 * P - P)
               = List.length c) by lia.
  assert (E3 : (List.length c + 2 * P - (P + List.length c))%nat = P) by lia.
  rewrite E1, E2, E3, map_combine_repeat. do 2 f_equal.
  apply map_ext_in. intros row Hrow.
  rewrite Forall_forall in Hc. specialize (Hc row Hrow).
  unfold set_slice. rewrite firstn_repeat, skipn_repeat, Hc.
  assert (E4 : Nat.min P (w + 2 * P) = P) by lia.
  assert (E5 : (w + 2 * P - (P + w))%nat = P) by lia.
  now rewrite E4, E5.
Qed.

Lemma pad_white_rect (P w : nat) (c : image) :
  Forall (fun row => List.length row = w) c ->
  Forall (fun row => List.length row = (w + 2 * P)%nat) (pad_white P w c).
Proof.
  intros Hc. unfold pad_white. rewrite !Forall_app. repeat split.
  - apply Forall_forall. intros r Hr. apply repeat_spec in Hr. subst.
    apply repeat_length.
  - rewrite Forall_map. eapply Forall_impl; [|exact Hc].
    intros row E. cbv beta in E. rewrite !length_app, !repeat_length. lia.
  - apply Forall_forall. intros r Hr. apply repeat_spec in Hr. subst.
    apply repeat_length.
Qed.

Lemma crop_pad_white (P w : nat) (c : image) :
  Forall (fun row => List.length row = w) c ->
  crop (pad_white P w c) P P w (List.length c) = c.
Proof.
  intros Hc. rewrite crop_eq. unfold pad_white.
  rewrite skipn_app, repeat_length, Nat.sub_diag, skipn_all2
    by (rewrite repeat_length; lia).
  cbn [app skipn].
  rewrite firstn_app, length_map, Nat.sub_diag, firstn_all2
    by (rewrite length_map; lia).
  cbn [firstn]. rewrite app_nil_r, map_map.
  rewrite <- (map_id c) at 2. apply map_ext_in. intros row Hrow.
  rewrite Forall_forall in Hc. specialize (Hc row Hrow).
  rewrite skipn_app, repeat_length, Nat.sub_diag, skipn_all2
    by (rewrite repeat_length; lia).
  cbn [app skipn].
  rewrite firstn_app, Hc, Nat.sub_diag, firstn_all2 by lia.
  cbn [firstn]. apply app_nil_r.
Qed.

Lemma shape2_pad_white (P w : nat) (c : image) :
  shape2 (pad_white P w c) =
  ((List.length c + 2 * P)%nat,
   match P, c with
   | O, [] => 0%nat
   | O, row :: _ => List.length row
   | S _, _ => (w + 2 * P)%nat
   end).
Proof.
  unfold shape2, pad_white. rewrite !length_app, length_map, !repeat_length.
  f_equal; [lia|].
  destruct P as [|P]; simpl.
  - destruct c as [|row c]; simpl; [reflexivity|]. now rewrite app_nil_r.
  - apply repeat_length.
Qed.

(** *** The bounding rectangle of a crop and of its padded copy *)

Lemma repeat_false_Forall {A} (f : A -> bool) (l : list A) (n : nat) :
  map f l = repeat false n -> Forall (fun a => f a = false) l.
Proof.
  revert n. induction l as [|a l IH]; intros n E; [constructor|].
  destruct n as [|n]; [discriminate|]. simpl in E. injection E as Ea El.
  constructor; [exact Ea|]. now apply (IH n).
Qed.

Lemma firstn_app_exact {A} (l1 l2 : list A) :
  firstn (List.length l1) (l1 ++ l2) = l1.
Proof.
  rewrite firstn_app, Nat.sub_diag, firstn_all. cbn [firstn]. apply app_nil_r.
Qed.

Lemma skipn_app_exact {A} (l1 l2 : list A) :
  skipn (List.length l1) (l1 ++ l2) = l2.
Proof. now rewrite skipn_app, Nat.sub_diag, skipn_all. Qed.

Lemma app_inj_length {A} (a1 a2 r1 r2 : list A) :
  List.length a1 = List.length a2 ->
  (a1 ++ r1 = a2 ++ r2)%list -> a1 = a2 /\ r1 = r2.
Proof.
  revert a2. induction a1 as [|x a1 IH]; intros [|y a2] L E; simpl in *;
    try discriminate.
  - now split.
  - injection E as -> E. destruct (IH a2 ltac:(lia) E) as [-> ->]. now split.
Qed.

Section BoundingRect.
Context (p : pixel -> bool).

Lemma bounding_rect_crop (W : nat) (m : image) (x y w h : nat) :
  Forall (fun row => List.length row = W) m ->
  bounding_rect p m = Some (x, y, w, h) ->
  let c := crop m x y w h in
  Forall (fun row => List.length row = w) c /\
  List.length c = h /\
  (1 <= w /\ 1 <= h /\ x + w <= W /\ y + h <= List.length m)%nat /\
  List.length (col_any p c) = w /\
  hd false (col_any p c) = true /\ last (col_any p c) false = true /\
  hd false (row_any p c) = true /\ last (row_any p c) false = true.
Proof.
  intros Hm HB c. unfold bounding_rect in HB.
  destruct (span (col_any p m)) as [[x' w']|] eqn:SC; [|discriminate].
  destruct (span (row_any p m)) as [[y' h']|] eqn:SR; [|discriminate].
  injection HB as -> -> -> ->.
  destruct (span_decomp _ _ _ SC) as (Cc & EC & LC & HC & TC).
  destruct (span_decomp _ _ _ SR) as (Rc & ER & LR & HR & TR).
  set (bx := (List.length (col_any p m) - x - w)%nat) in *.
  set (by_ := (List.length (row_any p m) - y - h)%nat) in *.
  assert (Hw : (1 <= w)%nat)
    by (destruct Cc; [discriminate|simpl in LC; lia]).
  assert (Hh : (1 <= h)%nat)
    by (destruct Rc; [discriminate|simpl in LR; lia]).
  assert (LR' : List.length m = (y + (h + by_))%nat).
  { rewrite <- (length_map (existsb p) m). fold (row_any p m). rewrite ER at 1.
    now rewrite !length_app, !repeat_length, LR. }
  assert (Hne : m <> []) by (intros ->; simpl in LR'; lia).
  assert (LC' : W = (x + (w + bx))%nat).
  { rewrite <- (col_any_length p W m Hm Hne). rewrite EC at 1.
    now rewrite !length_app, !repeat_length, LC. }
  (* the rows above, inside and below the rectangle *)
  set (top := firstn y m). set (mid := firstn h (skipn y m)).
  set (bot := skipn h (skipn y m)).
  assert (Em : m = (top ++ mid ++ bot)%list).
  { unfold top, mid, bot. now rewrite !firstn_skipn. }
  assert (Ltop : List.length top = y)
    by (unfold top; rewrite length_firstn; lia).
  assert (Lmid : List.length mid = h)
    by (unfold mid; rewrite length_firstn, length_skipn; lia).
  assert (Rall : Forall (fun row => List.length row = W) top /\
                 Forall (fun row => List.length row = W) mid /\
                 Forall (fun row => List.length row = W) bot).
  { rewrite Em, !Forall_app in Hm. tauto. }
  destruct Rall as (Rt & Rm & Rb).
  assert (Erows : map (existsb p) top = repeat false y /\
                  map (existsb p) mid = Rc /\
                  map (existsb p) bot = repeat false by_).
  { unfold row_any in ER. rewrite Em, !map_app in ER.
    apply app_inj_length in ER;
      [|now rewrite length_map, repeat_length].
    destruct ER as [E1 E2].
    apply app_inj_length in E2; [|now rewrite length_map, LR].
    destruct E2 as [E2 E3]. repeat split; assumption. }
  destruct Erows as (Et & Emid & Eb).
  assert (Hmid : mid <> []) by (intros E; rewrite E in Lmid; simpl in Lmid; lia).
  assert (ECm : col_any p mid = col_any p m).
  { rewrite Em. symmetry. apply (col_any_drop_blank p W); try assumption.
    - exact (repeat_false_Forall _ _ _ Et).
    - exact (repeat_false_Forall _ _ _ Eb). }
  assert (Ec : c = map (fun row => firstn w (skipn x row)) mid)
    by (unfold c; apply crop_eq).
  assert (Ecol : col_any p c = Cc).
  { rewrite Ec, col_any_cols, ECm, EC.
    rewrite <- (repeat_length false x) at 1. rewrite skipn_app_exact.
    rewrite <- LC. apply firstn_app_exact. }
  assert (Erow : row_any p c = Rc).
  { rewrite <- Emid, Ec. unfold row_any. rewrite map_map.
    apply map_ext_in. intros row Hrow.
    rewrite (existsb_as_flags p (firstn w (skipn x row))).
    rewrite <- firstn_map, <- skipn_map, (existsb_as_flags p row).
    apply existsb_window. intros j Hj.
    assert (Hin : In row m) by (rewrite Em; apply in_or_app; right;
                                apply in_or_app; now left).
    pose proof (col_any_nth p m row j Hin Hj) as Hc.
    rewrite EC in Hc. apply true_in_core in Hc. lia. }
  split; [|split; [|split; [|split; [|split; [|split; [|split]]]]]].
  - rewrite Ec, Forall_map. eapply Forall_impl; [|exact Rm].
    intros row E. cbv beta in E. rewrite length_firstn, length_skipn. lia.
  - now rewrite Ec, length_map.
  - lia.
  - now rewrite Ecol.
  - now rewrite Ecol.
  - now rewrite Ecol.
  - now rewrite Erow.
  - now rewrite Erow.
Qed.

Hypothesis white_blank : p white = false.

Lemma existsb_white (n : nat) : existsb p (repeat white n) = false.
Proof. induction n; simpl; [reflexivity|]. now rewrite white_blank. Qed.

Lemma map_p_white (n : nat) : map p (repeat white n) = repeat false n.
Proof. now rewrite map_repeat, white_blank. Qed.

Lemma col_any_padded_rows (P w : nat) (c : image) :
  Forall (fun row => List.length row = w) c -> c <> [] ->
  col_any p (map (fun row => repeat white P ++ row ++ repeat white P) c) =
  (repeat false P ++ col_any p c ++ repeat false P)%list.
Proof.
  induction 1 as [|row c Hrow Hc IH]; intros Hne; [now elim Hne|].
  cbn [map]. simpl col_any.
  fold (col_any p c).
  fold (col_any p (map (fun row => repeat white P ++ row ++ repeat white P) c)).
  rewrite !map_app, !map_p_white.
  destruct c as [|row' c'].
  - simpl. now rewrite !orb_vec_nil_r.
  - rewrite IH by discriminate.
    pose proof (col_any_length p w (row' :: c') Hc ltac:(discriminate)) as L.
    rewrite orb_vec_app by reflexivity.
    rewrite orb_vec_app by (rewrite length_map, L; exact Hrow).
    rewrite !(orb_vec_false_l P) by apply repeat_length. reflexivity.
Qed.

Lemma bounding_rect_pad (P w : nat) (c : image) :
  Forall (fun row => List.length row = w) c ->
  List.length (col_any p c) = w ->
  hd false (col_any p c) = true -> last (col_any p c) false = true ->
  hd false (row_any p c) = true -> last (row_any p c) false = true ->
  bounding_rect p (pad_white P w c) = Some (P, P, w, List.length c).
Proof.
  intros Hc Lw HC TC HR TR.
  assert (Hne : c <> []) by (intros ->; discriminate).
  unfold bounding_rect.
  assert (ER : row_any p (pad_white P w c) =
               (repeat false P ++ row_any p c ++ repeat false P)%list).
  { unfold row_any, pad_white. rewrite !map_app, !map_repeat, existsb_white.
    rewrite map_map. do 2 f_equal. apply map_ext. intros row.
    now rewrite !existsb_app, !existsb_white, orb_false_r. }
  assert (EC : col_any p (pad_white P w c) =
               (repeat false P ++ col_any p c ++ repeat false P)%list).
  { unfold pad_white.
    rewrite <- (col_any_padded_rows P w c Hc Hne).
    apply (col_any_drop_blank p (w + 2 * P)).
    - apply Forall_forall. intros r Hr. apply repeat_spec in Hr. subst.
      apply repeat_length.
    - rewrite Forall_map. eapply Forall_impl; [|exact Hc].
      intros row E. cbv beta in E. rewrite !length_app, !repeat_length. lia.
    - apply Forall_forall. intros r Hr. apply repeat_spec in Hr. subst.
      apply repeat_length.
    - apply Forall_forall. intros r Hr. apply repeat_spec in Hr. subst.
      apply existsb_white.
    - apply Forall_forall. intros r Hr. apply repeat_spec in Hr. subst.
      apply existsb_white.
    - destruct c; [now elim Hne|discriminate]. }
  rewrite EC, ER, (span_build P P _ HC TC), (span_build P P _ HR TR).
  unfold row_any. now rewrite Lw, length_map.
Qed.

End BoundingRect.

(** *** The trim stage *)

Lemma row_any_map {A B} (f : A -> B) (q : B -> bool) (m : list (list A)) :
  row_any q (map (map f) m) = row_any (fun a => q (f a)) m.
Proof.
  unfold row_any. rewrite map_map. apply map_ext. intros row.
  induction row as [|a row IH]; simpl; [reflexivity|now rewrite IH].
Qed.

Lemma col_any_map {A B} (f : A -> B) (q : B -> bool) (m : list (list A)) :
  col_any q (map (map f) m) = col_any (fun a => q (f a)) m.
Proof.
  induction m as [|row m IH]; simpl; [reflexivity|].
  fold (col_any q (map (map f) m)). fold (col_any (fun a => q (f a)) m).
  now rewrite IH, map_map.
Qed.

Lemma row_any_ext {A} (p q : A -> bool) (m : list (list A)) :
  (forall a, p a = q a) -> row_any p m = row_any q m.
Proof.
  intros E. unfold row_any. apply map_ext. intros row.
  induction row as [|a row IH]; simpl; [reflexivity|now rewrite IH, E].
Qed.

Lemma col_any_ext {A} (p q : A -> bool) (m : list (list A)) :
  (forall a, p a = q a) -> col_any p m = col_any q m.
Proof.
  intros E. induction m as [|row m IH]; simpl; [reflexivity|].
  fold (col_any p m). fold (col_any q m). rewrite IH. f_equal.
  apply map_ext, E.
Qed.

Lemma trim_rect_content (img : image) :
  trim_rect img = bounding_rect (content (otsu_of img)) img.
Proof.
  unfold trim_rect, contours_boundingRect, threshold_inv_otsu, otsu_of,
    bounding_rect.
  set (t := getThreshVal_Otsu (cvtColor_BGR2GRAY img)).
  unfold cvtColor_BGR2GRAY.
  rewrite !row_any_map, !col_any_map.
  assert (E : forall a,
             nonzero (if gray_of_bgr a >? t then 0 else 255) = content t a).
  { intros a. unfold content.
    destruct (Z.gtb_spec (gray_of_bgr a) t);
      destruct (Z.leb_spec (gray_of_bgr a) t); try lia; reflexivity. }
  now rewrite (row_any_ext _ _ _ E), (col_any_ext _ _ _ E).
Qed.

Lemma content_white (img : image) : content (otsu_of img) white = false.
Proof.
  unfold content, otsu_of.
  pose proof (getThreshVal_Otsu_bound (cvtColor_BGR2GRAY img)) as B.
  change (gray_of_bgr white) with 255.
  destruct (Z.leb_spec 255 (getThreshVal_Otsu (cvtColor_BGR2GRAY img)));
    [lia|reflexivity].
Qed.

Lemma shape2_rect (w : nat) (c : image) :
  Forall (fun row => List.length row = w) c -> c <> [] ->
  shape2 c = (List.length c, w).
Proof.
  intros Hc Hne. unfold shape2. destruct c as [|row c]; [now elim Hne|].
  inversion Hc; subst. reflexivity.
Qed.

Lemma auto_trim_and_pad_some (img : image) (W P x y w h : nat) :
  Forall (fun row => List.length row = W) img ->
  trim_rect img = Some (x, y, w, h) ->
  _auto_trim_and_pad img P = pad_white P w (crop img x y w h).
Proof.
  intros Hm HB. unfold _auto_trim_and_pad. fold (trim_rect img). rewrite HB.
  pose proof HB as HB'. rewrite trim_rect_content in HB'.
  destruct (bounding_rect_crop _ W img x y w h Hm HB')
    as (Rc & Lc & (Hw & Hh & _) & _).
  assert (Hne : crop img x y w h <> [])
    by (intros E; rewrite E in Lc; simpl in Lc; lia).
  rewrite (shape2_rect w _ Rc Hne).
  now apply set_block_pad.
Qed.

(** C7 as stated fails: on a white page with a light panel and a small black
    mark, the first pass takes the panel as content (threshold 240, rectangle
    36 by 36) and the second pass, on the trimmed page, only the mark
    (threshold 0, rectangle 2 by 2). *)
Lemma auto_trim_and_pad_not_idempotent :
  trim_rect shaded_page = Some (30, 40, 36, 36)%nat /\
  trim_rect (_auto_trim_and_pad shaded_page 16) = Some (31, 31, 2, 2)%nat /\
  shape2 (_auto_trim_and_pad shaded_page 16) = (68, 68)%nat /\
  shape2 (_auto_trim_and_pad (_auto_trim_and_pad shaded_page 16) 16)
    = (34, 34)%nat /\
  _auto_trim_and_pad (_auto_trim_and_pad shaded_page 16) 16
    <> _auto_trim_and_pad shaded_page 16.
Proof.
  assert (S1 : shape2 (_auto_trim_and_pad shaded_page 16) = (68, 68)%nat)
    by (vm_compute; reflexivity).
  assert (S2 : shape2 (_auto_trim_and_pad (_auto_trim_and_pad shaded_page 16) 16)
               = (34, 34)%nat) by (vm_compute; reflexivity).
  split; [vm_compute; reflexivity|]. split; [vm_compute; reflexivity|].
  split; [exact S1|]. split; [exact S2|].
  intros E. apply (f_equal shape2) in E. rewrite S1, S2 in E.
  discriminate E.
Qed.

(** C7, amended. The trim stage takes as content the pixels whose gray level
    is at most the Otsu threshold of the image; without such a pixel it
    returns the image unchanged; otherwise it crops to their bounding
    rectangle and pads the crop with 16 white pixels on every side.  Applied
    again to its own output it finds the rectangle of the same size at
    offset (16, 16) and returns the output unchanged, provided the Otsu
    threshold of the output is the threshold of the input. *)
Theorem auto_trim_and_pad_spec (img : image) (W : nat) :
  Forall (fun row => List.length row = W) img ->
  let out := _auto_trim_and_pad img 16 in
  trim_rect img = bounding_rect (content (otsu_of img)) img /\
  (trim_rect img = None -> out = img) /\
  (forall x y w h, trim_rect img = Some (x, y, w, h) ->
     (1 <= w /\ 1 <= h /\ x + w <= W /\ y + h <= List.length img)%nat /\
     out = pad_white 16 w (crop img x y w h) /\
     shape2 out = ((h + 32)%nat, (w + 32)%nat) /\
     crop out 16 16 w h = crop img x y w h /\
     (otsu_of out = otsu_of img ->
      trim_rect out = Some (16%nat, 16%nat, w, h) /\
      _auto_trim_and_pad out 16 = out)).
Proof.
  intros Hm out. split; [apply trim_rect_content|]. split.
  - intros HN. unfold out, _auto_trim_and_pad. fold (trim_rect img).
    now rewrite HN.
  - intros x y w h HB.
    pose proof HB as HB'. rewrite trim_rect_content in HB'.
    destruct (bounding_rect_crop _ W img x y w h Hm HB')
      as (Rc & Lc & Hdims & LC & HC & TC & HR & TR).
    assert (Eout : out = pad_white 16 w (crop img x y w h))
      by (unfold out; now apply (auto_trim_and_pad_some img W)).
    assert (Ecrop : crop out 16 16 w h = crop img x y w h).
    { rewrite Eout. pose proof (crop_pad_white 16 w _ Rc) as Hcp.
      now rewrite Lc in Hcp. }
    split; [exact Hdims|]. split; [exact Eout|].
    split; [rewrite Eout, shape2_pad_white, Lc; f_equal; lia|].
    split; [exact Ecrop|].
    intros Et.
    assert (HBout : trim_rect out = Some (16%nat, 16%nat, w, h)).
    { rewrite trim_rect_content, Et, Eout.
      pose proof (bounding_rect_pad (content (otsu_of img)) (content_white img)
                    16 w _ Rc LC HC TC HR TR) as Hbp.
      now rewrite Lc in Hbp. }
    split; [exact HBout|].
    rewrite (auto_trim_and_pad_some out (w + 2 * 16) 16 16 16 w h).
    + rewrite Ecrop. symmetry. exact Eout.
    + rewrite Eout. now apply pad_white_rect.
    + exact HBout.
Qed.

(** C7 amended, on a page of five by four pixels with a black mark: a second
    pass leaves the trimmed page as it is. *)
Lemma auto_trim_and_pad_spec_witness :
  _auto_trim_and_pad (_auto_trim_and_pad marked_page 16) 16 =
  _auto_trim_and_pad marked_page 16.
Proof.
  assert (Hm : Forall (fun row => List.length row = 5%nat) marked_page)
    by (repeat constructor).
  destruct (auto_trim_and_pad_spec marked_page 5 Hm) as (_ & _ & Hs).
  destruct (Hs 2%nat 1%nat 2%nat 1%nat) as (_ & _ & _ & _ & Hi).
  - vm_compute. reflexivity.
  - apply Hi. vm_compute. reflexivity.
Defined.

(** ** Editing the chapter list *)

Lemma list_set_length {A} (l : list A) (i : nat) (x : A) :
  List.length (list_set l i x) = List.length l.
Proof.
  revert i. induction l as [|y l IH]; intros [|i]; simpl; auto.
Qed.

Lemma nth_error_list_set {A} (l : list A) (i k : nat) (x : A) :
  nth_error (list_set l i x) k =
  if (k =? i)%nat then (if (k <? List.length l)%nat then Some x else None)
  else nth_error l k.
Proof.
  revert i k. induction l as [|y l IH]; intros i k.
  - simpl. destruct (k =? i)%nat; [|reflexivity].
    now destruct k.
  - destruct i as [|i], k as [|k]; simpl; try reflexivity.
    rewrite IH. reflexivity.
Qed.

Lemma list_set_perm {A} (l : list A) (j : nat) (x y : A) :
  nth_error l j = Some y -> Permutation (x :: l) (y :: list_set l j x).
Proof.
  revert j. induction l as [|z l IH]; intros [|j] E; simpl in *; try discriminate.
  - injection E as ->. apply perm_swap.
  - rewrite (perm_swap z x l). rewrite (perm_swap z y (list_set l j x)).
    apply perm_skip. now apply IH.
Qed.

Lemma list_swap_perm {A} (l : list A) (i j : nat) (ci cj : A) :
  nth_error l i = Some ci -> nth_error l j = Some cj ->
  Permutation l (list_set (list_set l i cj) j ci).
Proof.
  revert i j. induction l as [|z l IH]; intros [|i] [|j] Ei Ej; simpl in *;
    try discriminate.
  - injection Ei as ->. reflexivity.
  - injection Ei as ->. now apply list_set_perm.
  - injection Ej as ->. now apply list_set_perm.
  - apply perm_skip. now apply IH.
Qed.

Lemma set_chapters_same (self : App) : set_chapters self (chapters self) = self.
Proof. now destruct self. Qed.

Lemma set_chapters_twice (self : App) (a b : list Chapter) :
  set_chapters (set_chapters self a) b = set_chapters self b.
Proof. reflexivity. Qed.

Lemma chapters_set_chapters (self : App) (a : list Chapter) :
  chapters (set_chapters self a) = a.
Proof. reflexivity. Qed.

(** X1. Moving the selected chapter by [delta] places.  When the target
    place exists, the chapter and the one at the target change places, every
    other chapter stays where it is, the list is a permutation of the old
    one, and the selection follows the chapter.  When it does not exist
    (above the first or below the last chapter), nothing changes. *)
Theorem move_chapter_swaps (self : App) (i : nat) (rest : list nat) (delta : Z) :
  (i < List.length (chapters self))%nat ->
  let n := Z.of_nat (List.length (chapters self)) in
  let j := Z.of_nat i + delta in
  exists self' sel',
    move_chapter self (i :: rest) delta = Some (self', sel') /\
    Permutation (chapters self) (chapters self') /\
    self' = set_chapters self (chapters self') /\
    (0 <= j < n ->
     sel' = [Z.to_nat j] /\
     nth_error (chapters self') (Z.to_nat j) = nth_error (chapters self) i /\
     nth_error (chapters self') i = nth_error (chapters self) (Z.to_nat j) /\
     forall k, k <> i -> k <> Z.to_nat j ->
       nth_error (chapters self') k = nth_error (chapters self) k) /\
    (~ (0 <= j < n) -> self' = self /\ sel' = i :: rest).
Proof.
  intros Hi n j. unfold move_chapter. fold j. fold n.
  destruct ((0 <=? j) && (j <? n)) eqn:B.
  - apply andb_true_iff in B. destruct B as [B1 B2].
    apply Z.leb_le in B1. apply Z.ltb_lt in B2.
    destruct (nth_error (chapters self) (Z.to_nat j)) as [cj|] eqn:Ej.
    2:{ apply nth_error_None in Ej. lia. }
    destruct (nth_error (chapters self) i) as [ci|] eqn:Ei.
    2:{ apply nth_error_None in Ei. lia. }
    simpl. eexists _, _. split; [reflexivity|].
    rewrite chapters_set_chapters.
    split; [now apply list_swap_perm|].
    split; [reflexivity|].
    split; [|intros C; lia].
    intros _. split; [reflexivity|].
    rewrite !nth_error_list_set, !list_set_length.
    rewrite Nat.eqb_refl.
    assert (Hj : (Z.to_nat j < List.length (chapters self))%nat) by lia.
    apply Nat.ltb_lt in Hj. rewrite Hj.
    split; [reflexivity|]. split.
    + destruct (i =? Z.to_nat j)%nat eqn:Eij.
      * apply Nat.eqb_eq in Eij. apply Nat.ltb_lt in Hi. rewrite Hi.
        rewrite <- Eij in Ej. congruence.
      * rewrite Nat.eqb_refl. apply Nat.ltb_lt in Hi. now rewrite Hi.
    + intros k K1 K2. rewrite !nth_error_list_set.
      apply Nat.eqb_neq in K1, K2. now rewrite K1, K2.
  - eexists _, _. split; [reflexivity|].
    split; [reflexivity|]. split; [now rewrite set_chapters_same|].
    split.
    + intros [C1 C2]. apply Z.leb_le in C1. apply Z.ltb_lt in C2.
      rewrite C1, C2 in B. discriminate.
    + intros _. split; reflexivity.
Qed.

Lemma move_chapter_swaps_witness :
  exists self' sel',
    move_chapter (app_with 1200 3 7 None five_chapters) [1%nat] 1 = Some (self', sel') /\
    map name (chapters self') =
      ["Chapter 1"; "Chapter 3"; "Chapter 2"; "Chapter 4"; "Chapter 5"]%string.
Proof.
  destruct (move_chapter_swaps (app_with 1200 3 7 None five_chapters) 1 [] 1)
    as (self' & sel' & E & _).
  - simpl. lia.
  - exists self', sel'. split; [exact E|].
    vm_compute in E. injection E as <- _. reflexivity.
Defined.

Lemma build_plan_concat (self : App) :
  concat (build_plan self) = filter enabled (chapters self).
Proof.
  pose proof (build_plan_chunks self) as E. cbv zeta in E. rewrite E.
  rewrite chunks_concat. apply firstn_all2.
  apply ceil_div_cover. lia.
Qed.

Lemma filter_perm {A} (f : A -> bool) (l l' : list A) :
  Permutation l l' -> Permutation (filter f l) (filter f l').
Proof.
  induction 1; simpl.
  - constructor.
  - destruct (f x); [now constructor|assumption].
  - destruct (f x), (f y); try reflexivity. apply perm_swap.
  - etransitivity; eassumption.
Qed.

Lemma py_sum_cons (x : Z) (l : list Z) : py_sum (x :: l) = x + py_sum l.
Proof. unfold py_sum. simpl. apply py_sum_from. Qed.

Lemma py_sum_perm (l l' : list Z) : Permutation l l' -> py_sum l = py_sum l'.
Proof.
  induction 1; rewrite ?py_sum_cons; lia.
Qed.

Lemma build_plan_length (self : App) :
  List.length (build_plan self) =
  ((List.length (filter enabled (chapters self))
    + Z.to_nat (Z.max 1 (group_size self)) - 1)
   / Z.to_nat (Z.max 1 (group_size self)))%nat.
Proof.
  pose proof (build_plan_chunks self) as E. cbv zeta in E. rewrite E.
  now rewrite length_map, length_seq.
Qed.

Lemma total_pages_enabled (self : App) :
  total_pages (update_plan_view self) =
  py_sum (map pages (filter enabled (chapters self))).
Proof. unfold update_plan_view. simpl. now rewrite build_plan_concat. Qed.

Lemma plan_view_vnums (self : App) :
  map vnum (rows (update_plan_view self)) =
  Z_range (Z.max 1 (start_volume self)) (List.length (build_plan self)).
Proof.
  unfold update_plan_view, Z_range. simpl. rewrite map_map.
  unfold enumerate.
  generalize (build_plan self) as plan. intros plan.
  generalize 0%nat as s.
  assert (G : forall (s : nat),
    map (fun x : nat * list Chapter => vnum (let '(idx, vol) := x in
       mkPlanRow (Z.max 1 (start_volume self) + Z.of_nat idx)
                 (py_sum (map pages vol)) vol))
       (combine (seq s (List.length plan)) plan) =
    map (fun k => Z.max 1 (start_volume self) + Z.of_nat k)
       (seq s (List.length plan))).
  { induction plan as [|v plan IH]; intros s; simpl; [reflexivity|].
    now rewrite IH. }
  intros s. apply G.
Qed.

Lemma move_chapter_perm (self self' : App) (idxs sel' : list nat) (delta : Z) :
  move_chapter self idxs delta = Some (self', sel') ->
  Permutation (chapters self) (chapters self') /\
  self' = set_chapters self (chapters self').
Proof.
  unfold move_chapter. destruct idxs as [|i rest].
  - intros E. injection E as <- <-. now rewrite set_chapters_same.
  - destruct (_ && _).
    + destruct (nth_error (chapters self) (Z.to_nat (Z.of_nat i + delta)))
        as [cj|] eqn:Ej; [|discriminate].
      destruct (nth_error (chapters self) i) as [ci|] eqn:Ei; [|discriminate].
      simpl. intros E. injection E as <- <-.
      rewrite chapters_set_chapters. split; [|reflexivity].
      now apply list_swap_perm.
    + intros E. injection E as <- <-. now rewrite set_chapters_same.
Qed.

(** X2. A move that took place is undone by the opposite move: moving by
    [delta] and then, from the selection the first move left, by [- delta]
    gives back the application and the selection. *)
Theorem move_chapter_round_trip (self : App) (i : nat) (rest : list nat)
        (delta : Z) :
  (i < List.length (chapters self))%nat ->
  0 <= Z.of_nat i + delta < Z.of_nat (List.length (chapters self)) ->
  exists self1 sel1,
    move_chapter self (i :: rest) delta = Some (self1, sel1) /\
    move_chapter self1 sel1 (- delta) = Some (self, [i]).
Proof.
  intros Hi Hj. unfold move_chapter at 1.
  set (j := Z.of_nat i + delta) in *.
  assert (B : (0 <=? j) && (j <? Z.of_nat (List.length (chapters self))) = true).
  { apply andb_true_iff. split; [apply Z.leb_le|apply Z.ltb_lt]; lia. }
  rewrite B.
  destruct (nth_error (chapters self) (Z.to_nat j)) as [cj|] eqn:Ej.
  2:{ apply nth_error_None in Ej. lia. }
  destruct (nth_error (chapters self) i) as [ci|] eqn:Ei.
  2:{ apply nth_error_None in Ei. lia. }
  unfold bind. eexists _, _. split; [reflexivity|].
  unfold move_chapter. rewrite chapters_set_chapters, !list_set_length.
  replace (Z.of_nat (Z.to_nat j) + - delta) with (Z.of_nat i) by lia.
  assert (B' : (0 <=? Z.of_nat i)
               && (Z.of_nat i <? Z.of_nat (List.length (chapters self))) = true).
  { apply andb_true_iff. split; [apply Z.leb_le|apply Z.ltb_lt]; lia. }
  rewrite B', Nat2Z.id.
  assert (Hi' := Hi). apply Nat.ltb_lt in Hi'.
  assert (Hj' : (Z.to_nat j <? List.length (chapters self))%nat = true)
    by (apply Nat.ltb_lt; lia).
  rewrite !nth_error_list_set, !list_set_length, Nat.eqb_refl, Hi', Hj'.
  assert (E1 : (if (i =? Z.to_nat j)%nat then Some ci else Some cj) = Some cj).
  { destruct (i =? Z.to_nat j)%nat eqn:Eij; [|reflexivity].
    apply Nat.eqb_eq in Eij. rewrite <- Eij in Ej. congruence. }
  rewrite E1, !Nat.eqb_refl. unfold bind. rewrite set_chapters_twice.
  assert (L : list_set
                (list_set
                   (list_set (list_set (chapters self) i cj) (Z.to_nat j) ci)
                   (Z.to_nat j) cj) i ci = chapters self).
  { apply nth_error_ext. intros k.
    rewrite !nth_error_list_set, !list_set_length.
    destruct (k =? i)%nat eqn:Ki.
    - apply Nat.eqb_eq in Ki. subst k. now rewrite Hi'.
    - destruct (k =? Z.to_nat j)%nat eqn:Kj; [|reflexivity].
      apply Nat.eqb_eq in Kj. subst k. now rewrite Hj'. }
  now rewrite L, set_chapters_same.
Qed.

Lemma move_chapter_round_trip_witness :
  exists self1 sel1,
    move_chapter (app_with 1200 3 7 None five_chapters) [3%nat] (-1)
      = Some (self1, sel1) /\
    move_chapter self1 sel1 (- -1)
      = Some (app_with 1200 3 7 None five_chapters, [3%nat]).
Proof.
  apply (move_chapter_round_trip (app_with 1200 3 7 None five_chapters) 3 [] (-1));
    simpl; lia.
Defined.

(** X3. Reordering does not change the totals of the plan: after a move
    the planned chapters are a permutation of those before, and the plan
    view shows the same number of volumes, the same total of pages and the
    same volume numbers. *)
Theorem move_chapter_plan_totals (self self' : App) (idxs sel' : list nat)
        (delta : Z) :
  move_chapter self idxs delta = Some (self', sel') ->
  let view := update_plan_view self in
  let view' := update_plan_view self' in
  Permutation (concat (build_plan self)) (concat (build_plan self')) /\
  total_vols view' = total_vols view /\
  total_pages view' = total_pages view /\
  map vnum (rows view') = map vnum (rows view).
Proof.
  intros E. apply move_chapter_perm in E. destruct E as [P E].
  assert (Pf : Permutation (filter enabled (chapters self))
                           (filter enabled (chapters self')))
    by now apply filter_perm.
  assert (L : List.length (build_plan self') = List.length (build_plan self)).
  { rewrite !build_plan_length, <- (Permutation_length Pf).
    rewrite E. reflexivity. }
  cbv zeta. split; [now rewrite !build_plan_concat|].
  split; [unfold update_plan_view; simpl; now rewrite L|].
  split.
  - rewrite !total_pages_enabled. symmetry. apply py_sum_perm.
    now apply Permutation_map.
  - rewrite !plan_view_vnums, L. rewrite E. reflexivity.
Qed.

Lemma move_chapter_plan_totals_witness :
  total_pages
    (update_plan_view
       (set_chapters (app_with 1200 3 7 None five_chapters)
          (list_set (list_set five_chapters 1
                       (nth 2 five_chapters (new_Chapter "" [] [])))
                    2 (nth 1 five_chapters (new_Chapter "" [] []))))) =
  total_pages (update_plan_view (app_with 1200 3 7 None five_chapters)).
Proof.
  apply (move_chapter_plan_totals (app_with 1200 3 7 None five_chapters) _
           [1%nat] [2%nat] 1).
  reflexivity.
Defined.

Lemma list_set_split {A} (l : list A) (i : nat) (c x : A) :
  nth_error l i = Some c ->
  l = (firstn i l ++ c :: skipn (S i) l)%list /\
  list_set l i x = (firstn i l ++ x :: skipn (S i) l)%list.
Proof.
  revert i. induction l as [|y l IH]; intros [|i] E; simpl in *; try discriminate.
  - injection E as ->. split; reflexivity.
  - destruct (IH i E) as [E1 E2]. split; [now rewrite <- E1|now rewrite E2].
Qed.

Lemma map_list_set {A B} (f : A -> B) (l : list A) (i : nat) (c x : A) :
  nth_error l i = Some c -> f x = f c -> map f (list_set l i x) = map f l.
Proof.
  revert i. induction l as [|y l IH]; intros [|i] E F; simpl in *;
    try discriminate.
  - injection E as ->. now rewrite F.
  - now rewrite (IH i E F).
Qed.

(** X4. Toggling the selected chapter flips its [enabled] flag and nothing
    else: names, directories, images and all other chapters are as before,
    and toggling twice gives back the application. *)
Theorem toggle_chapter_involutive (self : App) (i : nat) (rest : list nat) :
  (i < List.length (chapters self))%nat ->
  exists self1,
    toggle_chapter self (i :: rest) = Some (self1, [i]) /\
    toggle_chapter self1 [i] = Some (self, [i]) /\
    map name (chapters self1) = map name (chapters self) /\
    map dir (chapters self1) = map dir (chapters self) /\
    map images (chapters self1) = map images (chapters self) /\
    (forall k, k <> i ->
       nth_error (chapters self1) k = nth_error (chapters self) k) /\
    option_map enabled (nth_error (chapters self1) i) =
    option_map negb (option_map enabled (nth_error (chapters self) i)).
Proof.
  intros Hi. unfold toggle_chapter at 1.
  destruct (nth_error (chapters self) i) as [ci|] eqn:Ei.
  2:{ apply nth_error_None in Ei. lia. }
  simpl. eexists. split; [reflexivity|].
  assert (Hi' := Hi). apply Nat.ltb_lt in Hi'.
  destruct (list_set_split (chapters self) i ci
              (set_enabled ci (negb (enabled ci))) Ei) as [S1 S2].
  split.
  - unfold toggle_chapter. rewrite chapters_set_chapters.
    rewrite nth_error_list_set, Nat.eqb_refl, Hi'. simpl.
    rewrite set_chapters_twice, negb_involutive.
    assert (L : list_set
                  (list_set (chapters self) i (set_enabled ci (negb (enabled ci))))
                  i (set_enabled (set_enabled ci (negb (enabled ci)))
                                 (enabled ci)) = chapters self).
    { apply nth_error_ext. intros k.
      rewrite !nth_error_list_set, !list_set_length.
      destruct (k =? i)%nat eqn:Ki; [|reflexivity].
      apply Nat.eqb_eq in Ki. subst k. rewrite Hi', Ei.
      now destruct ci. }
    now rewrite L, set_chapters_same.
  - rewrite chapters_set_chapters.
    repeat split.
    + now apply map_list_set with (c := ci).
    + now apply map_list_set with (c := ci).
    + now apply map_list_set with (c := ci).
    + intros k K. rewrite nth_error_list_set.
      apply Nat.eqb_neq in K. now rewrite K.
    + rewrite nth_error_list_set, Nat.eqb_refl, Hi'. reflexivity.
Qed.

Lemma toggle_chapter_involutive_witness :
  exists self1,
    toggle_chapter (app_with 1200 3 7 None five_chapters) [2%nat]
      = Some (self1, [2%nat]) /\
    toggle_chapter self1 [2%nat]
      = Some (app_with 1200 3 7 None five_chapters, [2%nat]).
Proof.
  destruct (toggle_chapter_involutive (app_with 1200 3 7 None five_chapters) 2 [])
    as (self1 & E1 & E2 & _).
  - simpl. lia.
  - exists self1. split; assumption.
Defined.

(** X5. Toggling a chapter takes it out of, or puts it into, the enabled
    chapters at its own place; the plan is made of the enabled chapters
    after the change, and its total of pages changes by exactly the
    chapter's page count. *)
Theorem toggle_chapter_plan (self : App) (i : nat) (rest : list nat)
        (c : Chapter) :
  nth_error (chapters self) i = Some c ->
  exists self',
    toggle_chapter self (i :: rest) = Some (self', [i]) /\
    let en := filter enabled (chapters self) in
    let en' := filter enabled (chapters self') in
    let before := filter enabled (firstn i (chapters self)) in
    let after := filter enabled (skipn (S i) (chapters self)) in
    en = (before ++ (if enabled c then [c] else []) ++ after)%list /\
    en' = (before ++ (if enabled c then [] else [set_enabled c true])
                  ++ after)%list /\
    concat (build_plan self') = en' /\
    total_pages (update_plan_view self') =
      total_pages (update_plan_view self)
      + (if enabled c then - pages c else pages c).
Proof.
  intros Ei. unfold toggle_chapter. rewrite Ei. unfold bind.
  eexists. split; [reflexivity|].
  destruct (list_set_split (chapters self) i c
              (set_enabled c (negb (enabled c))) Ei) as [S1 S2].
  cbv zeta. rewrite chapters_set_chapters.
  assert (F1 : filter enabled (chapters self) =
    (filter enabled (firstn i (chapters self))
     ++ (if enabled c then [c] else [])
     ++ filter enabled (skipn (S i) (chapters self)))%list).
  { rewrite S1 at 1. rewrite filter_app. simpl. now destruct (enabled c). }
  assert (F2 : filter enabled
                 (list_set (chapters self) i (set_enabled c (negb (enabled c)))) =
    (filter enabled (firstn i (chapters self))
     ++ (if enabled c then [] else [set_enabled c true])
     ++ filter enabled (skipn (S i) (chapters self)))%list).
  { rewrite S2, filter_app. simpl. now destruct (enabled c). }
  split; [exact F1|]. split; [exact F2|].
  split; [now rewrite build_plan_concat, chapters_set_chapters|].
  rewrite !total_pages_enabled, chapters_set_chapters, F2, F1.
  rewrite !map_app, !py_sum_app.
  destruct (enabled c); simpl; rewrite ?py_sum_cons; unfold py_sum; simpl;
    unfold pages; simpl; lia.
Qed.

Lemma toggle_chapter_plan_witness :
  exists self',
    toggle_chapter (app_with 1200 3 7 None five_chapters) [0%nat]
      = Some (self', [0%nat]) /\
    total_pages (update_plan_view self') = 3.
Proof.
  destruct (toggle_chapter_plan (app_with 1200 3 7 None five_chapters) 0 []
              (nth 0 five_chapters (new_Chapter "" [] [])))
    as (self' & E & _ & _ & _ & T).
  - reflexivity.
  - exists self'. split; [exact E|]. rewrite T. reflexivity.
Defined.

(** ** Flat mode, rescans and folder selection *)

Lemma scan_images_prior (self : App) (chs : list Chapter) (root : Node) :
  scan_images (set_chapters self chs) root = scan_images self root.
Proof.
  unfold scan_images. simpl.
  destruct (selected_folder self) as [folder|]; [|reflexivity].
  destruct (PROFILES (profile_key self)) as [profile|]; [|reflexivity].
  destruct (expects_subfolders profile && process_subfolders self).
  - destruct (iterdir (folder, root)) as [e|es]; [reflexivity|].
    now destruct (scan_subdirs profile _ []).
  - destruct (iterdir (folder, root)) as [e|es]; [reflexivity|].
    now destruct (image_files profile es).
Qed.

Lemma scan_images_shape (self : App) (root : Node) :
  fst (scan_images self root) =
  set_chapters self (chapters (fst (scan_images self root))).
Proof.
  unfold scan_images.
  destruct (selected_folder self) as [folder|]; [|reflexivity].
  destruct (PROFILES (profile_key self)) as [profile|]; [|reflexivity].
  destruct (expects_subfolders profile && process_subfolders self).
  - destruct (iterdir (folder, root)) as [e|es]; [reflexivity|].
    now destruct (scan_subdirs profile _ []).
  - destruct (iterdir (folder, root)) as [e|es]; [reflexivity|].
    now destruct (image_files profile es).
Qed.

Lemma chapter_of_fresh (profile : SourceProfile) (sub : Entry) :
  has_images profile sub = true -> fresh_chapter (chapter_of profile sub).
Proof.
  unfold has_images, fresh_chapter. intros H. split.
  - unfold chapter_of. now destruct (iterdir sub).
  - destruct (images (chapter_of profile sub)); [discriminate|discriminate].
Qed.

Lemma scan_images_fresh (self : App) (root : Node) :
  Forall fresh_chapter (chapters (fst (scan_images self root))).
Proof.
  unfold scan_images.
  destruct (selected_folder self) as [folder|]; [|constructor].
  destruct (PROFILES (profile_key self)) as [profile|]; [|constructor].
  destruct (expects_subfolders profile && process_subfolders self).
  - destruct (iterdir (folder, root)) as [e|es]; [constructor|].
    rewrite scan_subdirs_spec. simpl.
    apply Forall_forall. intros c Hc. apply in_map_iff in Hc.
    destruct Hc as (sub & <- & Hs). apply filter_In in Hs.
    now apply chapter_of_fresh.
  - destruct (iterdir (folder, root)) as [e|es]; [constructor|].
    destruct (image_files profile es) as [|f fs]; [constructor|].
    constructor; [|constructor]. split; [reflexivity|discriminate].
Qed.

Lemma filter_all {A} (f : A -> bool) (l : list A) :
  Forall (fun a => f a = true) l -> filter f l = l.
Proof.
  induction 1 as [|a l Ha _ IH]; simpl; [reflexivity|]. now rewrite Ha, IH.
Qed.



(** X7. A scan starts from scratch: its result does not depend on the
    chapter list before it, so manual reordering and exclusions are lost;
    scanning again changes nothing; every chapter it leaves is enabled and
    has at least one page, so the plan holds all of them.  Without a
    selected folder [rescan_if_ready] does nothing, and with one it is the
    scan. *)
Theorem scan_images_discards_edits (self : App) (chs : list Chapter)
        (root : Node) :
  let after := fst (scan_images self root) in
  scan_images (set_chapters self chs) root = scan_images self root /\
  scan_images after root = scan_images self root /\
  Forall fresh_chapter (chapters after) /\
  filter enabled (chapters after) = chapters after /\
  concat (build_plan after) = chapters after /\
  (selected_folder self = None ->
   rescan_if_ready (set_chapters self chs) root = (set_chapters self chs, None)) /\
  (selected_folder self <> None ->
   rescan_if_ready (set_chapters self chs) root = scan_images self root).
Proof.
  intros after.
  assert (F : Forall fresh_chapter (chapters after)) by apply scan_images_fresh.
  assert (E : filter enabled (chapters after) = chapters after).
  { apply filter_all. eapply Forall_impl; [|exact F]. now intros c [Hc _]. }
  split; [apply scan_images_prior|].
  split; [unfold after; rewrite scan_images_shape; apply scan_images_prior|].
  split; [exact F|]. split; [exact E|].
  split; [now rewrite build_plan_concat|].
  split.
  - intros N. unfold rescan_if_ready. simpl. now rewrite N.
  - intros N. unfold rescan_if_ready. simpl.
    destruct (selected_folder self); [apply scan_images_prior|congruence].
Qed.

Lemma scan_images_discards_edits_witness :
  rescan_if_ready (set_chapters flat_app five_chapters) (Dir true flat_entries)
  = scan_images flat_app (Dir true flat_entries).
Proof.
  apply (scan_images_discards_edits flat_app five_chapters (Dir true flat_entries)).
  discriminate.
Defined.






(** ** The run as a whole *)

Lemma work_done_app (a b : list event) :
  work_done (a ++ b) = (work_done a + work_done b)%nat.
Proof. unfold work_done. now rewrite filter_app, length_app. Qed.

Lemma packager_runs_app (a b : list event) :
  packager_runs (a ++ b) = (packager_runs a ++ packager_runs b)%list.
Proof.
  induction a as [|e a IH]; simpl; [reflexivity|].
  destruct e; simpl; now rewrite IH.
Qed.

Section RunFacts.
Context `{ImagingLib} (world : World) (self : App).

Lemma attempt_event (vol_tmp : Path) (np : Z * Path) :
  (exists img, attempt world self vol_tmp np =
               [SaveJpeg (page_file vol_tmp (fst np)) img (jpg_quality self)]) \/
  attempt world self vol_tmp np = [Log (MsgImageError (path_name (snd np)))].
Proof.
  unfold attempt, process_single_image_seq.
  destruct (Image_open world (snd np)) as [img|]; simpl; [|now right].
  destruct (resize_to_target self img) as [img1|]; simpl; [|now right].
  destruct (enhance_image self img1) as [img2|]; simpl; [|now right].
  fold (page_file vol_tmp (fst np)).
  destruct (Image_save_ok world (page_file vol_tmp (fst np))); simpl;
    [left; now exists img2|now right].
Qed.

Lemma attempt_work (vol_tmp : Path) (np : Z * Path) :
  work_done (attempt world self vol_tmp np) = 1%nat /\
  packager_runs (attempt world self vol_tmp np) = [].
Proof.
  destruct (attempt_event vol_tmp np) as [[img E]|E]; rewrite E; split;
    reflexivity.
Qed.

Lemma attempts_work (vol_tmp : Path) (l : list (Z * Path)) :
  work_done (flat_map (attempt world self vol_tmp) l) = List.length l /\
  packager_runs (flat_map (attempt world self vol_tmp) l) = [].
Proof.
  induction l as [|np l [IH1 IH2]]; simpl; [split; reflexivity|].
  destruct (attempt_work vol_tmp np) as [W P].
  rewrite work_done_app, packager_runs_app, W, P, IH1, IH2. split; reflexivity.
Qed.

Lemma numbered_length (s : Z) (l : list Path) :
  List.length (numbered s l) = List.length l.
Proof. revert s. induction l; intros s; simpl; auto. Qed.

Lemma numbered_In (s : Z) (l : list Path) (np : Z * Path) :
  In np (numbered s l) -> s <= fst np.
Proof.
  revert s. induction l as [|p l IH]; intros s; simpl; [tauto|].
  intros [<-|Hin]; simpl; [lia|]. apply IH in Hin. lia.
Qed.


Lemma export_volumes_uncancelled (series : string) (temp_dir : Path)
      (start_v : Z) (vols : list (nat * list Chapter)) :
  cancel_from world = None ->
  forall clock created,
    export_volumes world self series temp_dir start_v vols clock created =
    (flat_map (volume_events world self series temp_dir start_v) vols,
     created + packaged world temp_dir start_v vols).
Proof.
  intros N. induction vols as [|[idx vol] rest IH]; intros clock created.
  - simpl. unfold packaged. simpl. f_equal. lia.
  - cbn [export_volumes]. rewrite cancel_is_set_never by exact N.
    fold (vol_dir temp_dir (start_v + Z.of_nat idx)).
    set (vol_tmp := vol_dir temp_dir (start_v + Z.of_nat idx)).
    destruct (export_chapters_spec world self vol_tmp vol 1 (S clock))
      as (k & clock1 & _ & E & K).
    rewrite (K N), firstn_all in E. rewrite E.
    rewrite cancel_is_set_never by exact N.
    rewrite IH. cbn [flat_map].
    assert (V : volume_events world self series temp_dir start_v (idx, vol) =
      ([Rmtree vol_tmp; Mkdir vol_tmp]
       ++ flat_map (attempt world self vol_tmp)
                   (numbered 1 (volume_images vol))
       ++ [RunPackager vol_tmp
             (series ++ " - v" ++ fmt_d 2 (start_v + Z.of_nat idx))
             series (start_v + Z.of_nat idx)]
       ++ (if packager_ok world vol_tmp then []
           else [Log (MsgVolumeFailed (start_v + Z.of_nat idx))]))%list)
      by reflexivity.
    rewrite V. f_equal.
    + rewrite <- !app_assoc. reflexivity.
    + unfold packaged. cbn [filter fst]. fold vol_tmp.
      destruct (packager_ok world vol_tmp); cbn [List.length]; lia.
Qed.

Section Cancelled.
Variable c : nat.
Hypothesis cancelled : cancel_from world = Some c.

Lemma cancel_is_set_at (n : nat) : cancel_is_set world n = (c <=? n)%nat.
Proof. unfold cancel_is_set. now rewrite cancelled. Qed.

Lemma export_images_work (vol_tmp : Path) (imgs : list Path) :
  forall seq clock,
    let r := export_images world self imgs vol_tmp seq clock in
    let w := work_done (snd r) in
    (clock + w <= snd (fst r))%nat /\ ((0 < w)%nat -> (clock + w <= c)%nat).
Proof.
  induction imgs as [|img rest IH]; intros seq clock.
  - simpl. unfold work_done. simpl. lia.
  - cbn [export_images]. rewrite cancel_is_set_at.
    destruct (c <=? clock)%nat eqn:B.
    + simpl. unfold work_done. simpl. lia.
    + apply Nat.leb_gt in B.
      specialize (IH (seq + 1) (S clock)). cbv zeta in IH.
      destruct (export_images world self rest vol_tmp (seq + 1) (S clock))
        as [[seq' clock'] evs']. cbn [fst snd] in *.
      change (snd (process_single_image_seq world self img vol_tmp seq))
        with (attempt world self vol_tmp (seq, img)).
      rewrite work_done_app.
      destruct (attempt_work vol_tmp (seq, img)) as [W _]. rewrite W. lia.
Qed.

Lemma export_chapters_work (vol_tmp : Path) (vol : list Chapter) :
  forall seq clock,
    let r := export_chapters world self vol vol_tmp seq clock in
    let w := work_done (snd r) in
    (clock + w <= snd (fst r))%nat /\ ((0 < w)%nat -> (clock + w <= c)%nat).
Proof.
  induction vol as [|ch rest IH]; intros seq clock.
  - simpl. unfold work_done. simpl. lia.
  - cbn [export_chapters].
    pose proof (export_images_work vol_tmp (images ch) seq clock) as I.
    cbv zeta in I.
    destruct (export_images world self (images ch) vol_tmp seq clock)
      as [[seq1 clock1] evs]. cbn [fst snd] in I.
    rewrite cancel_is_set_at.
    destruct (c <=? clock1)%nat eqn:B.
    + cbn [fst snd]. lia.
    + apply Nat.leb_gt in B.
      specialize (IH seq1 (S clock1)). cbv zeta in IH.
      destruct (export_chapters world self rest vol_tmp seq1 (S clock1))
        as [[seq2 clock2] evs']. cbn [fst snd] in *.
      rewrite work_done_app. lia.
Qed.

Lemma export_volumes_work (series : string) (temp_dir : Path) (start_v : Z)
      (vols : list (nat * list Chapter)) :
  forall clock created,
    let w := work_done (fst (export_volumes world self series temp_dir
                               start_v vols clock created)) in
    (0 < w)%nat -> (clock + w <= c)%nat.
Proof.
  induction vols as [|[idx vol] rest IH]; intros clock created.
  - simpl. unfold work_done. simpl. lia.
  - cbn [export_volumes]. rewrite cancel_is_set_at.
    destruct (c <=? clock)%nat eqn:B.
    + simpl. unfold work_done. simpl. lia.
    + apply Nat.leb_gt in B.
      set (vol_tmp := path_join temp_dir _).
      pose proof (export_chapters_work vol_tmp vol 1 (S clock)) as I.
      cbv zeta in I.
      destruct (export_chapters world self vol vol_tmp 1 (S clock))
        as [[seq1 clock1] evs]. cbn [fst snd] in I.
      rewrite cancel_is_set_at.
      destruct (c <=? clock1)%nat eqn:B1.
      * cbn [fst]. rewrite !work_done_app.
        change (work_done [Rmtree vol_tmp; Mkdir vol_tmp]) with 0%nat.
        change (work_done [Log MsgCancelledAfterExport]) with 0%nat. lia.
      * apply Nat.leb_gt in B1.
        specialize (IH (S clock1)
                       (if packager_ok world vol_tmp then created + 1
                        else created)).
        cbv zeta in IH.
        destruct (export_volumes world self series temp_dir start_v rest
                    (S clock1) _) as [evs' created'].
        cbn [fst] in *. rewrite !work_done_app.
        change (work_done [Rmtree vol_tmp; Mkdir vol_tmp]) with 0%nat.
        assert (W0 : work_done (if packager_ok world vol_tmp then []
                                else [Log (MsgVolumeFailed
                                             (start_v + Z.of_nat idx))]) = 0%nat)
          by now destruct (packager_ok world vol_tmp).
        rewrite W0.
        change (work_done [RunPackager vol_tmp
                             (series ++ " - v" ++ fmt_d 2 (start_v + Z.of_nat idx))
                             series (start_v + Z.of_nat idx)]) with 1%nat.
        lia.
Qed.

End Cancelled.


Lemma attempts_confined (lo hi vnum : Z) (vol_tmp : Path) (l : list (Z * Path)) :
  lo <= vnum < hi ->
  vol_tmp = vol_dir (path_join (base_path self) "temp") vnum ->
  Forall (fun np => 1 <= fst np) l ->
  Forall (confined self lo hi) (flat_map (attempt world self vol_tmp) l).
Proof.
  intros R -> F. induction F as [|np l Hn _ IH]; simpl; [constructor|].
  apply Forall_app. split; [|exact IH].
  destruct (attempt_event (vol_dir (path_join (base_path self) "temp") vnum) np)
    as [[img E]|E]; rewrite E.
  - constructor; [|constructor]. simpl. split; [reflexivity|].
    exists vnum, (fst np). auto.
  - constructor; [|constructor]. exact I.
Qed.

Lemma export_volumes_confined (series : string) (start_v hi : Z)
      (vols : list (nat * list Chapter)) :
  Forall (fun iv => start_v + Z.of_nat (fst iv) < hi) vols ->
  forall clock created,
    Forall (confined self start_v hi)
      (fst (export_volumes world self series
              (path_join (base_path self) "temp") start_v vols clock created)).
Proof.
  induction 1 as [|[idx vol] rest Hi _ IH]; intros clock created.
  - constructor.
  - cbn [export_volumes]. cbn [fst] in Hi.
    destruct (cancel_is_set world clock);
      [constructor; [exact I|constructor]|].
    fold (vol_dir (path_join (base_path self) "temp") (start_v + Z.of_nat idx)).
    set (vol_tmp := vol_dir _ (start_v + Z.of_nat idx)).
    assert (R : start_v <= start_v + Z.of_nat idx < hi) by lia.
    destruct (export_chapters_spec world self vol_tmp vol 1 (S clock))
      as (k & clock1 & _ & E & _).
    rewrite E.
    assert (Pre : Forall (confined self start_v hi)
                    ([Rmtree vol_tmp; Mkdir vol_tmp]
                     ++ flat_map (attempt world self vol_tmp)
                          (numbered 1 (firstn k (volume_images vol))))).
    { apply Forall_app. split.
      - constructor; [|constructor; [|constructor]]; simpl; right; right;
          exists (start_v + Z.of_nat idx); auto.
      - apply (attempts_confined start_v hi (start_v + Z.of_nat idx));
          [exact R|reflexivity|].
        apply Forall_forall. intros np Hin. now apply numbered_In in Hin. }
    destruct (cancel_is_set world clock1).
    + cbn [fst]. apply Forall_app. split; [exact Pre|].
      constructor; [exact I|constructor].
    + specialize (IH (S clock1)
                     (if packager_ok world vol_tmp then created + 1
                      else created)).
      destruct (export_volumes world self series _ start_v rest (S clock1) _)
        as [evs' created'].
      cbn [fst] in *. apply Forall_app. split; [exact Pre|].
      apply Forall_app. split.
      * constructor; [|constructor]. simpl. auto.
      * apply Forall_app. split; [|exact IH].
        destruct (packager_ok world vol_tmp); [constructor|].
        constructor; [exact I|constructor].
Qed.

Lemma export_volumes_packaging (series : string) (temp_dir : Path)
      (start_v : Z) (vols : list (nat * list Chapter)) :
  forall clock created,
  exists m,
    (m <= List.length vols)%nat /\
    packager_runs (fst (export_volumes world self series temp_dir start_v
                          vols clock created)) =
      map (packager_call series temp_dir start_v) (firstn m vols) /\
    snd (export_volumes world self series temp_dir start_v vols clock created)
      = created + packaged world temp_dir start_v (firstn m vols) /\
    (cancel_from world = None -> m = List.length vols).
Proof.
  induction vols as [|[idx vol] rest IH]; intros clock created.
  - exists 0%nat. simpl. unfold packaged. simpl.
    repeat split; auto; lia.
  - cbn [export_volumes].
    destruct (cancel_is_set world clock) eqn:B.
    { exists 0%nat. simpl. unfold packaged. simpl.
      repeat split; try lia.
      intros N. rewrite cancel_is_set_never in B by exact N. discriminate. }
    fold (vol_dir temp_dir (start_v + Z.of_nat idx)).
    set (vol_tmp := vol_dir temp_dir (start_v + Z.of_nat idx)).
    destruct (export_chapters_spec world self vol_tmp vol 1 (S clock))
      as (k & clock1 & _ & E & _).
    rewrite E.
    destruct (attempts_work vol_tmp (numbered 1 (firstn k (volume_images vol))))
      as [_ P0].
    destruct (cancel_is_set world clock1) eqn:B1.
    { exists 0%nat. cbn [fst snd firstn map].
      rewrite !packager_runs_app, P0. unfold packaged. simpl.
      repeat split; try lia.
      intros N. rewrite cancel_is_set_never in B1 by exact N. discriminate. }
    destruct (IH (S clock1)
                 (if packager_ok world vol_tmp then created + 1 else created))
      as (m & Hm & Pr & Cr & Nn).
    destruct (export_volumes world self series temp_dir start_v rest
                (S clock1) _) as [evs' created'].
    cbn [fst snd] in *. exists (S m).
    split; [simpl; lia|]. split; [|split].
    + rewrite !packager_runs_app, P0.
      assert (F : packager_runs
                    (if packager_ok world vol_tmp then []
                     else [Log (MsgVolumeFailed (start_v + Z.of_nat idx))]) = [])
        by now destruct (packager_ok world vol_tmp).
      rewrite F, Pr. reflexivity.
    + rewrite Cr. unfold packaged. cbn [firstn filter fst]. fold vol_tmp.
      destruct (packager_ok world vol_tmp); cbn [List.length]; lia.
    + intros N. simpl. now rewrite (Nn N).
Qed.

End RunFacts.

Lemma string_append_inv_head (s x y : string) :
  (s ++ x)%string = (s ++ y)%string -> x = y.
Proof.
  induction s as [|a s IH]; simpl; intros E; [exact E|].
  injection E as E. now apply IH.
Qed.

Lemma vol_dir_inj (temp_dir : Path) (a b : Z) :
  0 <= a -> 0 <= b -> vol_dir temp_dir a = vol_dir temp_dir b -> a = b.
Proof.
  unfold vol_dir, path_join. intros Ha Hb E.
  apply app_inv_head in E. injection E as E.
  now apply (fmt_d_inj 2).
Qed.

Lemma vol_name_inj (series : string) (a b : Z) :
  0 <= a -> 0 <= b -> vol_name series a = vol_name series b -> a = b.
Proof.
  unfold vol_name. intros Ha Hb E.
  apply string_append_inv_head in E. injection E as E.
  now apply (fmt_d_inj 2).
Qed.

Lemma NoDup_map_on {A B} (f : A -> B) (l : list A) :
  (forall x y, In x l -> In y l -> f x = f y -> x = y) ->
  NoDup l -> NoDup (map f l).
Proof.
  intros Inj N. induction N as [|a l Ha N IH]; simpl; constructor.
  - intros Hin. apply in_map_iff in Hin. destruct Hin as (y & E & Hy).
    assert (y = a) by (apply Inj; simpl; auto). now subst.
  - apply IH. intros x y Hx Hy. apply Inj; simpl; auto.
Qed.

Lemma enumerate_firstn {A} (l : list A) (m : nat) :
  map fst (firstn m (enumerate l)) = seq 0 (Nat.min m (List.length l)).
Proof.
  unfold enumerate. rewrite <- firstn_map.
  assert (E : map fst (combine (seq 0 (List.length l)) l) =
              seq 0 (List.length l)).
  { generalize 0%nat. induction l as [|a l IH]; intros s; simpl;
      [reflexivity|]. now rewrite IH. }
  rewrite E. generalize 0%nat as s. generalize (List.length l) as n.
  induction m as [|m IH]; intros n s; simpl; [reflexivity|].
  destruct n; simpl; [reflexivity|]. now rewrite IH.
Qed.

Lemma worker_run `{ImagingLib} (world : World) (self : App) (folder : Path) :
  selected_folder self = Some folder -> build_plan self <> [] ->
  let plan := build_plan self in
  let r := export_volumes world self (series_of self folder)
             (path_join (base_path self) "temp")
             (Z.max 1 (start_volume self)) (enumerate plan) 0%nat 0 in
  _process_plan_worker world self =
  (run_setup self
   ++ [Log (MsgStart (Z.of_nat (List.length plan)) (series_of self folder))]
   ++ fst r ++ [Log (MsgDone (snd r))])%list.
Proof.
  intros Hf Hp. cbv zeta. unfold _process_plan_worker. rewrite Hf.
  destruct (build_plan self) as [|v plan] eqn:E; [congruence|].
  fold (series_of self folder).
  destruct (export_volumes world self (series_of self folder)
              (path_join (base_path self) "temp")
              (Z.max 1 (start_volume self)) (enumerate (v :: plan)) 0%nat 0)
    as [evs created].
  unfold run_setup. cbn [fst snd]. rewrite <- !app_assoc. reflexivity.
Qed.

(** X9. A run that is never cancelled.  After the preparation of the
    directories and the start message, every volume of the plan, in order,
    has its staging folder emptied and created, all its pages attempted
    under the numbers 1, 2, ..., and is handed to the packager; a failure of
    the packager is logged and the run goes on; the final message counts
    the volumes packaged successfully. *)
Theorem worker_uncancelled_run `{ImagingLib} (world : World) (self : App)
        (folder : Path) :
  cancel_from world = None ->
  selected_folder self = Some folder ->
  build_plan self <> [] ->
  let plan := build_plan self in
  let temp_dir := path_join (base_path self) "temp" in
  let start_v := Z.max 1 (start_volume self) in
  let series := series_of self folder in
  _process_plan_worker world self =
  (run_setup self
   ++ [Log (MsgStart (Z.of_nat (List.length plan)) series)]
   ++ flat_map (volume_events world self series temp_dir start_v)
               (enumerate plan)
   ++ [Log (MsgDone (packaged world temp_dir start_v (enumerate plan)))])%list.
Proof.
  intros N Hf Hp. cbv zeta. rewrite (worker_run world self folder Hf Hp).
  cbv zeta. rewrite export_volumes_uncancelled by exact N. reflexivity.
Qed.

Lemma worker_uncancelled_run_witness :
  saved_paths
    (@_process_plan_worker toy_lib damaged_world
       (app_with 1200 10 3 (Some ["manga"%string])
          [new_Chapter "Chapter 1" ["manga"; "Chapter 1"]%string three_pages])) =
  [["."; "temp"; "vol_03"; "00001.jpg"]; ["."; "temp"; "vol_03"; "00003.jpg"]]%string.
Proof.
  rewrite (@worker_uncancelled_run toy_lib damaged_world
             (app_with 1200 10 3 (Some ["manga"%string])
                [new_Chapter "Chapter 1" ["manga"; "Chapter 1"]%string three_pages])
             ["manga"%string]); [reflexivity|reflexivity|reflexivity|discriminate].
Defined.

(** X10. Cancellation.  If the cancel flag reads as set from the look
    number [c] on, the run attempts at most [c] pages and packagings
    altogether; cancelled before its first look it writes no page and
    packages nothing, and it still ends with the summary. *)
Theorem worker_cancel_bounds_work `{ImagingLib} (world : World) (self : App)
        (c : nat) :
  cancel_from world = Some c ->
  (work_done (_process_plan_worker world self) <= c)%nat /\
  (c = 0%nat ->
   saved_paths (_process_plan_worker world self) = [] /\
   packager_runs (_process_plan_worker world self) = [] /\
   forall folder,
     selected_folder self = Some folder -> build_plan self <> [] ->
     _process_plan_worker world self =
     (run_setup self
      ++ [Log (MsgStart (Z.of_nat (List.length (build_plan self)))
                        (series_of self folder));
          Log MsgCancelled; Log (MsgDone 0)])%list).
Proof.
  intros C.
  assert (W : (work_done (_process_plan_worker world self) <= c)%nat).
  { destruct (selected_folder self) as [folder|] eqn:Hf.
    2:{ unfold _process_plan_worker. rewrite Hf. unfold work_done. simpl. lia. }
    destruct (build_plan self) as [|v plan] eqn:Hp.
    { unfold _process_plan_worker. rewrite Hf, Hp. unfold work_done. simpl.
      lia. }
    assert (Hp' : build_plan self <> []) by congruence.
    rewrite (worker_run world self folder Hf Hp'). cbv zeta.
    pose proof (export_volumes_work world self c C (series_of self folder)
                  (path_join (base_path self) "temp")
                  (Z.max 1 (start_volume self)) (enumerate (build_plan self))
                  0%nat 0) as B.
    cbv zeta in B. rewrite !work_done_app.
    assert (S0 : work_done (run_setup self) = 0%nat).
    { unfold run_setup.
      now destruct (clean_temp_before self), (clean_ebooks_before self). }
    rewrite S0. unfold work_done at 1 3. simpl. lia. }
  split; [exact W|]. intros ->.
  assert (F : filter is_work (_process_plan_worker world self) = []).
  { apply length_zero_iff_nil. unfold work_done in W. lia. }
  split; [|split].
  - clear W. induction (_process_plan_worker world self) as [|e l IH];
      [reflexivity|].
    simpl in F. destruct e as [m|p|p|out img q|f o s v]; simpl in *;
      try discriminate; try (now apply IH).
    destruct m; try discriminate; now apply IH.
  - clear W. induction (_process_plan_worker world self) as [|e l IH];
      [reflexivity|].
    simpl in F. destruct e as [m|p|p|out img q|f o s v]; simpl in *;
      try discriminate; try (now apply IH).
    destruct m; try discriminate; now apply IH.
  - intros folder Hf Hp. rewrite (worker_run world self folder Hf Hp).
    cbv zeta. destruct (build_plan self) as [|v plan]; [congruence|].
    unfold enumerate. cbn [List.length seq combine export_volumes].
    unfold cancel_is_set. rewrite C. reflexivity.
Qed.

Lemma worker_cancel_bounds_work_witness :
  (work_done
     (@_process_plan_worker toy_lib cancelling_world
        (app_with 1200 10 3 (Some ["manga"%string])
           [new_Chapter "Chapter 1" ["manga"; "Chapter 1"]%string three_pages]))
   <= 2)%nat /\
  saved_paths
     (@_process_plan_worker toy_lib cancelling_world
        (app_with 1200 10 3 (Some ["manga"%string])
           [new_Chapter "Chapter 1" ["manga"; "Chapter 1"]%string three_pages]))
  = [["."; "temp"; "vol_03"; "00001.jpg"]]%string.
Proof.
  split; [|reflexivity].
  apply (@worker_cancel_bounds_work toy_lib cancelling_world _ 2). reflexivity.
Defined.

(** X11. A run touches the file system only under the program's own
    directories: it removes and creates [temp], [ebooks] and the staging
    folders [temp/vol_NN] of planned volume numbers, writes pages only as
    [temp/vol_NN/NNNNN.jpg], with the configured quality, and packages only
    staging folders, under the name of the series followed by [ - vNN]. *)
Theorem worker_effects_confined `{ImagingLib} (world : World) (self : App) :
  let start_v := Z.max 1 (start_volume self) in
  let n := Z.of_nat (List.length (build_plan self)) in
  Forall (confined self start_v (start_v + n)) (_process_plan_worker world self).
Proof.
  cbv zeta.
  destruct (selected_folder self) as [folder|] eqn:Hf.
  2:{ unfold _process_plan_worker. rewrite Hf. constructor; [exact I|constructor]. }
  destruct (build_plan self) as [|v plan] eqn:Hp.
  { unfold _process_plan_worker. rewrite Hf, Hp.
    constructor; [exact I|constructor]. }
  assert (Hp' : build_plan self <> []) by congruence.
  rewrite (worker_run world self folder Hf Hp'). cbv zeta. rewrite Hp.
  apply Forall_app. split.
  - unfold run_setup.
    destruct (clean_temp_before self), (clean_ebooks_before self);
      repeat (constructor; [simpl; tauto|]); constructor.
  - apply Forall_app. split; [constructor; [exact I|constructor]|].
    apply Forall_app. split; [|constructor; [exact I|constructor]].
    apply export_volumes_confined.
    apply Forall_forall. intros [idx vol] Hin. cbn [fst].
    apply (in_map fst) in Hin. rewrite enumerate_map_fst in Hin.
    apply in_seq in Hin. cbn [fst] in Hin. lia.
Qed.

Lemma worker_effects_confined_witness :
  Forall (confined (app_with 1200 2 7 (Some ["manga"%string]) five_chapters)
            7 (7 + 2))
    (@_process_plan_worker toy_lib damaged_world
       (app_with 1200 2 7 (Some ["manga"%string]) five_chapters)).
Proof.
  exact (@worker_effects_confined toy_lib damaged_world
           (app_with 1200 2 7 (Some ["manga"%string]) five_chapters)).
Defined.

(** X12. The packager is called for the first volumes of the plan, in
    order (for all of them when the run is not cancelled), with the volume
    numbers [start_v], [start_v + 1], ...; no two calls share a staging
    folder or an output name; the run ends with the summary, and its count
    is the number of successful calls. *)
Theorem worker_packaging `{ImagingLib} (world : World) (self : App)
        (folder : Path) :
  selected_folder self = Some folder ->
  build_plan self <> [] ->
  let plan := build_plan self in
  let temp_dir := path_join (base_path self) "temp" in
  let start_v := Z.max 1 (start_volume self) in
  let series := series_of self folder in
  let runs := packager_runs (_process_plan_worker world self) in
  exists m,
    (m <= List.length plan)%nat /\
    runs = map (packager_call series temp_dir start_v)
               (firstn m (enumerate plan)) /\
    map (fun r => snd r) runs = Z_range start_v m /\
    NoDup (map (fun r => fst (fst (fst r))) runs) /\
    NoDup (map (fun r => snd (fst (fst r))) runs) /\
    last (_process_plan_worker world self) (Log MsgNoChapters) =
      Log (MsgDone (packaged world temp_dir start_v (firstn m (enumerate plan)))) /\
    0 <= packaged world temp_dir start_v (firstn m (enumerate plan))
      <= Z.of_nat m /\
    (cancel_from world = None -> m = List.length plan).
Proof.
  intros Hf Hp. cbv zeta. rewrite (worker_run world self folder Hf Hp).
  cbv zeta.
  destruct (export_volumes_packaging world self (series_of self folder)
              (path_join (base_path self) "temp")
              (Z.max 1 (start_volume self)) (enumerate (build_plan self))
              0%nat 0) as (m & Hm & Pr & Cr & Nn).
  assert (Le : List.length (enumerate (build_plan self)) =
               List.length (build_plan self)).
  { rewrite <- (length_map fst), enumerate_map_fst. apply length_seq. }
  rewrite Le in Hm, Nn.
  exists m. split; [exact Hm|].
  assert (R : packager_runs
                (run_setup self
                 ++ [Log (MsgStart (Z.of_nat (List.length (build_plan self)))
                                   (series_of self folder))]
                 ++ fst (export_volumes world self (series_of self folder)
                           (path_join (base_path self) "temp")
                           (Z.max 1 (start_volume self))
                           (enumerate (build_plan self)) 0%nat 0)
                 ++ [Log (MsgDone
                            (snd (export_volumes world self
                                    (series_of self folder)
                                    (path_join (base_path self) "temp")
                                    (Z.max 1 (start_volume self))
                                    (enumerate (build_plan self)) 0%nat 0)))])
              = map (packager_call (series_of self folder)
                       (path_join (base_path self) "temp")
                       (Z.max 1 (start_volume self)))
                    (firstn m (enumerate (build_plan self)))).
  { rewrite !packager_runs_app, Pr.
    assert (S0 : packager_runs (run_setup self) = []).
    { unfold run_setup.
      now destruct (clean_temp_before self), (clean_ebooks_before self). }
    rewrite S0. simpl. now rewrite app_nil_r. }
  rewrite R.
  assert (Ix : map fst (firstn m (enumerate (build_plan self))) = seq 0 m).
  { rewrite enumerate_firstn. f_equal. lia. }
  assert (V : map (fun r : Path * string * string * Z => snd r)
                (map (packager_call (series_of self folder)
                        (path_join (base_path self) "temp")
                        (Z.max 1 (start_volume self)))
                     (firstn m (enumerate (build_plan self)))) =
              Z_range (Z.max 1 (start_volume self)) m).
  { rewrite map_map. unfold Z_range. rewrite <- Ix, map_map. reflexivity. }
  assert (ND : NoDup (Z_range (Z.max 1 (start_volume self)) m)).
  { unfold Z_range. apply NoDup_map_on; [|apply seq_NoDup].
    intros x y _ _ E. lia. }
  assert (Pos : forall v, In v (Z_range (Z.max 1 (start_volume self)) m) ->
                          0 <= v).
  { intros v Hv. unfold Z_range in Hv. apply in_map_iff in Hv.
    destruct Hv as (k & <- & _). lia. }
  split; [reflexivity|]. split; [exact V|].
  split; [|split; [|split; [|split]]].
  - rewrite map_map.
    replace (map (fun x => fst (fst (fst (packager_call (series_of self folder)
                        (path_join (base_path self) "temp")
                        (Z.max 1 (start_volume self)) x))))
                 (firstn m (enumerate (build_plan self))))
      with (map (vol_dir (path_join (base_path self) "temp"))
              (Z_range (Z.max 1 (start_volume self)) m)).
    + apply NoDup_map_on; [|exact ND].
      intros x y Hx Hy. apply vol_dir_inj; auto.
    + unfold Z_range. rewrite <- Ix, !map_map. reflexivity.
  - rewrite map_map.
    replace (map (fun x => snd (fst (fst (packager_call (series_of self folder)
                        (path_join (base_path self) "temp")
                        (Z.max 1 (start_volume self)) x))))
                 (firstn m (enumerate (build_plan self))))
      with (map (vol_name (series_of self folder))
              (Z_range (Z.max 1 (start_volume self)) m)).
    + apply NoDup_map_on; [|exact ND].
      intros x y Hx Hy. apply vol_name_inj; auto.
    + unfold Z_range. rewrite <- Ix, !map_map. reflexivity.
  - rewrite !app_assoc, last_last, Cr. reflexivity.
  - unfold packaged.
    pose proof (filter_length_le
                  (fun iv : nat * list Chapter =>
                     packager_ok world
                       (vol_dir (path_join (base_path self) "temp")
                          (Z.max 1 (start_volume self) + Z.of_nat (fst iv))))
                  (firstn m (enumerate (build_plan self)))) as L.
    rewrite length_firstn in L. lia.
  - exact Nn.
Qed.

Lemma worker_packaging_witness :
  exists m,
    (m <= 2)%nat /\
    packager_runs
      (@_process_plan_worker toy_lib damaged_world
         (app_with 1200 2 7 (Some ["manga"%string]) five_chapters)) =
    map (packager_call "manga" ["."; "temp"]%string 7)
        (firstn m
           (enumerate
              (build_plan
                 (app_with 1200 2 7 (Some ["manga"%string]) five_chapters)))).
Proof.
  destruct (@worker_packaging toy_lib damaged_world
              (app_with 1200 2 7 (Some ["manga"%string]) five_chapters)
              ["manga"%string]) as (m & Hm & E & _).
  - reflexivity.
  - discriminate.
  - exists m. split; [exact Hm|exact E].
Defined.

(** ** Pages without contrast and colour order *)

Lemma otsu_fold_skip (N S : Z) (l : list (Z * Z)) :
  forall st,
    (forall pre ih post, l = (pre ++ ih :: post)%list ->
       let q := q1 st + py_sum (map snd pre) + snd ih in q = 0 \/ q = N) ->
    max_val (fold_left (otsu_step N S) l st) = max_val st.
Proof.
  induction l as [|[i h] l IH]; intros st Hq; [reflexivity|].
  cbn [fold_left].
  assert (Q : q1 st + h = 0 \/ q1 st + h = N).
  { specialize (Hq [] (i, h) l eq_refl). cbv zeta in Hq.
    cbn [map snd] in Hq. unfold py_sum in Hq. simpl in Hq. lia. }
  assert (St : otsu_step N S st (i, h) =
               mkOtsu (q1 st + h) (s1 st + i * h) (max_num st) (max_den st)
                      (max_val st)).
  { unfold otsu_step.
    destruct ((q1 st + h =? 0) || (N - (q1 st + h) =? 0)) eqn:B;
      [reflexivity|].
    apply orb_false_iff in B. destruct B as [B1 B2].
    apply Z.eqb_neq in B1, B2. lia. }
  rewrite St, IH; [reflexivity|].
  intros pre ih post E. cbv zeta. cbn [q1].
  specialize (Hq ((i, h) :: pre) ih post). cbv zeta in Hq.
  cbn [map snd] in Hq. rewrite py_sum_cons in Hq.
  assert (Hq' := Hq (f_equal (cons (i, h)) E)).
  replace (q1 st + h + py_sum (map snd pre) + snd ih)
    with (q1 st + (h + py_sum (map snd pre)) + snd ih) by lia.
  exact Hq'.
Qed.

Lemma count_occ_flat (v : Z) (L : list Z) (i : Z) :
  Forall (fun x => x = v) L ->
  count_occ Z.eq_dec L i = if Z.eq_dec i v then List.length L else 0%nat.
Proof.
  induction 1 as [|x L Hx _ IH]; simpl.
  - now destruct (Z.eq_dec i v).
  - subst x. rewrite IH.
    destruct (Z.eq_dec v i), (Z.eq_dec i v); congruence.
Qed.

Lemma sum_counts_flat (v : Z) (n : nat) (G : list Z) :
  NoDup G ->
  py_sum (map (fun i => Z.of_nat (if Z.eq_dec i v then n else 0%nat)) G) =
  if in_dec Z.eq_dec v G then Z.of_nat n else 0.
Proof.
  induction 1 as [|g G Hg _ IH]; [reflexivity|].
  cbn [map]. rewrite py_sum_cons, IH.
  destruct (Z.eq_dec g v) as [->|Ne].
  - destruct (in_dec Z.eq_dec v G); [contradiction|].
    destruct (in_dec Z.eq_dec v (v :: G)) as [_|No]; [lia|].
    exfalso. apply No. now left.
  - destruct (in_dec Z.eq_dec v G) as [Hin|No];
      destruct (in_dec Z.eq_dec v (g :: G)) as [Hin'|No']; try lia.
    + exfalso. apply No'. now right.
    + destruct Hin' as [->|Hin']; [congruence|contradiction].
Qed.

Lemma gray_levels_NoDup : NoDup gray_levels.
Proof.
  unfold gray_levels. apply NoDup_map_on; [|apply seq_NoDup].
  intros x y _ _ E. lia.
Qed.

Lemma flat_page_concat (v : Z) (img : image) :
  flat_page v img -> Forall (fun x => x = v) (concat (cvtColor_BGR2GRAY img)).
Proof.
  unfold flat_page, cvtColor_BGR2GRAY.
  induction 1 as [|row img Hr _ IH]; simpl; [constructor|].
  apply Forall_app. split; [|exact IH].
  apply Forall_map. exact Hr.
Qed.

Lemma otsu_of_flat (v : Z) (img : image) : flat_page v img -> otsu_of img = 0.
Proof.
  intros F. apply flat_page_concat in F.
  unfold otsu_of, getThreshVal_Otsu, otsu_sweep, histogram.
  set (L := concat (cvtColor_BGR2GRAY img)) in *.
  rewrite combine_map_self.
  set (f := fun i : Z => (i, Z.of_nat (count_occ Z.eq_dec L i))).
  set (N := py_sum (map snd (map f gray_levels))).
  rewrite otsu_fold_skip; [reflexivity|].
  intros pre ih post E. cbv zeta. cbn [q1].
  assert (C : forall G, map snd (map f G) =
                map (fun i => Z.of_nat (if Z.eq_dec i v then List.length L
                                        else 0%nat)) G).
  { intros G. rewrite map_map. apply map_ext. intros i. unfold f. cbn [snd].
    now rewrite (count_occ_flat v L i F). }
  apply map_eq_app in E. destruct E as (G1 & G2' & EG & E1 & E2).
  destruct G2' as [|g G2]; [discriminate|]. cbn [map] in E2.
  injection E2 as Eg E2. subst pre ih.
  assert (ND : NoDup gray_levels) by apply gray_levels_NoDup.
  assert (Q : py_sum (map snd (map f G1)) + snd (f g) =
              py_sum (map snd (map f (G1 ++ [g])))).
  { rewrite !map_app, py_sum_app. cbn [map]. rewrite py_sum_cons.
    unfold py_sum at 3. simpl. lia. }
  rewrite <- Z.add_assoc, Q. unfold N. rewrite !C.
  assert (ND1 : NoDup (G1 ++ [g])).
  { rewrite EG in ND.
    replace (G1 ++ g :: G2)%list with ((G1 ++ [g]) ++ G2)%list in ND
      by now rewrite <- app_assoc.
    now apply NoDup_app_remove_r in ND. }
  rewrite !sum_counts_flat by assumption.
  destruct (in_dec Z.eq_dec v (G1 ++ [g])) as [Hin|_]; [|lia].
  destruct (in_dec Z.eq_dec v gray_levels) as [_|No]; [lia|].
  exfalso. apply No. rewrite EG. apply in_app_iff in Hin.
  apply in_app_iff. destruct Hin as [Hin|[->|[]]]; [now left|right; now left].
Qed.

Lemma auto_trim_and_pad_none (img : image) (P : nat) :
  trim_rect img = None -> _auto_trim_and_pad img P = img.
Proof.
  intros E. unfold trim_rect in E. unfold _auto_trim_and_pad. now rewrite E.
Qed.

Lemma bounding_rect_blank {A} (p : A -> bool) (m : list (list A)) :
  Forall (Forall (fun a => p a = false)) m -> bounding_rect p m = None.
Proof.
  intros F. unfold bounding_rect.
  assert (R : span (row_any p m) = None).
  { unfold span.
    assert (E : existsb (fun b : bool => b) (row_any p m) = false).
    { unfold row_any. induction F as [|row m Hr _ IH]; [reflexivity|].
      cbn [map existsb]. rewrite IH, orb_false_r.
      clear IH. induction Hr as [|a row Ha _ IH]; [reflexivity|].
      cbn [existsb]. now rewrite Ha, IH. }
    now rewrite E. }
  rewrite R. destruct (span (col_any p m)) as [[x w]|]; reflexivity.
Qed.

Lemma span_full (n : nat) : (1 <= n)%nat -> span (repeat true n) = Some (0%nat, n).
Proof.
  intros Hn. destruct n as [|n]; [lia|].
  unfold span. rewrite rev_repeat, repeat_length. cbn; repeat f_equal; lia.
Qed.

Lemma orb_vec_full (n : nat) :
  orb_vec (repeat true n) (repeat true n) = repeat true n.
Proof. induction n; simpl; [reflexivity|]. now rewrite IHn. Qed.

Lemma map_all_true {A} (p : A -> bool) (row : list A) :
  Forall (fun a => p a = true) row ->
  map p row = repeat true (List.length row).
Proof.
  induction 1 as [|a row Ha _ IH]; [reflexivity|].
  cbn [map List.length repeat]. now rewrite Ha, IH.
Qed.

Lemma bounding_rect_full {A} (p : A -> bool) (W : nat) (m : list (list A)) :
  Forall (Forall (fun a => p a = true)) m ->
  Forall (fun row => List.length row = W) m ->
  m <> [] -> (1 <= W)%nat ->
  bounding_rect p m = Some (0%nat, 0%nat, W, List.length m).
Proof.
  intros F L Ne HW.
  assert (Row : forall row, Forall (fun a => p a = true) row ->
                            List.length row = W -> map p row = repeat true W).
  { intros row Hr E. rewrite <- E. now apply map_all_true. }
  assert (C : col_any p m = repeat true W).
  { destruct m as [|r0 m]; [congruence|]. clear Ne.
    revert r0 F L. induction m as [|r1 m IH]; intros r0 F L.
    - cbn. rewrite orb_vec_nil_r.
      apply Row; [exact (Forall_inv F)|exact (Forall_inv L)].
    - change (col_any p (r0 :: r1 :: m))
        with (orb_vec (map p r0) (col_any p (r1 :: m))).
      rewrite (IH r1 (Forall_inv_tail F) (Forall_inv_tail L)).
      rewrite (Row r0 (Forall_inv F) (Forall_inv L)).
      apply orb_vec_full. }
  assert (R : row_any p m = repeat true (List.length m)).
  { unfold row_any. clear Ne C.
    induction F as [|row m Hr _ IH]; [reflexivity|].
    cbn [map List.length repeat]. rewrite (IH (Forall_inv_tail L)).
    f_equal. rewrite existsb_as_flags, (Row row Hr (Forall_inv L)).
    destruct W; [lia|reflexivity]. }
  unfold bounding_rect. rewrite C, R, !span_full; [reflexivity| |exact HW].
  destruct m; [congruence|simpl; lia].
Qed.

Lemma crop_all (W : nat) (img : image) :
  Forall (fun row => List.length row = W) img ->
  crop img 0 0 W (List.length img) = img.
Proof.
  intros L. rewrite crop_eq. cbn [skipn]. rewrite firstn_all.
  induction L as [|row img Hr _ IH]; [reflexivity|].
  cbn [map]. rewrite IH. f_equal. cbn [skipn]. subst W. apply firstn_all.
Qed.

(** X13. Trimming a page without contrast.  When all pixels have the same
    gray level, Otsu's threshold is 0; the page is returned unchanged,
    unless it is black (level 0): then the whole page counts as content and
    only gains the white margin. *)
Theorem auto_trim_and_pad_flat_page (img : image) (v : Z) (W pad : nat) :
  flat_page v img ->
  otsu_of img = 0 /\
  (1 <= v -> _auto_trim_and_pad img pad = img) /\
  (v <= 0 -> Forall (fun row => List.length row = W) img -> img <> [] ->
   (1 <= W)%nat ->
   trim_rect img = Some (0%nat, 0%nat, W, List.length img) /\
   _auto_trim_and_pad img pad = pad_white pad W img).
Proof.
  intros F. assert (O : otsu_of img = 0) by now apply (otsu_of_flat v).
  split; [exact O|]. split.
  - intros Hv. apply auto_trim_and_pad_none.
    rewrite trim_rect_content, O. apply bounding_rect_blank.
    eapply Forall_impl; [|exact F]. intros row Hr.
    eapply Forall_impl; [|exact Hr]. cbv beta. intros px Hpx.
    unfold content. rewrite Hpx. apply Z.leb_gt. lia.
  - intros Hv L Ne HW.
    assert (T : trim_rect img = Some (0%nat, 0%nat, W, List.length img)).
    { rewrite trim_rect_content, O. apply bounding_rect_full; try assumption.
      eapply Forall_impl; [|exact F]. intros row Hr.
      eapply Forall_impl; [|exact Hr]. cbv beta. intros px Hpx.
      unfold content. rewrite Hpx. apply Z.leb_le. lia. }
    split; [exact T|].
    rewrite (auto_trim_and_pad_some img W pad 0 0 W (List.length img) L T).
    now rewrite crop_all.
Qed.

Lemma auto_trim_and_pad_flat_page_witness :
  _auto_trim_and_pad (uniform_page 3 4 (200, 180, 160)) 16 =
  uniform_page 3 4 (200, 180, 160).
Proof.
  apply (auto_trim_and_pad_flat_page (uniform_page 3 4 (200, 180, 160))
           (gray_of_bgr (200, 180, 160)) 4 16).
  - repeat constructor.
  - vm_compute. discriminate.
Defined.

(** X14. Converting an image to OpenCV's channel order and back gives the
    image back, either way round, and keeps its shape; a gray image expanded
    to three channels has its gray levels back when converted to gray. *)
Theorem cv_round_trip (img : image) (g : gray_image) :
  _from_cv (_to_cv img) = img /\
  _to_cv (_from_cv img) = img /\
  shape2 (_to_cv img) = shape2 img /\
  cvtColor_BGR2GRAY (_to_cv (cvtColor_GRAY2BGR g)) = g.
Proof.
  split; [exact (to_cv_from_cv img)|]. split; [exact (to_cv_from_cv img)|].
  split.
  - unfold shape2, _to_cv. rewrite length_map.
    destruct img; simpl; [reflexivity|]. now rewrite length_map.
  - unfold cvtColor_BGR2GRAY, _to_cv, cvtColor_GRAY2BGR.
    rewrite !map_map. rewrite <- (map_id g) at 2. apply map_ext. intros row.
    rewrite !map_map. rewrite <- (map_id row) at 2. apply map_ext. intros x.
    unfold swap_rb, gray_of_bgr. rewrite Z.shiftr_div_pow2 by lia.
    change (2 ^ 15) with 32768.
    replace (x * 3735 + x * 19235 + x * 9798 + 16384) with (16384 + x * 32768)
      by lia.
    rewrite Z.div_add by lia. reflexivity.
Qed.

(** ** Numbered pages and chapters *)

Lemma all_chars_app (p : ascii -> bool) (a b : string) :
  all_chars p (a ++ b) = all_chars p a && all_chars p b.
Proof.
  induction a as [|c a IH]; simpl; [reflexivity|].
  now rewrite IH, andb_assoc.
Qed.

Lemma uint_digits (u : Decimal.uint) :
  all_chars is_digit (NilEmpty.string_of_uint u) = true.
Proof. induction u; simpl; auto. Qed.

Lemma str_of_nat_digits (n : nat) :
  all_chars is_digit (str_of_nat n) = true /\ str_of_nat n <> EmptyString.
Proof.
  unfold str_of_nat, NilZero.string_of_uint.
  destruct (Nat.to_uint n) eqn:E; simpl; split; try reflexivity;
    try discriminate; apply uint_digits.
Qed.

Lemma zeros_digits (k : nat) : all_chars is_digit (zeros k) = true.
Proof. induction k; simpl; auto. Qed.

Lemma padded_digits (k n : nat) :
  all_chars is_digit (padded k n) = true /\ padded k n <> EmptyString.
Proof.
  destruct (str_of_nat_digits n) as [D Ne]. unfold padded. split.
  - now rewrite all_chars_app, zeros_digits, D.
  - destruct k; simpl; [exact Ne|discriminate].
Qed.

Lemma int_digits_uint (u : Decimal.uint) :
  forall (acc : nat) (prev : bool),
    u <> Decimal.Nil \/ prev = true ->
    int_digits (NilEmpty.string_of_uint u) (Z.of_nat acc) prev =
    Some (Z.of_nat (Nat.of_uint_acc u acc)).
Proof.
  induction u; intros acc prev Hp;
    try (cbn [NilEmpty.string_of_uint int_digits Nat.of_uint_acc];
         rewrite Nat.tail_mul_spec;
         match goal with
         | |- context [digit_val ?c] =>
             let d := eval vm_compute in (digit_val c) in
             change (digit_val c) with d; cbv iota beta
         end;
         match goal with
         | |- int_digits _ ?z true = Some (Z.of_nat (Nat.of_uint_acc _ ?a)) =>
             replace z with (Z.of_nat a) by lia
         end;
         apply IHu; now right).
  simpl. destruct Hp as [Hp| ->]; [congruence|reflexivity].
Qed.

Lemma int_digits_str_of_nat (n : nat) (prev : bool) :
  int_digits (str_of_nat n) 0 prev = Some (Z.of_nat n).
Proof.
  unfold str_of_nat, NilZero.string_of_uint.
  pose proof (Unsigned.of_to n) as E. unfold Nat.of_uint in E.
  destruct (Nat.to_uint n) as [|u|u|u|u|u|u|u|u|u|u] eqn:U;
    [simpl in *; now subst| ..];
    rewrite <- E; apply (int_digits_uint _ 0 prev); left; discriminate.
Qed.

Lemma int_digits_zeros (k : nat) (s : string) (prev : bool) :
  s <> EmptyString ->
  all_chars is_digit s = true ->
  int_digits (zeros k ++ s) 0 prev = int_digits s 0 true.
Proof.
  intros Ne D. revert prev. induction k as [|k IH]; intros prev.
  - simpl. destruct s as [|c s]; [congruence|]. simpl in *.
    apply andb_true_iff in D. destruct D as [Dc _].
    unfold digit_val. now rewrite Dc.
  - simpl. apply IH.
Qed.

Lemma digit_not_space (c : ascii) : is_digit c = true -> is_space c = false.
Proof.
  unfold is_digit, is_space. intros H. apply andb_true_iff in H.
  destruct H as [H1 H2]. apply N.leb_le in H1, H2.
  apply orb_false_iff. split; apply andb_false_iff.
  - right. apply N.leb_gt. lia.
  - right. apply N.leb_gt. lia.
Qed.

Lemma rstrip_digits (s : string) :
  all_chars is_digit s = true -> rstrip s = s.
Proof.
  induction s as [|c s IH]; [reflexivity|]. simpl. intros D.
  apply andb_true_iff in D. destruct D as [Dc Ds].
  rewrite (IH Ds). destruct s; [|reflexivity].
  now rewrite (digit_not_space c Dc).
Qed.

Lemma strip_digits (s : string) : all_chars is_digit s = true -> strip s = s.
Proof.
  intros D. unfold strip.
  assert (L : lstrip s = s).
  { destruct s as [|c s]; [reflexivity|]. simpl in *.
    apply andb_true_iff in D. now rewrite (digit_not_space c (proj1 D)). }
  rewrite L. now apply rstrip_digits.
Qed.

Lemma py_int_padded (k n : nat) : py_int (padded k n) = Some (Z.of_nat n).
Proof.
  destruct (padded_digits k n) as [D Ne].
  destruct (str_of_nat_digits n) as [Dn Nen].
  unfold py_int. rewrite (strip_digits _ D).
  destruct (padded k n) as [|c rest] eqn:E; [congruence|].
  assert (Dc : is_digit c = true).
  { simpl in D. now apply andb_true_iff in D. }
  assert (C1 : (code c =? 45)%N = false).
  { unfold is_digit in Dc. apply andb_true_iff in Dc. destruct Dc as [Dc _].
    apply N.leb_le in Dc. apply N.eqb_neq. lia. }
  assert (C2 : (code c =? 43)%N = false).
  { unfold is_digit in Dc. apply andb_true_iff in Dc. destruct Dc as [Dc _].
    apply N.leb_le in Dc. apply N.eqb_neq. lia. }
  rewrite C1, C2, <- E. unfold padded.
  rewrite int_digits_zeros by assumption. apply int_digits_str_of_nat.
Qed.

Lemma star_greedy_stop (p : ascii -> bool) (rest : string) (cap : option string)
      (k : string -> option string -> option Match) :
  stops p rest -> star_greedy p rest cap k = k rest cap.
Proof. destruct rest as [|c rest]; simpl; [reflexivity|]. now intros ->. Qed.

Lemma star_greedy_prefix (p : ascii -> bool) (run rest : string)
      (cap : option string) (k : string -> option string -> option Match)
      (m : Match) :
  all_chars p run = true ->
  star_greedy p rest cap k = Some m ->
  star_greedy p (run ++ rest) cap k = Some m.
Proof.
  intros A E. induction run as [|c run IH]; simpl in *; [exact E|].
  apply andb_true_iff in A. destruct A as [Pc A].
  now rewrite Pc, (IH A).
Qed.

Lemma substring_prefix (a t : string) :
  substring 0 (String.length (a ++ t) - String.length t) (a ++ t) = a.
Proof.
  rewrite string_length_append, Nat.add_sub.
  induction a as [|c a IH]; simpl.
  - now destruct t.
  - now rewrite IH.
Qed.

Lemma rmatch_group_digits (ds t : string) (cap : option string)
      (k : string -> option string -> option Match) (m : Match) :
  ds <> EmptyString -> all_chars is_digit ds = true -> stops is_digit t ->
  k t (Some ds) = Some m ->
  rmatch (RGroup (rplus is_digit)) (ds ++ t) cap k = Some m.
Proof.
  intros Ne D St K. destruct ds as [|c ds]; [congruence|].
  cbn [all_chars] in D. apply andb_true_iff in D. destruct D as [Dc D].
  unfold rplus. cbn [rmatch]. cbn [append]. rewrite Dc.
  apply star_greedy_prefix; [exact D|].
  rewrite star_greedy_stop by exact St.
  change (String c (ds ++ t)) with (String c ds ++ t)%string.
  now rewrite substring_prefix.
Qed.

Lemma rmatch_rlit (lit : string) :
  forall (s t : string) (cap : option string)
         (k : string -> option string -> option Match),
    ci_eq lit s = true -> rmatch (rlit lit) (s ++ t) cap k = k t cap.
Proof.
  induction lit as [|c lit IH]; intros s t cap k E.
  - destruct s; [reflexivity|discriminate].
  - destruct s as [|x s]; [discriminate|]. cbn [ci_eq] in E.
    apply andb_true_iff in E. destruct E as [Ec E].
    destruct lit as [|c' lit].
    + destruct s; [|discriminate]. cbn. now rewrite Ec.
    + change (rlit (String c (String c' lit)))
        with (RSeq (RChar (ci c)) (rlit (String c' lit))).
      cbn [rmatch append]. rewrite Ec. now apply IH.
Qed.

Lemma ci_excl (b a x : ascii) :
  ci b x = true -> ci a x = (code (lower_char b) =? code (lower_char a))%N.
Proof. unfold ci. intros E. apply N.eqb_eq in E. now rewrite E. Qed.

Ltac ci_eval :=
  repeat match goal with
         | H : ci ?b ?x = true |- context [ci ?a ?x] =>
             rewrite (ci_excl b a x H)
         end.

Ltac ci_chars E :=
  cbn [ci_eq] in E;
  repeat (match type of E with
          | (_ && _) = true =>
              let H := fresh "Hc" in
              apply andb_true_iff in E; destruct E as [H E]
          | match ?s with EmptyString => _ | String _ _ => _ end = true =>
              destruct s as [|? ?]; try discriminate E
          end).

Lemma rmatch_ext (e ext : string) (cap : option string) :
  In e image_exts -> ci_eq e ext = true ->
  rmatch (RSeq (rlit ".") (RSeq rx_image_ext REnd)) ("." ++ ext) cap
         (fun _ c => Some c) = Some cap.
Proof.
  intros Hin E. unfold image_exts in Hin. simpl in Hin.
  destruct Hin as [<-|[<-|[<-|[<-|[]]]]]; ci_chars E;
    unfold rx_image_ext; cbn [rmatch rlit append]; ci_eval; reflexivity.
Qed.

Lemma star_lazy_first (p : ascii -> bool) (s : string) (cap : option string)
      (k : string -> option string -> option Match) (m : Match) :
  k s cap = Some m -> star_lazy p s cap k = Some m.
Proof. intros E. destruct s; simpl; now rewrite E. Qed.

Lemma path_name_join (dir : Path) (n : string) : path_name (path_join dir n) = n.
Proof. unfold path_name, path_join. apply last_last. Qed.

Lemma re_search_first (r : regex) (s : string) (m : Match) :
  rmatch r s None (fun _ cap => Some cap) = Some m -> re_search r s = Some m.
Proof. intros E. destruct s; simpl; now rewrite E. Qed.

Lemma all_chars_impl (p q : ascii -> bool) (s : string) :
  (forall c, p c = true -> q c = true) ->
  all_chars p s = true -> all_chars q s = true.
Proof.
  intros I. induction s as [|c s IH]; simpl; [reflexivity|].
  intros A. apply andb_true_iff in A. destruct A as [Pc A].
  now rewrite (I c Pc), (IH A).
Qed.

Lemma digits_stop (p : ascii -> bool) (ds t : string) :
  (forall c, is_digit c = true -> p c = false) ->
  ds <> EmptyString -> all_chars is_digit ds = true -> stops p (ds ++ t).
Proof.
  intros I Ne D. destruct ds as [|c ds]; [congruence|]. simpl in *.
  apply andb_true_iff in D. now apply I.
Qed.

Lemma rmatch_seq (r1 r2 : regex) (s : string) (cap : option string)
      (k : string -> option string -> option Match) :
  rmatch (RSeq r1 r2) s cap k =
  rmatch r1 s cap (fun s' cap' => rmatch r2 s' cap' k).
Proof. reflexivity. Qed.

Lemma tmo_image_match (ds e ext : string) :
  ds <> EmptyString -> all_chars is_digit ds = true ->
  In e image_exts -> ci_eq e ext = true ->
  re_search rx_tmo_image (ds ++ "." ++ ext) = Some (Some ds).
Proof.
  intros Ne D Hin E. apply re_search_first. unfold rx_tmo_image.
  rewrite rmatch_seq.
  apply rmatch_group_digits; try assumption; [reflexivity|].
  now apply (rmatch_ext e).
Qed.

Lemma inmanga_image_match (ds e ext : string) :
  ds <> EmptyString -> all_chars is_digit ds = true ->
  In e image_exts -> ci_eq e ext = true ->
  re_search rx_inmanga_image (ds ++ "." ++ ext) = Some (Some ds).
Proof.
  intros Ne D Hin E. apply re_search_first. unfold rx_inmanga_image.
  rewrite rmatch_seq. apply star_lazy_first. rewrite rmatch_seq.
  apply rmatch_group_digits; try assumption; [reflexivity|].
  now apply (rmatch_ext e).
Qed.

(** X15. Under both profiles, a page file named by a decimal number, with
    any number of leading zeros and one of the extensions jpg, jpeg, png,
    webp in any case, gets the numeric key of that number. *)
Theorem numbered_pages_sort_numerically (prof : SourceProfile) (dir : Path)
        (k n : nat) (e ext : string) :
  prof = PROFILE_TMO \/ prof = PROFILE_INMANGA ->
  In e image_exts -> ci_eq e ext = true ->
  let file := path_join dir (padded k n ++ "." ++ ext) in
  py_int (padded k n) = Some (Z.of_nat n) /\
  sort_image_key prof file = KNum (Z.of_nat n).
Proof.
  intros Hp Hin E file.
  destruct (padded_digits k n) as [D Ne].
  assert (I : py_int (padded k n) = Some (Z.of_nat n)) by apply py_int_padded.
  split; [exact I|].
  unfold sort_image_key, file.
  destruct Hp as [-> | ->].
  - apply (sort_key_with_num _ _ (re_search rx_tmo_image) (padded k n));
      [reflexivity| |exact I].
    rewrite path_name_join. now apply (tmo_image_match _ e).
  - apply (sort_key_with_num _ _ (re_search rx_inmanga_image) (padded k n));
      [reflexivity| |exact I].
    rewrite path_name_join. now apply (inmanga_image_match _ e).
Qed.

Lemma numbered_pages_sort_numerically_witness :
  sort_image_key PROFILE_INMANGA ["manga"; "Chapter 1"; "007.JPG"]%string
  = KNum 7.
Proof.
  apply (numbered_pages_sort_numerically PROFILE_INMANGA
           ["manga"; "Chapter 1"]%string 2 7 "jpg" "JPG").
  - now right.
  - simpl. auto.
  - reflexivity.
Defined.

Lemma group_digits_end (ds : string) (cap : option string) :
  ds <> EmptyString -> all_chars is_digit ds = true ->
  rmatch (RSeq (RGroup (rplus is_digit)) REnd) ds cap (fun _ c => Some c)
  = Some (Some ds).
Proof.
  intros Ne D. rewrite rmatch_seq.
  assert (E : ds = (ds ++ "")%string).
  { clear. induction ds as [|c ds IH]; simpl; [reflexivity|]. now rewrite <- IH. }
  rewrite E at 1.
  apply rmatch_group_digits; try assumption; reflexivity.
Qed.

Lemma group_digits_open (ds : string) (cap : option string) :
  ds <> EmptyString -> all_chars is_digit ds = true ->
  rmatch (RGroup (rplus is_digit)) ds cap (fun _ c => Some c) = Some (Some ds).
Proof.
  intros Ne D.
  assert (E : ds = (ds ++ "")%string).
  { clear. induction ds as [|c ds IH]; simpl; [reflexivity|]. now rewrite <- IH. }
  rewrite E at 1.
  apply rmatch_group_digits; try assumption; reflexivity.
Qed.

Lemma inmanga_chapter_match (p sp ds : string) :
  ci_eq "chapter" p = true -> all_chars is_space sp = true ->
  ds <> EmptyString -> all_chars is_digit ds = true ->
  re_search rx_inmanga_chapter (p ++ sp ++ ds) = Some (Some ds).
Proof.
  intros Hp Hs Ne D. apply re_search_first. unfold rx_inmanga_chapter.
  rewrite rmatch_seq, rmatch_rlit by exact Hp.
  rewrite rmatch_seq. apply star_greedy_prefix; [exact Hs|].
  assert (E : ds = (ds ++ "")%string).
  { clear. induction ds as [|c ds IH]; simpl; [reflexivity|]. now rewrite <- IH. }
  rewrite star_greedy_stop.
  2:{ rewrite E. apply digits_stop; try assumption. apply digit_not_space. }
  rewrite rmatch_seq. apply star_lazy_first.
  now apply group_digits_end.
Qed.

Lemma tmo_chapter_match (p sp ds : string) :
  ci_eq "chapter" p = true -> all_chars is_space sp = true ->
  ds <> EmptyString -> all_chars is_digit ds = true ->
  re_search rx_tmo_chapter (p ++ sp ++ ds) = Some (Some ds).
Proof.
  intros Hp Hs Ne D. apply re_search_first.
  assert (E : ds = (ds ++ "")%string).
  { clear. induction ds as [|c ds IH]; simpl; [reflexivity|]. now rewrite <- IH. }
  assert (K : rmatch (RSeq (RStar true (fun c => negb (is_digit c)))
                           (RGroup (rplus is_digit)))
                     (sp ++ ds) None (fun _ c => Some c) = Some (Some ds)).
  { rewrite rmatch_seq. apply star_greedy_prefix.
    - apply (all_chars_impl is_space); [|exact Hs].
      intros c Hc. destruct (is_digit c) eqn:Dc; [|reflexivity].
      apply digit_not_space in Dc. congruence.
    - rewrite star_greedy_stop.
      2:{ rewrite E. apply digits_stop; try assumption.
          intros c Hc. now rewrite Hc. }
      now apply group_digits_open. }
  unfold rx_tmo_chapter. rewrite rmatch_seq.
  assert (A1 : forall k,
             rmatch (RSeq (rlit "cap")
                       (RSeq (RAlt (rlit "i") (RAlt (rlit "í") (rlit "Í")))
                             (rlit "tulo")))
                    (p ++ sp ++ ds) None k = None).
  { intros k. ci_chars Hp. cbn [rmatch rlit append]. ci_eval. reflexivity. }
  change (rmatch (RAlt ?a ?b) ?s ?c ?k)
    with (match rmatch a s c k with
          | Some m => Some m
          | None => rmatch b s c k
          end).
  rewrite A1.
  change (rmatch (RAlt ?a ?b) ?s ?c ?k)
    with (match rmatch a s c k with
          | Some m => Some m
          | None => rmatch b s c k
          end).
  rewrite rmatch_rlit by exact Hp. now rewrite K.
Qed.

(** X16. Under both profiles, a directory named by the word chapter (in
    any case), optional blanks and a decimal number with any number of
    leading zeros gets the numeric key of that number. *)
Theorem numbered_chapters_sort_numerically (prof : SourceProfile) (dir : Path)
        (p sp : string) (k n : nat) :
  prof = PROFILE_TMO \/ prof = PROFILE_INMANGA ->
  ci_eq "chapter" p = true -> all_chars is_space sp = true ->
  sort_chapter_key prof (path_join dir (p ++ sp ++ padded k n))
  = KNum (Z.of_nat n).
Proof.
  intros Hprof Hp Hs.
  destruct (padded_digits k n) as [D Ne].
  assert (I : py_int (padded k n) = Some (Z.of_nat n)) by apply py_int_padded.
  unfold sort_chapter_key.
  destruct Hprof as [-> | ->].
  - apply (sort_key_with_num _ _ (re_search rx_tmo_chapter) (padded k n));
      [reflexivity| |exact I].
    rewrite path_name_join. now apply tmo_chapter_match.
  - apply (sort_key_with_num _ _ (re_search rx_inmanga_chapter) (padded k n));
      [reflexivity| |exact I].
    rewrite path_name_join. now apply inmanga_chapter_match.
Qed.

Lemma numbered_chapters_sort_numerically_witness :
  sort_chapter_key PROFILE_TMO ["manga"; "CHAPTER  012"]%string = KNum 12.
Proof.
  apply (numbered_chapters_sort_numerically PROFILE_TMO ["manga"%string]
           "CHAPTER" "  " 1 12).
  - now left.
  - reflexivity.
  - reflexivity.
Defined.

(** ** Preview and plan view *)

Lemma last_cons_default {A} (l : list A) :
  forall e d : A, last (e :: l) d = last l e.
Proof.
  induction l as [|a l IH]; intros e d; [reflexivity|].
  change (last (e :: a :: l) d) with (last (a :: l) d).
  now rewrite (IH a d), (IH a e).
Qed.

Lemma drags_manual (drags : list (Z * Z)) :
  forall (self : Preview) (start : Z * Z),
    fit_mode self = "Zoom manual"%string -> _pan_start self = Some start ->
    let self' := fold_left _pan_drag_evt drags self in
    fit_mode self' = fit_mode self /\ zoom self' = zoom self /\
    _pan_start self' = Some (last drags start) /\
    _offset self' =
      (fst (_offset self) + (fst (last drags start) - fst start),
       snd (_offset self) + (snd (last drags start) - snd start)).
Proof.
  induction drags as [|e drags IH]; intros self start M S0.
  - simpl. repeat split; try assumption.
    destruct (_offset self) as [x y]. simpl. f_equal; lia.
  - cbn [fold_left].
    assert (E : _pan_drag_evt self e =
                mkPreview (zoom self) (fit_mode self)
                  (fst (_offset self) + (fst e - fst start),
                   snd (_offset self) + (snd e - snd start)) (Some e)).
    { unfold _pan_drag_evt. rewrite M, S0. reflexivity. }
    rewrite E.
    specialize (IH (mkPreview (zoom self) (fit_mode self)
                      (fst (_offset self) + (fst e - fst start),
                       snd (_offset self) + (snd e - snd start)) (Some e))
                   e M eq_refl).
    cbv zeta in IH. destruct IH as (I1 & I2 & I3 & I4).
    cbv zeta. rewrite I1, I2, I3, I4. cbn [fit_mode zoom _offset fst snd].
    rewrite last_cons_default. repeat split. f_equal; lia.
Qed.

Lemma drags_fitted (drags : list (Z * Z)) :
  forall self : Preview,
    fit_mode self <> "Zoom manual"%string ->
    fold_left _pan_drag_evt drags self = self.
Proof.
  induction drags as [|e drags IH]; intros self M; [reflexivity|].
  cbn [fold_left].
  assert (E : _pan_drag_evt self e = self).
  { unfold _pan_drag_evt. apply String.eqb_neq in M. now rewrite M. }
  rewrite E. now apply IH.
Qed.

(** X17. Panning.  In manual zoom, a press followed by drags moves the
    image by the difference between the last position and the press,
    whatever the path in between; in any other mode the gesture changes
    nothing, in particular after [_fit_view], which also resets the
    offset. *)
Theorem pan_gesture_moves_by_total (self : Preview) (p0 : Z * Z)
        (drags : list (Z * Z)) :
  let p := last drags p0 in
  (fit_mode self = "Zoom manual"%string ->
   pan_gesture self p0 drags =
   mkPreview (zoom self) (fit_mode self)
     (fst (_offset self) + (fst p - fst p0),
      snd (_offset self) + (snd p - snd p0)) (Some p)) /\
  (fit_mode self <> "Zoom manual"%string ->
   pan_gesture self p0 drags = self) /\
  pan_gesture (_fit_view self) p0 drags = _fit_view self /\
  _offset (_fit_view self) = (0, 0).
Proof.
  cbv zeta. split; [|split; [|split]].
  - intros M. unfold pan_gesture.
    assert (E : _pan_start_evt self p0 =
                mkPreview (zoom self) (fit_mode self) (_offset self) (Some p0)).
    { unfold _pan_start_evt. now rewrite M. }
    rewrite E.
    destruct (drags_manual drags
                (mkPreview (zoom self) (fit_mode self) (_offset self) (Some p0))
                p0 M eq_refl) as (I1 & I2 & I3 & I4).
    destruct (fold_left _pan_drag_evt drags _) as [z f o s].
    cbn [fit_mode zoom _offset _pan_start] in *. now subst.
  - intros M. unfold pan_gesture.
    assert (E : _pan_start_evt self p0 = self).
    { unfold _pan_start_evt. apply String.eqb_neq in M. now rewrite M. }
    rewrite E. now apply drags_fitted.
  - unfold pan_gesture.
    assert (E : _pan_start_evt (_fit_view self) p0 = _fit_view self)
      by reflexivity.
    rewrite E. apply drags_fitted. discriminate.
  - reflexivity.
Qed.

Lemma pan_gesture_moves_by_total_witness :
  pan_gesture manual_preview (10, 10) [(12, 9); (40, 2); (13, 14)] =
  mkPreview (3 # 2) "Zoom manual" (5 + (13 - 10), -3 + (14 - 10))
            (Some (13, 14)).
Proof.
  apply (pan_gesture_moves_by_total manual_preview (10, 10)
           [(12, 9); (40, 2); (13, 14)]).
  reflexivity.
Defined.

Lemma crop_side (n c w : Z) :
  0 <= c < n -> 1 <= w ->
  let a := Z.max 0 (c - w / 2) in
  let b := Z.min n (a + w) in
  let a' := if b - a <? w then Z.max 0 (b - w) else a in
  0 <= a' <= c /\ c < b <= n /\ b - a' = Z.min w n.
Proof.
  intros Hc Hw. cbv zeta.
  assert (D : 0 <= w / 2 /\ w / 2 < w).
  { split; [apply Z.div_pos; lia|apply Z.div_lt; lia]. }
  destruct (Z.min n (Z.max 0 (c - w / 2) + w) - Z.max 0 (c - w / 2) <? w) eqn:B.
  - apply Z.ltb_lt in B. lia.
  - apply Z.ltb_ge in B. lia.
Qed.

(** X18. The crop box of the magnifier lies inside the image, holds the
    pixel under the cursor, and has the side asked for (at least 8) in each
    direction in which the image is that large, and the image's full extent
    otherwise. *)
Theorem magnifier_box_inside (iw ih cx cy q : Z) :
  0 <= cx < iw -> 0 <= cy < ih ->
  let '(x1, y1, x2, y2) := magnifier_box iw ih cx cy q in
  0 <= x1 <= cx /\ cx < x2 <= iw /\
  0 <= y1 <= cy /\ cy < y2 <= ih /\
  x2 - x1 = Z.min (Z.max 8 q) iw /\
  y2 - y1 = Z.min (Z.max 8 q) ih.
Proof.
  intros Hx Hy. unfold magnifier_box. cbv zeta.
  assert (W : 1 <= Z.max 8 q) by lia.
  pose proof (crop_side iw cx (Z.max 8 q) Hx W) as X.
  pose proof (crop_side ih cy (Z.max 8 q) Hy W) as Y.
  cbv zeta in X, Y. tauto.
Qed.

Lemma magnifier_box_inside_witness :
  let '(x1, y1, x2, y2) := magnifier_box 600 800 598 3 55 in
  0 <= x1 <= 598 /\ 598 < x2 <= 600 /\
  0 <= y1 <= 3 /\ 3 < y2 <= 800 /\
  x2 - x1 = Z.min (Z.max 8 55) 600 /\
  y2 - y1 = Z.min (Z.max 8 55) 800.
Proof.
  apply (magnifier_box_inside 600 800 598 3 55); lia.
Defined.

Lemma plan_pages_concat (plan : list (list Chapter)) :
  py_sum (map pages (concat plan)) =
  py_sum (map (fun vol => py_sum (map pages vol)) plan).
Proof.
  induction plan as [|v plan IH]; [reflexivity|].
  cbn [concat map]. now rewrite map_app, py_sum_app, py_sum_cons, IH.
Qed.

Lemma plan_view_rows (self : App) :
  map vol_chapters (rows (update_plan_view self)) = build_plan self /\
  map vol_pages (rows (update_plan_view self)) =
  map (fun vol => py_sum (map pages vol)) (build_plan self).
Proof.
  unfold update_plan_view, enumerate. cbn [rows].
  generalize (build_plan self) as plan. intros plan.
  generalize 0%nat as s.
  induction plan as [|v plan IH]; intros s; [split; reflexivity|].
  cbn [List.length seq combine map]. destruct (IH (S s)) as [I1 I2].
  rewrite I1, I2. split; reflexivity.
Qed.

(** X19. The plan view is consistent: the number of volumes is the number
    of rows; the total of pages is the sum of the rows' page counts, and the
    page count of the enabled chapters; each row's page count is that of its
    chapters, all of them enabled; the total is not negative. *)
Theorem plan_view_totals (self : App) :
  let view := update_plan_view self in
  total_vols view = Z.of_nat (List.length (rows view)) /\
  total_pages view = py_sum (map vol_pages (rows view)) /\
  total_pages view = py_sum (map pages (filter enabled (chapters self))) /\
  Forall (fun r => vol_pages r = py_sum (map pages (vol_chapters r)) /\
                   Forall (fun c => enabled c = true) (vol_chapters r))
         (rows view) /\
  0 <= total_pages view.
Proof.
  cbv zeta. destruct (plan_view_rows self) as [R1 R2].
  split; [|split; [|split; [|split]]].
  - rewrite <- (length_map vol_chapters), R1. reflexivity.
  - rewrite R2, <- plan_pages_concat. reflexivity.
  - apply total_pages_enabled.
  - apply Forall_forall. intros r Hr.
    assert (Hv : In (vol_chapters r) (build_plan self)).
    { rewrite <- R1. now apply in_map. }
    split.
    + unfold update_plan_view in Hr. cbn [rows] in Hr.
      apply in_map_iff in Hr. destruct Hr as ([idx vol] & <- & _). reflexivity.
    + apply Forall_forall. intros c Hc.
      assert (Hin : In c (concat (build_plan self))).
      { apply in_concat. exists (vol_chapters r). split; assumption. }
      rewrite build_plan_concat in Hin. apply filter_In in Hin. tauto.
  - rewrite total_pages_enabled.
    generalize (filter enabled (chapters self)) as l.
    induction l as [|c l IH]; [unfold py_sum; simpl; lia|].
    cbn [map]. rewrite py_sum_cons. unfold pages at 1. lia.
Qed.

(** ** Early exits, clamped settings and failures of the pre-pass *)

Lemma chunks_of_one {A} (l : list A) :
  map (fun k => firstn 1 (skipn (k * 1) l)) (seq 0 (List.length l)) =
  map (fun c => [c]) l.
Proof.
  induction l as [|a l IH]; [reflexivity|].
  cbn [List.length seq map]. f_equal.
  rewrite <- seq_shift, map_map. rewrite <- IH.
  apply map_ext. intros k. reflexivity.
Qed.

(** X20. Scans that end early.  Without a selected folder the chapter
    list is emptied and nothing is read.  A profile key other than TMO and
    INMANGA raises [KeyError], the chapter list being emptied already; a key
    that is found gives the profile of that key, and both profiles expect
    subfolders.  A scan in flat mode that raises leaves no chapter. *)
Theorem scan_images_early_exits (self : App) (root : Node) :
  (selected_folder self = None ->
   scan_images self root = (set_chapters self [], None)) /\
  (selected_folder self <> None -> PROFILES (profile_key self) = None ->
   scan_images self root =
   (set_chapters self [], Some (KeyError (profile_key self)))) /\
  (forall k,
     PROFILES k = None <-> k <> "TMO"%string /\ k <> "INMANGA"%string) /\
  (forall k p, PROFILES k = Some p -> key p = k /\ expects_subfolders p = true) /\
  (snd (scan_images self root) <> None ->
   process_subfolders self = false ->
   chapters (fst (scan_images self root)) = []).
Proof.
  split; [|split; [|split; [|split]]].
  - intros N. unfold scan_images. now rewrite N.
  - intros N P. unfold scan_images. rewrite P.
    destruct (selected_folder self); [reflexivity|congruence].
  - intros k. unfold PROFILES. cbn [key PROFILE_TMO PROFILE_INMANGA].
    destruct (k =? "TMO")%string eqn:E1.
    { apply String.eqb_eq in E1. split; [discriminate|tauto]. }
    destruct (k =? "INMANGA")%string eqn:E2.
    { apply String.eqb_eq in E2. split; [discriminate|tauto]. }
    apply String.eqb_neq in E1, E2. tauto.
  - intros k p. unfold PROFILES. cbn [key PROFILE_TMO PROFILE_INMANGA].
    destruct (k =? "TMO")%string eqn:E1.
    { apply String.eqb_eq in E1. intros E. injection E as <-. now subst. }
    destruct (k =? "INMANGA")%string eqn:E2; [|discriminate].
    apply String.eqb_eq in E2. intros E. injection E as <-. now subst.
  - intros Err Pf. unfold scan_images in *.
    destruct (selected_folder self) as [folder|]; [|reflexivity].
    destruct (PROFILES (profile_key self)) as [profile|]; [|reflexivity].
    rewrite Pf, andb_false_r in *.
    destruct (iterdir (folder, root)) as [e|es]; [reflexivity|].
    destruct (image_files profile es); simpl in Err; congruence.
Qed.

Lemma scan_images_early_exits_witness :
  scan_images initial_app small_root = (set_chapters initial_app [], None).
Proof.
  apply (scan_images_early_exits initial_app small_root). reflexivity.
Defined.

(** X21. Settings out of range are clamped: a group size of 1 or less
    plans one chapter per volume, a start volume of 1 or less numbers the
    volumes from 1; and no volume of a plan is empty. *)
Theorem plan_clamps_settings (self : App) :
  (group_size self <= 1 ->
   build_plan self = map (fun c => [c]) (filter enabled (chapters self))) /\
  (start_volume self <= 1 ->
   map vnum (rows (update_plan_view self)) =
   Z_range 1 (List.length (build_plan self))) /\
  Forall (fun vol => vol <> []) (build_plan self).
Proof.
  split; [|split].
  - intros G. pose proof (build_plan_chunks self) as E. cbv zeta in E.
    rewrite E. replace (Z.to_nat (Z.max 1 (group_size self))) with 1%nat by lia.
    replace ((List.length (filter enabled (chapters self)) + 1 - 1) / 1)%nat
      with (List.length (filter enabled (chapters self)))
      by (rewrite Nat.div_1_r; lia).
    apply chunks_of_one.
  - intros Sv. rewrite plan_view_vnums.
    now replace (Z.max 1 (start_volume self)) with 1 by lia.
  - pose proof (build_plan_chunks self) as E. cbv zeta in E. rewrite E.
    set (g := Z.to_nat (Z.max 1 (group_size self))).
    set (en := filter enabled (chapters self)).
    assert (Hg : (1 <= g)%nat) by (unfold g; lia).
    apply Forall_forall. intros vol Hin. apply in_map_iff in Hin.
    destruct Hin as (k & <- & Hk). apply in_seq in Hk.
    assert (Hlt : (k * g < List.length en)%nat)
      by (apply ceil_div_tight; [exact Hg|lia]).
    intros C. apply (f_equal (@List.length Chapter)) in C.
    rewrite length_firstn, length_skipn in C. simpl in C. lia.
Qed.

Lemma plan_clamps_settings_witness :
  build_plan (app_with 1200 0 (-4) None five_chapters) =
  map (fun c => [c]) (filter enabled five_chapters).
Proof.
  apply (plan_clamps_settings (app_with 1200 0 (-4) None five_chapters)).
  simpl. lia.
Defined.

(** X22. Failures in the pre-pass.  When the bilateral filter raises, the
    smoothing stage is skipped, as if it were switched off, and likewise the
    legacy binarize stage when the adaptive threshold raises; a failure of
    the grayscale or of the autocontrast conversion fails the whole
    pipeline. *)
Theorem prepass_failures_are_skipped `{ImagingLib} (self : App) (img : image)
        (preset : string) :
  ((forall m, cv2_bilateralFilter m 9 75 75 = None) ->
   enhance_image_preset self img preset =
   enhance_image_preset (set_noise_reduction self false) img preset) /\
  ((forall g, cv2_adaptiveThreshold g 35 10 = None) ->
   enhance_image_preset self img preset =
   enhance_image_preset (set_adaptive_threshold self false) img preset) /\
  (to_grayscale self = true -> ImageOps_grayscale img = None ->
   enhance_image_preset self img preset = None) /\
  (to_grayscale self = false -> auto_contrast self = true ->
   ImageOps_autocontrast img = None ->
   enhance_image_preset self img preset = None).
Proof.
  split; [|split; [|split]].
  - intros F. unfold enhance_image_preset.
    cbn [to_grayscale auto_contrast noise_reduction adaptive_threshold
         contrast_boost sharpness_boost eink_dither set_noise_reduction].
    destruct (if to_grayscale self
              then bind (ImageOps_grayscale img)
                        (fun g => Some (cvtColor_GRAY2BGR g))
              else Some img) as [img1|]; [|reflexivity].
    cbn [bind].
    destruct (if auto_contrast self then ImageOps_autocontrast img1
              else Some img1) as [img2|]; [|reflexivity].
    cbn [bind]. rewrite F. cbn [bind try_or].
    unfold _sauvola_like. cbn [has_ximgproc].
    now destruct (noise_reduction self).
  - intros F. unfold enhance_image_preset.
    cbn [to_grayscale auto_contrast noise_reduction adaptive_threshold
         contrast_boost sharpness_boost eink_dither set_adaptive_threshold].
    destruct (if to_grayscale self
              then bind (ImageOps_grayscale img)
                        (fun g => Some (cvtColor_GRAY2BGR g))
              else Some img) as [img1|]; [|reflexivity].
    cbn [bind].
    destruct (if auto_contrast self then ImageOps_autocontrast img1
              else Some img1) as [img2|]; [|reflexivity].
    cbn [bind]. rewrite !F. cbn [bind try_or].
    unfold _sauvola_like. cbn [has_ximgproc].
    now destruct (adaptive_threshold self).
  - intros G E. unfold enhance_image_preset. now rewrite G, E.
  - intros G A E. unfold enhance_image_preset. rewrite G, A. cbn [bind].
    now rewrite E.
Qed.

Lemma prepass_failures_are_skipped_witness :
  @enhance_image_preset no_filter_lib initial_app tiny_page "Manga limpio" =
  @enhance_image_preset no_filter_lib (set_noise_reduction initial_app false)
     tiny_page "Manga limpio".
Proof.
  apply (@prepass_failures_are_skipped no_filter_lib initial_app tiny_page
           "Manga limpio").
  reflexivity.
Defined.
